(** * ClientFlow server (server.ts): a shallow embedding of the HTTP handlers
      and of the SQL statements they run.

    The database of server.ts is one SQLite file opened through
    better-sqlite3.  The embedding keeps the five tables of the schema as
    lists of typed rows in rowid order, each with its AUTOINCREMENT counter,
    and writes every prepared statement of the handlers as a function on that
    state.  A handler is a computation in a small state-and-exception monad;
    [transaction] is the driver's [db.transaction]: it restores the state it
    started from when the wrapped function throws.

    Conventions.
    - A JavaScript number and a REAL column value are IEEE 754 binary64
      numbers, the [spec_float] of the Standard Library at precision 53;
      [-], [/] and [*] are its correctly rounded operations.  A NaN is bound
      as NULL, and a REAL column gives a negative zero back as zero.
    - A rowid is a [Z]; the driver hands a rowid to JavaScript as a number,
      which rounds it when it is beyond 2^53 ([js_number]), and an id that a
      request names must lie strictly between -2^63 and 2^63 - 1 to be a
      rowid ([rowid_ok]).  AUTOINCREMENT is taken to have a next rowid: the
      SQLITE_FULL error of a table whose counter stands at 2^63 - 1 is not
      modelled.
    - The DATE and DATETIME columns have NUMERIC affinity: they store a
      [Value], an integer, a real or a text, and a text that is a numeric
      literal is stored as the number it denotes.  Which number the engine
      reads from a literal ([sqlite3AtoF]) is a parameter of the model, the
      function [affinity]; so is the aggregate SUM, whose way of adding
      doubles differs between versions of the engine.  CURRENT_TIMESTAMP is
      the text 'YYYY-MM-DD HH:MM:SS', an argument of the handlers that read
      the clock, as is [new Date()]; transactions.created_at is never
      written otherwise and stays a text.
    - Request fields carry the types the handlers use them at; a field that
      is absent or null is [None].  A handler takes the parsed request and
      returns its answer as a value; a GET handler answers the rows its
      query returns.  How a row is written as JSON matters where the
      document is read back: GET /api/backup answers the document as JSON
      carries it.
    - The [:id] and [:clientId] path segments are the integers SQLite's
      INTEGER affinity turns the bound text into.
    - better-sqlite3 builds SQLite with SQLITE_DEFAULT_FOREIGN_KEYS=1, so the
      connection enforces the FOREIGN KEY clauses of the schema unless the
      pragma is switched off; the pragma is the field [foreign_keys] of the
      state and no handler writes it.
    - The ALTER TABLE migrations (lines 65-82), the Vite middleware and the
      static files are left out: the first act on the schema of an older
      file, the others do not touch the database. *)

From Stdlib Require Import ZArith QArith List String Ascii Bool Lia.
From Stdlib Require Import DecimalString Qround Qabs Qpower Sorting.Sorted Sorting.Permutation.
From Stdlib Require Import SpecFloat.
Import ListNotations.

Open Scope Z_scope.

(** ** Numbers *)

(** A JavaScript number: an IEEE 754 binary64. *)
Definition number : Type := spec_float.

Definition fsub : number -> number -> number := SFsub 53 1024.
Definition fmul : number -> number -> number := SFmul 53 1024.
Definition fdiv : number -> number -> number := SFdiv 53 1024.
Definition fadd : number -> number -> number := SFadd 53 1024.

(** The number nearest to an integer. *)
Definition of_Z (i : Z) : number := binary_normalize 53 1024 i 0 false.

Definition zero : number := S754_zero false.

(** Truthiness of a number: every number but the zeros and NaN. *)
Definition truthy (x : number) : bool :=
  match x with
  | S754_zero _ | S754_nan => false
  | _ => true
  end.

(** [x > 0] and [x >= 0]: false of NaN. *)
Definition above_zero (x : number) : bool := SFltb zero x.
Definition not_negative (x : number) : bool := SFleb zero x.

Definition is_finite (x : number) : bool :=
  match x with
  | S754_zero _ | S754_finite _ _ _ => true
  | _ => false
  end.

(** The value of a finite number, m * 2^e with its sign. *)
Definition to_Q (x : number) : Q :=
  match x with
  | S754_finite s m e =>
      let n := if s then Zneg m else Zpos m in
      match e with
      | Zneg p => Qmake n (2 ^ p)%positive
      | _ => inject_Z (n * 2 ^ e)
      end
  | _ => 0%Q
  end.

(** What a REAL column gives back for a number bound to it: NaN is bound as
    NULL, and the zero the column stores has no sign. *)
Definition sql_real (x : number) : option number :=
  match x with
  | S754_nan => None
  | S754_zero _ => Some zero
  | _ => Some x
  end.

(** JavaScript's ToNumber on a column read back as a number or as null. *)
Definition to_number (v : option number) : number :=
  match v with
  | Some x => x
  | None => zero
  end.

(** A number after JSON.stringify and JSON.parse: NaN and the infinities are
    written as null, and the zero that is read has no sign. *)
Definition json_number (x : number) : option number :=
  match x with
  | S754_nan | S754_infinity _ => None
  | S754_zero _ => Some zero
  | _ => Some x
  end.

(** An int64 as a JavaScript number: beyond 53 bits the nearest double, a tie
    going to the even significand.  The result is the double's value. *)
Definition js_number (i : Z) : Z :=
  let a := Z.abs i in
  let k := Z.log2 a - 52 in
  if k <=? 0 then i
  else
    let q := a / 2 ^ k in
    let r := a mod 2 ^ k in
    let h := 2 ^ (k - 1) in
    let q' :=
      if r <? h then q
      else if h <? r then q + 1
      else if Z.even q then q else q + 1 in
    Z.sgn i * (q' * 2 ^ k).

(** A number that names a row: bound as a double, it must be an integer
    strictly inside the int64 range (sqlite3VdbeIntegerAffinity). *)
Definition rowid_ok (i : Z) : bool := (- 2 ^ 63 <? i) && (i <? 2 ^ 63 - 1).

(** ** Values of the columns with NUMERIC affinity *)

Inductive Value :=
| Integer (i : Z)
| Real (r : number)
| Text (s : string).

(** The integer a finite number is, when it is one. *)
Definition integer_of (x : number) : option Z :=
  match x with
  | S754_zero _ => Some 0
  | S754_finite s m e =>
      let n := if s then Zneg m else Zpos m in
      match e with
      | Zneg p => if (n mod 2 ^ Zpos p =? 0) then Some (n / 2 ^ Zpos p) else None
      | _ => Some (n * 2 ^ e)
      end
  | _ => None
  end.

(** A number bound to a NUMERIC column: NaN is NULL, a number that is an
    integer inside the int64 range is stored as that integer, every other
    one as the real it is. *)
Definition store_number (x : number) : option Value :=
  match x with
  | S754_nan => None
  | _ =>
      match integer_of x with
      | Some i => if rowid_ok i then Some (Integer i) else Some (Real x)
      | None => Some (Real x)
      end
  end.

(** ** Rows of the five tables (CREATE TABLE, server.ts lines 13-63) *)

Module Client.
Record t := mk {
  id : Z;                        (* INTEGER PRIMARY KEY AUTOINCREMENT *)
  name : string;                 (* TEXT NOT NULL *)
  email : option string;
  phone : option string;
  company : option string;
  notes : option string;
  managed_by : option string;
  status : option string;        (* TEXT DEFAULT 'active' *)
  created_at : option Value      (* DATETIME DEFAULT CURRENT_TIMESTAMP *)
}.
End Client.

Module Service.
Record t := mk {
  id : Z;
  client_id : option Z;          (* REFERENCES clients(id) ON DELETE CASCADE *)
  service_type : string;         (* TEXT NOT NULL *)
  price : option number          (* REAL DEFAULT 0 *)
}.
End Service.

Module Payment.
Record t := mk {
  id : Z;
  client_id : option Z;          (* REFERENCES clients(id) ON DELETE CASCADE *)
  total_amount : option number;       (* REAL DEFAULT 0 *)
  advance_paid : option number;       (* REAL DEFAULT 0 *)
  remaining_balance : option number;  (* REAL DEFAULT 0 *)
  last_updated : option Value    (* DATETIME DEFAULT CURRENT_TIMESTAMP *)
}.
End Payment.

Module Task.
Record t := mk {
  id : Z;
  client_id : option Z;          (* REFERENCES clients(id) ON DELETE CASCADE *)
  title : string;                (* TEXT NOT NULL *)
  assigned_to : option string;
  due_date : option Value;       (* DATE *)
  status : option string;        (* TEXT DEFAULT 'pending' *)
  created_at : option Value      (* DATETIME DEFAULT CURRENT_TIMESTAMP *)
}.
End Task.

Module Transaction.
Record t := mk {
  id : Z;
  client_id : option Z;          (* REFERENCES clients(id) ON DELETE CASCADE *)
  amount : number;               (* REAL NOT NULL *)
  type : option string;          (* TEXT DEFAULT 'payment' *)
  created_at : option string     (* DATETIME DEFAULT CURRENT_TIMESTAMP, no other value *)
}.
End Transaction.

(** ** Requests and answers *)

(** The body of POST /api/clients. *)
Module PostClients.
Record body := mk {
  name : option string;
  email : option string;
  phone : option string;
  company : option string;
  services : option (list (option string));
  total_amount : number;
  advance_paid : number;
  notes : option string;
  managed_by : option string
}.
End PostClients.

(** The body of PATCH /api/clients/:id. *)
Module PatchClients.
Record body := mk {
  name : option string;
  email : option string;
  phone : option string;
  company : option string;
  notes : option string;
  services : option (list (option string));
  managed_by : option string
}.
End PatchClients.

(** The body of PATCH /api/payments/:clientId. *)
Module PatchPayments.
Record body := mk {
  advance_paid : number;
  amount_added : option number
}.
End PatchPayments.

(** The body of POST /api/tasks. *)
Module PostTasks.
Record body := mk {
  client_id : option Z;
  title : option string;
  assigned_to : option string;
  due_date : option string
}.
End PostTasks.

(** A row of GET /api/tasks. *)
Module TaskRow.
Record t := mk { task : Task.t; client_name : string }.   (* t.*, c.name *)
End TaskRow.

(** A row of GET /api/clients. *)
Module ClientRow.
Record t := mk {
  client : Client.t;                 (* c.* *)
  services : list string;
  total_amount : option number;
  advance_paid : option number;
  remaining_balance : option number;
  pending_tasks : Z
}.
End ClientRow.

(** The document of GET /api/backup and POST /api/restore.  In a document a
    date field that is a number is [Integer i] when the column held the
    integer i and [Real r] when it held a real. *)
Module Backup.
Record t := mk {
  clients : list Client.t;
  services : list Service.t;
  payments : list Payment.t;
  tasks : list Task.t;
  timestamp : string;
  version : string
}.
End Backup.

(** The two rows GET /api/stats reads, and its answer. *)
Module CurrentStats.
Record t := mk {
  total_revenue : option number;      (* SUM(p.total_amount) *)
  total_received : option number;     (* SUM(p.advance_paid) *)
  total_pending : option number;      (* SUM(p.remaining_balance) *)
  total_clients : Z                   (* COUNT(c.id) *)
}.
End CurrentStats.

Module PrevMonthStats.
Record t := mk {
  total_revenue : option number;
  total_received : option number
}.
End PrevMonthStats.

Module Stats.
Record t := mk {
  revenue_value : number;
  revenue_trend : string;
  received_value : number;
  received_trend : string;
  pending_value : number;
  clients_value : Z
}.
End Stats.

(** The answer of GET /api/health. *)
Module Health.
Record t := mk {
  status : string;
  database : string;
  clients : Z;                   (* SELECT COUNT( * ) as count FROM clients *)
  env : string
}.
End Health.

(** A row of GET /api/transactions. *)
Module TransactionRow.
Record t := mk {
  transaction : Transaction.t;   (* t.* *)
  client_name : string;          (* c.name *)
  company : option string        (* c.company *)
}.
End TransactionRow.

(** ** Tables and the database *)

(** A table is its rows in rowid order (the order of a scan without ORDER BY)
    and the value sqlite_sequence keeps for it. *)
Record Table (R : Type) := mkTable { rows : list R; seq : Z }.
Arguments mkTable {R} _ _.
Arguments rows {R} _.
Arguments seq {R} _.

Record Db := mkDb {
  foreign_keys : bool;
  clients : Table Client.t;
  services : Table Service.t;
  payments : Table Payment.t;
  tasks : Table Task.t;
  transactions : Table Transaction.t
}.

Definition set_clients (t : Table Client.t) (db : Db) : Db :=
  mkDb (foreign_keys db) t (services db) (payments db) (tasks db) (transactions db).
Definition set_services (t : Table Service.t) (db : Db) : Db :=
  mkDb (foreign_keys db) (clients db) t (payments db) (tasks db) (transactions db).
Definition set_payments (t : Table Payment.t) (db : Db) : Db :=
  mkDb (foreign_keys db) (clients db) (services db) t (tasks db) (transactions db).
Definition set_tasks (t : Table Task.t) (db : Db) : Db :=
  mkDb (foreign_keys db) (clients db) (services db) (payments db) t (transactions db).
Definition set_transactions (t : Table Transaction.t) (db : Db) : Db :=
  mkDb (foreign_keys db) (clients db) (services db) (payments db) (tasks db) t.

(** ** Row-level operations of the engine *)

Section TableOps.
Context {R : Type}.
Variable rowid : R -> Z.

Definition max_rowid (l : list R) : Z :=
  fold_right (fun r m => Z.max (rowid r) m) 0 l.

(** The rowid AUTOINCREMENT picks: one more than the largest rowid the
    table holds or has ever held. *)
Definition next_rowid (t : Table R) : Z :=
  Z.max (seq t) (max_rowid (rows t)) + 1.

(** INSERT without a value for the id column. *)
Definition insert_auto (mk : Z -> R) (t : Table R) : Z * Table R :=
  let i := next_rowid t in
  (i, mkTable (rows t ++ [mk i]) i).

Definition has_rowid (i : Z) (l : list R) : bool :=
  existsb (fun r => rowid r =? i) l.

Fixpoint place (r : R) (l : list R) : list R :=
  match l with
  | [] => [r]
  | x :: l' => if rowid r <? rowid x then r :: l else x :: place r l'
  end.

(** INSERT with an explicit id: refused when the id is taken (PRIMARY KEY),
    otherwise the row goes to its place in rowid order and the counter
    keeps the larger value. *)
Definition insert_with_id (r : R) (t : Table R) : option (Table R) :=
  if has_rowid (rowid r) (rows t) then None
  else Some (mkTable (place r (rows t)) (Z.max (seq t) (rowid r))).

(** DELETE FROM ... WHERE p. *)
Definition delete_where (p : R -> bool) (t : Table R) : Table R :=
  mkTable (filter (fun r => negb (p r)) (rows t)) (seq t).

(** UPDATE ... SET f WHERE p. *)
Definition update_where (p : R -> bool) (f : R -> R) (t : Table R) : Table R :=
  mkTable (map (fun r => if p r then f r else r) (rows t)) (seq t).
End TableOps.

(** [column = ?] on a nullable INTEGER column: NULL matches nothing. *)
Definition eq_col (c : option Z) (v : Z) : bool :=
  match c with
  | Some x => x =? v
  | None => false
  end.

(** [column IN ids], the test of a cascading delete. *)
Definition in_col (c : option Z) (ids : list Z) : bool :=
  match c with
  | Some x => existsb (Z.eqb x) ids
  | None => false
  end.

(** The parent key a child row names exists (or the key is NULL). *)
Definition parent_ok (db : Db) (c : option Z) : bool :=
  match c with
  | Some x => has_rowid Client.id x (rows (clients db))
  | None => true
  end.

(** [new Database("clientflow.db")] on a fresh file, after the CREATE TABLE
    IF NOT EXISTS statements: five empty tables, foreign keys enforced. *)
Definition new_database : Db :=
  mkDb true (mkTable [] 0) (mkTable [] 0) (mkTable [] 0) (mkTable [] 0) (mkTable [] 0).

(** ** Statements: state and exceptions *)

Inductive Error :=
| NotNullConstraint      (* SQLITE_CONSTRAINT_NOTNULL *)
| PrimaryKeyConstraint   (* SQLITE_CONSTRAINT_PRIMARYKEY *)
| ForeignKeyConstraint   (* SQLITE_CONSTRAINT_FOREIGNKEY *)
| DatatypeMismatch       (* SQLITE_MISMATCH *)
| TypeError.             (* thrown by the JavaScript itself *)

Inductive Result (A : Type) :=
| Ok (a : A)
| Throw (e : Error).
Arguments Ok {A} _.
Arguments Throw {A} _.

Definition Stmt (A : Type) : Type := Db -> Result A * Db.

Definition ret {A} (a : A) : Stmt A := fun db => (Ok a, db).
Definition throw {A} (e : Error) : Stmt A := fun db => (Throw e, db).
Definition bind {A B} (m : Stmt A) (k : A -> Stmt B) : Stmt B :=
  fun db =>
    match m db with
    | (Ok a, db') => k a db'
    | (Throw e, db') => (Throw e, db')
    end.

Notation "x <- m ;; k" := (bind m (fun x => k))
  (at level 100, m at next level, right associativity).
Notation "m ;;; k" := (bind m (fun _ => k))
  (at level 100, right associativity).

(** [db.transaction(fn)()]: commit when [fn] returns, roll back to the state
    at BEGIN and rethrow when it throws. *)
Definition transaction {A} (fn : Stmt A) : Stmt A :=
  fun db =>
    match fn db with
    | (Ok a, db') => (Ok a, db')
    | (Throw e, _) => (Throw e, db)
    end.

(** [for (const x of xs) body(x)]. *)
Fixpoint for_of {A} (xs : list A) (body : A -> Stmt unit) : Stmt unit :=
  match xs with
  | [] => ret tt
  | x :: xs' => body x ;;; for_of xs' body
  end.


(** ** Helpers *)

(** A field that may be null, passed to a conversion that may give null. *)
Definition and_then {A B : Type} (x : option A) (f : A -> option B) : option B :=
  match x with
  | Some a => f a
  | None => None
  end.

Definition is_digit (c : ascii) : bool :=
  let n := N_of_ascii c in ((48 <=? n) && (n <=? 57))%N.

Fixpoint all_digits (s : string) : bool :=
  match s with
  | EmptyString => true
  | String c s' => is_digit c && all_digits s'
  end.

(** ** An engine for the examples *)

Fixpoint digits_value (acc : Z) (s : string) : Z :=
  match s with
  | EmptyString => acc
  | String c s' => digits_value (10 * acc + (Z.of_N (N_of_ascii c) - 48)) s'
  end.

(** The affinity conversion on the texts of the examples: a text of one to
    eighteen digits is stored as the integer it denotes, and a text that is
    no numeric literal is kept.  The examples bind no other text. *)
Definition example_affinity (s : string) : Value :=
  if all_digits s && (0 <? Z.of_nat (String.length s)) && (Z.of_nat (String.length s) <=? 18)
  then Integer (digits_value 0 s)
  else Text s.

(** SUM as the engine computed it before version 3.44: the numbers added as
    doubles in the order of the rows, the NULLs skipped, a NaN given as
    NULL.  Later versions carry a correction term along; on the totals of
    the examples, which are exact, the two agree. *)
Definition example_sum (l : list (option number)) : option number :=
  match
    fold_left
      (fun acc v =>
         match acc, v with
         | _, None => acc
         | None, Some x => Some x
         | Some a, Some x => Some (fadd a x)
         end)
      l None
  with
  | Some S754_nan => None
  | total => total
  end.
(** ** Responses *)

Inductive Response (A : Type) :=
| Json (status : nat) (body : A)   (* res.status(s).json(body); res.json is status 200 *)
| NoContent                        (* res.status(204).send() *)
| NotFound (error : string)        (* res.status(404).json({ error }) *)
| PayloadTooLarge                  (* 413, from express.json() *)
| ServerError (e : Error).         (* res.status(500).json({ error: error.message }) *)
Arguments Json {A} _ _.
Arguments NoContent {A}.
Arguments NotFound {A} _.
Arguments PayloadTooLarge {A}.
Arguments ServerError {A} _.

(** try { ... } catch (error) { res.status(500).json(...) } *)
Definition try_catch {A B} (m : Stmt A) (k : A -> Response B) : Db -> Response B * Db :=
  fun db =>
    match m db with
    | (Ok a, db') => (k a, db')
    | (Throw e, db') => (ServerError e, db')
    end.


Inductive Success := success_true.   (* { success: true } *)

(** ** The engine *)

Definition Qlt_bool (x y : Q) : bool := negb (Qle_bool y x).

Section Engine.

(** What a column with NUMERIC affinity stores for a text bound to it: the
    text itself unless it is a numeric literal, else the integer or the real
    the engine reads from it. *)
Variable affinity : string -> Value.

(** SUM over the values of a REAL column, NULL among them: NULL when no
    value is a number. *)
Variable sql_sum : list (option number) -> option number.

(** ** The prepared statements of the handlers *)

(** INSERT INTO clients (name, email, phone, company, notes, managed_by)
    VALUES (?, ?, ?, ?, ?, ?); the result is lastInsertRowid, which the
    driver hands over as a JavaScript number. *)
Definition insert_client (now : string) (name email phone company notes managed_by : option string)
  : Stmt Z :=
  fun db =>
    match name with
    | None => (Throw NotNullConstraint, db)
    | Some n =>
        let '(i, t) :=
          insert_auto Client.id
            (fun i => Client.mk i n email phone company notes managed_by
                        (Some "active"%string) (Some (Text now)))
            (clients db) in
        (Ok (js_number i), set_clients t db)
    end.

(** The row INSERT INTO services (client_id, service_type) makes: the price
    is the column default. *)
Definition new_service (clientId : Z) (i : Z) (service_type : string) : Service.t :=
  Service.mk i (Some clientId) service_type (Some zero).

(** INSERT INTO services (client_id, service_type) VALUES (?, ?) *)
Definition insert_service (clientId : Z) (service : option string) : Stmt unit :=
  fun db =>
    match service with
    | None => (Throw NotNullConstraint, db)
    | Some s =>
        if foreign_keys db && negb (parent_ok db (Some clientId))
        then (Throw ForeignKeyConstraint, db)
        else
          let '(_, t) :=
            insert_auto Service.id (fun i => new_service clientId i s) (services db) in
          (Ok tt, set_services t db)
    end.

(** INSERT INTO payments (client_id, total_amount, advance_paid,
    remaining_balance) VALUES (?, ?, ?, ?) *)
Definition insert_payment (now : string) (clientId : Z)
    (total_amount advance_paid remaining : number) : Stmt unit :=
  fun db =>
    if foreign_keys db && negb (parent_ok db (Some clientId))
    then (Throw ForeignKeyConstraint, db)
    else
      let '(_, t) :=
        insert_auto Payment.id
          (fun i => Payment.mk i (Some clientId) (sql_real total_amount) (sql_real advance_paid)
                      (sql_real remaining) (Some (Text now)))
          (payments db) in
      (Ok tt, set_payments t db).

(** INSERT INTO transactions (client_id, amount) VALUES (?, ?); amount is
    NOT NULL. *)
Definition insert_transaction (now : string) (clientId : Z) (amount : number) : Stmt unit :=
  fun db =>
    match sql_real amount with
    | None => (Throw NotNullConstraint, db)
    | Some a =>
        if foreign_keys db && negb (parent_ok db (Some clientId))
        then (Throw ForeignKeyConstraint, db)
        else
          let '(_, t) :=
            insert_auto Transaction.id
              (fun i => Transaction.mk i (Some clientId) a (Some "payment"%string) (Some now))
              (transactions db) in
          (Ok tt, set_transactions t db)
    end.

(** UPDATE clients SET name = ?, email = ?, phone = ?, company = ?, notes = ?,
    managed_by = ? WHERE id = ? *)
Definition update_client (clientId : Z) (name email phone company notes managed_by : option string)
  : Stmt unit :=
  fun db =>
    if has_rowid Client.id clientId (rows (clients db)) then
      match name with
      | None => (Throw NotNullConstraint, db)
      | Some n =>
          (Ok tt,
           set_clients
             (update_where (fun c => Client.id c =? clientId)
                (fun c => Client.mk (Client.id c) n email phone company notes managed_by
                            (Client.status c) (Client.created_at c))
                (clients db)) db)
      end
    else (Ok tt, db).

(** DELETE FROM services WHERE client_id = ? *)
Definition delete_services_of (clientId : Z) : Stmt unit :=
  fun db =>
    (Ok tt,
     set_services (delete_where (fun s => eq_col (Service.client_id s) clientId) (services db)) db).

(** ON DELETE CASCADE: the rows of the four child tables that name a deleted
    client go with it. *)
Definition cascade (gone : list Z) (db : Db) : Db :=
  set_services (delete_where (fun r => in_col (Service.client_id r) gone) (services db))
    (set_payments (delete_where (fun r => in_col (Payment.client_id r) gone) (payments db))
       (set_tasks (delete_where (fun r => in_col (Task.client_id r) gone) (tasks db))
          (set_transactions
             (delete_where (fun r => in_col (Transaction.client_id r) gone) (transactions db))
             db))).

(** DELETE FROM clients [WHERE p] *)
Definition delete_clients (p : Client.t -> bool) : Stmt unit :=
  fun db =>
    let gone := map Client.id (filter p (rows (clients db))) in
    let db' := set_clients (delete_where p (clients db)) db in
    (Ok tt, if foreign_keys db then cascade gone db' else db').

(** SELECT total_amount, advance_paid FROM payments WHERE client_id = ?
    read with [.get]: the first row of the scan, or undefined. *)
Definition select_payment (clientId : Z) (db : Db) : option Payment.t :=
  find (fun p => eq_col (Payment.client_id p) clientId) (rows (payments db)).

(** SET advance_paid = ?, remaining_balance = ?, last_updated =
    CURRENT_TIMESTAMP on one row. *)
Definition paid (now : string) (advance_paid remaining : number) (p : Payment.t) : Payment.t :=
  Payment.mk (Payment.id p) (Payment.client_id p) (Payment.total_amount p)
    (sql_real advance_paid) (sql_real remaining) (Some (Text now)).

(** UPDATE payments SET advance_paid = ?, remaining_balance = ?,
    last_updated = CURRENT_TIMESTAMP WHERE client_id = ? *)
Definition update_payment (now : string) (advance_paid remaining : number) (clientId : Z)
  : Stmt unit :=
  fun db =>
    (Ok tt,
     set_payments
       (update_where (fun p => eq_col (Payment.client_id p) clientId)
          (paid now advance_paid remaining) (payments db)) db).

(** The statements of the restore: DELETE FROM tasks, DELETE FROM payments,
    DELETE FROM services (DELETE FROM clients is [delete_clients]), and the
    four INSERTs that name the id column. *)
Definition delete_all_tasks : Stmt unit :=
  fun db => (Ok tt, set_tasks (delete_where (fun _ => true) (tasks db)) db).
Definition delete_all_payments : Stmt unit :=
  fun db => (Ok tt, set_payments (delete_where (fun _ => true) (payments db)) db).
Definition delete_all_services : Stmt unit :=
  fun db => (Ok tt, set_services (delete_where (fun _ => true) (services db)) db).

(** INSERT INTO a table with the id column named: the id must be a rowid,
    the primary key must be free and, under enforcement, the parent key must
    exist. *)
Definition insert_row {R : Type} (rowid : R -> Z) (parent : R -> option Z)
    (get : Db -> Table R) (set : Table R -> Db -> Db) (r : R) : Stmt unit :=
  fun db =>
    if rowid_ok (rowid r) then
      match insert_with_id rowid r (get db) with
      | None => (Throw PrimaryKeyConstraint, db)
      | Some t =>
          if foreign_keys db && negb (parent_ok db (parent r))
          then (Throw ForeignKeyConstraint, db)
          else (Ok tt, set t db)
      end
    else (Throw DatatypeMismatch, db).

(** A date field of a document bound to its column: a text goes through the
    column's affinity, a number is bound as the double it is. *)
Definition store_value (v : Value) : option Value :=
  match v with
  | Integer i => if rowid_ok i then Some (Integer i) else store_number (of_Z i)
  | Real r => store_number r
  | Text s => Some (affinity s)
  end.

(** The rows of a document as the tables store them. *)
Definition stored_client (c : Client.t) : Client.t :=
  Client.mk (Client.id c) (Client.name c) (Client.email c) (Client.phone c) (Client.company c)
    (Client.notes c) (Client.managed_by c) (Client.status c)
    (and_then (Client.created_at c) store_value).

Definition stored_service (s : Service.t) : Service.t :=
  Service.mk (Service.id s) (Service.client_id s) (Service.service_type s)
    (and_then (Service.price s) sql_real).

Definition stored_payment (p : Payment.t) : Payment.t :=
  Payment.mk (Payment.id p) (Payment.client_id p)
    (and_then (Payment.total_amount p) sql_real)
    (and_then (Payment.advance_paid p) sql_real)
    (and_then (Payment.remaining_balance p) sql_real)
    (and_then (Payment.last_updated p) store_value).

Definition stored_task (k : Task.t) : Task.t :=
  Task.mk (Task.id k) (Task.client_id k) (Task.title k) (Task.assigned_to k)
    (and_then (Task.due_date k) store_value) (Task.status k)
    (and_then (Task.created_at k) store_value).

(** INSERT INTO clients (id, name, email, phone, company, notes, managed_by,
    status, created_at) VALUES (?, ?, ?, ?, ?, ?, ?, ?, ?) *)
Definition restore_client (c : Client.t) : Stmt unit :=
  insert_row Client.id (fun _ => None) clients set_clients (stored_client c).

(** INSERT INTO services (id, client_id, service_type, price) VALUES (?, ?, ?, ?) *)
Definition restore_service (s : Service.t) : Stmt unit :=
  insert_row Service.id Service.client_id services set_services (stored_service s).

(** INSERT INTO payments (id, client_id, total_amount, advance_paid,
    remaining_balance, last_updated) VALUES (?, ?, ?, ?, ?, ?) *)
Definition restore_payment (p : Payment.t) : Stmt unit :=
  insert_row Payment.id Payment.client_id payments set_payments (stored_payment p).

(** INSERT INTO tasks (id, client_id, title, assigned_to, due_date, status,
    created_at) VALUES (?, ?, ?, ?, ?, ?, ?) *)
Definition restore_task (k : Task.t) : Stmt unit :=
  insert_row Task.id Task.client_id tasks set_tasks (stored_task k).

(** ** POST /api/clients (lines 226-255) *)

Definition insertClient (now : string) (b : PostClients.body) : Stmt Z :=
  transaction
    (clientId <- insert_client now (PostClients.name b) (PostClients.email b)
                   (PostClients.phone b) (PostClients.company b) (PostClients.notes b)
                   (PostClients.managed_by b) ;;
     (match PostClients.services b with
      | Some services => for_of services (insert_service clientId)
      | None => throw TypeError          (* services is not iterable *)
      end) ;;;
     (let remaining := fsub (PostClients.total_amount b) (PostClients.advance_paid b) in
      insert_payment now clientId (PostClients.total_amount b) (PostClients.advance_paid b)
        remaining) ;;;
     ret clientId).

Definition post_api_clients (now : string) (b : PostClients.body) : Db -> Response Z * Db :=
  try_catch (insertClient now b) (fun id => Json 201 id).

(** ** DELETE /api/clients/:id (lines 257-260) *)

(** The handler has no try of its own; Express answers 500 to a throw, which
    this statement never does. *)
Definition delete_api_clients (id : Z) : Db -> Response unit * Db :=
  try_catch (delete_clients (fun c => Client.id c =? id)) (fun _ => NoContent).

(** ** PATCH /api/clients/:id (lines 262-286) *)

Definition updateClient (clientId : Z) (b : PatchClients.body) : Stmt unit :=
  transaction
    (update_client clientId (PatchClients.name b) (PatchClients.email b) (PatchClients.phone b)
       (PatchClients.company b) (PatchClients.notes b) (PatchClients.managed_by b) ;;;
     match PatchClients.services b with
     | Some services =>
         delete_services_of clientId ;;;
         for_of services (insert_service clientId)
     | None => ret tt
     end).

Definition patch_api_clients (clientId : Z) (b : PatchClients.body) : Db -> Response Success * Db :=
  try_catch (updateClient clientId b) (fun _ => Json 200 success_true).

(** ** PATCH /api/payments/:clientId (lines 288-314) *)

Definition updatePayment (now : string) (clientId : Z) (payment : Payment.t)
    (b : PatchPayments.body) : Stmt unit :=
  transaction
    (let remaining :=
       fsub (to_number (Payment.total_amount payment)) (PatchPayments.advance_paid b) in
     update_payment now (PatchPayments.advance_paid b) remaining clientId ;;;
     match PatchPayments.amount_added b with
     | Some amount_added =>
         if truthy amount_added && above_zero amount_added
         then insert_transaction now clientId amount_added
         else ret tt
     | None => ret tt
     end).

Definition patch_api_payments (now : string) (clientId : Z) (b : PatchPayments.body)
  : Db -> Response Success * Db :=
  fun db =>
    match select_payment clientId db with
    | None => (NotFound "Payment record not found", db)
    | Some payment =>
        try_catch (updatePayment now clientId payment b) (fun _ => Json 200 success_true) db
    end.

(** ** Ordering of result rows *)

(** The order SQLite gives a nullable text column: NULL before every text,
    text by the BINARY collation. *)
Definition compare_text (a b : option string) : comparison :=
  match a, b with
  | None, None => Eq
  | None, Some _ => Lt
  | Some _, None => Gt
  | Some x, Some y => String.compare x y
  end.

(** Where a number stands among the numbers: the infinities at the two ends,
    every other number by its value. *)
Definition position (v : Value) : Z * Q :=
  match v with
  | Integer i => (0, inject_Z i)
  | Real (S754_infinity s) => (if s then -1 else 1, 0%Q)
  | Real r => (0, to_Q r)
  | Text _ => (0, 0%Q)
  end.

Definition compare_number (x y : Value) : comparison :=
  match fst (position x) ?= fst (position y) with
  | Eq => (snd (position x) ?= snd (position y))%Q
  | c => c
  end.

(** The order SQLite gives the values of a column: NULL first, then the
    integers and reals by value, then the texts by the BINARY collation. *)
Definition compare_value (a b : option Value) : comparison :=
  match a, b with
  | None, None => Eq
  | None, Some _ => Lt
  | Some _, None => Gt
  | Some (Text s), Some (Text t) => String.compare s t
  | Some (Text _), Some _ => Gt
  | Some _, Some (Text _) => Lt
  | Some x, Some y => compare_number x y
  end.

Section OrderBy.
Context {R : Type}.
Variable before : R -> R -> bool.

Fixpoint insert_by (x : R) (l : list R) : list R :=
  match l with
  | [] => [x]
  | y :: l' => if before x y then x :: l else y :: insert_by x l'
  end.

(** ORDER BY: the rows sorted by [before]; rows that tie keep the order of
    the scan (which order SQLite gives rows that tie is not specified). *)
Definition order_by (l : list R) : list R := fold_right insert_by [] l.
End OrderBy.

(** ** POST /api/tasks (lines 195-205) *)

(** INSERT INTO tasks (client_id, title, assigned_to, due_date)
    VALUES (?, ?, ?, ?); due_date is a text bound to a DATE column. *)
Definition insert_task (now : string) (b : PostTasks.body) : Stmt Z :=
  fun db =>
    match PostTasks.title b with
    | None => (Throw NotNullConstraint, db)
    | Some title =>
        if foreign_keys db && negb (parent_ok db (PostTasks.client_id b))
        then (Throw ForeignKeyConstraint, db)
        else
          let '(i, t) :=
            insert_auto Task.id
              (fun i => Task.mk i (PostTasks.client_id b) title (PostTasks.assigned_to b)
                          (option_map affinity (PostTasks.due_date b))
                          (Some "pending"%string) (Some (Text now)))
              (tasks db) in
          (Ok (js_number i), set_tasks t db)
    end.

Definition post_api_tasks (now : string) (b : PostTasks.body) : Db -> Response Z * Db :=
  try_catch (insert_task now b) (fun id => Json 201 id).

(** ** PATCH /api/tasks/:id and DELETE /api/tasks/:id (lines 207-224) *)

(** UPDATE tasks SET status = ? WHERE id = ? *)
Definition update_task_status (status : option string) (id : Z) : Stmt unit :=
  fun db =>
    (Ok tt,
     set_tasks
       (update_where (fun k => Task.id k =? id)
          (fun k => Task.mk (Task.id k) (Task.client_id k) (Task.title k) (Task.assigned_to k)
                      (Task.due_date k) status (Task.created_at k))
          (tasks db)) db).

Definition patch_api_tasks (id : Z) (status : option string) : Db -> Response Success * Db :=
  try_catch (update_task_status status id) (fun _ => Json 200 success_true).

(** DELETE FROM tasks WHERE id = ? *)
Definition delete_task (id : Z) : Stmt unit :=
  fun db => (Ok tt, set_tasks (delete_where (fun k => Task.id k =? id) (tasks db)) db).

Definition delete_api_tasks (id : Z) : Db -> Response unit * Db :=
  try_catch (delete_task id) (fun _ => NoContent).

(** ** GET /api/tasks (lines 175-193) *)

(** FROM tasks t JOIN clients c ON t.client_id = c.id *)
Definition join_clients (db : Db) (ts : list Task.t) : list TaskRow.t :=
  flat_map
    (fun k =>
       map (fun c => TaskRow.mk k (Client.name c))
         (filter (fun c => eq_col (Task.client_id k) (Client.id c)) (rows (clients db))))
    ts.

(** ORDER BY t.due_date ASC, t.created_at DESC *)
Definition tasks_order (a b : TaskRow.t) : bool :=
  match compare_value (Task.due_date (TaskRow.task a)) (Task.due_date (TaskRow.task b)) with
  | Lt => true
  | Gt => false
  | Eq =>
      match compare_value (Task.created_at (TaskRow.task b)) (Task.created_at (TaskRow.task a)) with
      | Gt => false
      | _ => true
      end
  end.

Definition get_api_tasks (clientId : option Z) (db : Db) : list TaskRow.t :=
  let joined := join_clients db (rows (tasks db)) in
  let selected :=
    match clientId with
    | Some c => filter (fun r => eq_col (Task.client_id (TaskRow.task r)) c) joined
    | None => joined
    end in
  order_by tasks_order selected.

(** ** GET /api/clients (lines 157-172) *)

(** GROUP_CONCAT(x): NULL over no rows, else the values joined by commas. *)
Definition group_concat (l : list string) : option string :=
  match l with
  | [] => None
  | _ => Some (String.concat "," l)
  end.

(** String.prototype.split(','). *)
Fixpoint split_comma (s : string) : list string :=
  match s with
  | EmptyString => [EmptyString]
  | String c s' =>
      if (c =? ",")%char then EmptyString :: split_comma s'
      else
        match split_comma s' with
        | [] => [String c EmptyString]
        | w :: ws => String c w :: ws
        end
  end.

(** c.services ? c.services.split(',') : [] *)
Definition services_field (services : option string) : list string :=
  match services with
  | None => []
  | Some EmptyString => []
  | Some s => split_comma s
  end.

(** FROM clients c LEFT JOIN payments p ON c.id = p.client_id *)
Definition left_join_payments (db : Db) (cs : list Client.t) : list (Client.t * option Payment.t) :=
  flat_map
    (fun c =>
       match filter (fun p => eq_col (Payment.client_id p) (Client.id c)) (rows (payments db)) with
       | [] => [(c, None)]
       | ps => map (fun p => (c, Some p)) ps
       end)
    cs.

Definition service_types_of (db : Db) (clientId : Z) : list string :=
  map Service.service_type
    (filter (fun s => eq_col (Service.client_id s) clientId) (rows (services db))).

Definition pending_tasks_of (db : Db) (clientId : Z) : Z :=
  Z.of_nat
    (List.length
       (filter
          (fun k =>
             eq_col (Task.client_id k) clientId
             && match Task.status k with
                | Some s => (s =? "pending")%string
                | None => false
                end)
          (rows (tasks db)))).

Definition payment_column (f : Payment.t -> option number) (p : option Payment.t)
  : option number :=
  match p with
  | Some r => f r
  | None => None
  end.

(** ORDER BY c.created_at DESC *)
Definition clients_order (a b : Client.t * option Payment.t) : bool :=
  match compare_value (Client.created_at (fst b)) (Client.created_at (fst a)) with
  | Gt => false
  | _ => true
  end.

Definition get_api_clients (db : Db) : list ClientRow.t :=
  map
    (fun cp =>
       let c := fst cp in
       ClientRow.mk c
         (services_field (group_concat (service_types_of db (Client.id c))))
         (payment_column Payment.total_amount (snd cp))
         (payment_column Payment.advance_paid (snd cp))
         (payment_column Payment.remaining_balance (snd cp))
         (pending_tasks_of db (Client.id c)))
    (order_by clients_order (left_join_payments db (rows (clients db)))).

(** ** GET /api/backup and POST /api/restore (lines 330-391) *)

(** A value of a date column in the document: the driver reads an integer
    as a JavaScript number, and JSON has no infinity. *)
Definition json_value (v : Value) : option Value :=
  match v with
  | Integer i => Some (Integer (js_number i))
  | Real r => option_map Real (json_number r)
  | Text s => Some (Text s)
  end.

(** The rows of SELECT * as res.json writes them. *)
Definition json_client (c : Client.t) : Client.t :=
  Client.mk (js_number (Client.id c)) (Client.name c) (Client.email c) (Client.phone c)
    (Client.company c) (Client.notes c) (Client.managed_by c) (Client.status c)
    (and_then (Client.created_at c) json_value).

Definition json_service (s : Service.t) : Service.t :=
  Service.mk (js_number (Service.id s)) (option_map js_number (Service.client_id s))
    (Service.service_type s) (and_then (Service.price s) json_number).

Definition json_payment (p : Payment.t) : Payment.t :=
  Payment.mk (js_number (Payment.id p)) (option_map js_number (Payment.client_id p))
    (and_then (Payment.total_amount p) json_number)
    (and_then (Payment.advance_paid p) json_number)
    (and_then (Payment.remaining_balance p) json_number)
    (and_then (Payment.last_updated p) json_value).

Definition json_task (k : Task.t) : Task.t :=
  Task.mk (js_number (Task.id k)) (option_map js_number (Task.client_id k)) (Task.title k)
    (Task.assigned_to k) (and_then (Task.due_date k) json_value) (Task.status k)
    (and_then (Task.created_at k) json_value).

(** [timestamp] is new Date().toISOString(), read from the clock. *)
Definition get_api_backup (timestamp : string) (db : Db) : Response Backup.t :=
  Json 200
    (Backup.mk (map json_client (rows (clients db))) (map json_service (rows (services db)))
       (map json_payment (rows (payments db))) (map json_task (rows (tasks db)))
       timestamp "1.0").

Definition restore (b : Backup.t) : Stmt unit :=
  transaction
    (delete_all_tasks ;;;
     delete_all_payments ;;;
     delete_all_services ;;;
     delete_clients (fun _ => true) ;;;
     for_of (Backup.clients b) restore_client ;;;
     for_of (Backup.services b) restore_service ;;;
     for_of (Backup.payments b) restore_payment ;;;
     for_of (Backup.tasks b) restore_task).

Definition post_api_restore (b : Backup.t) : Db -> Response Success * Db :=
  try_catch (restore b) (fun _ => Json 200 success_true).

(** ** Printing numbers: Number.prototype.toFixed(1) *)

Definition decimal (n : Z) : string :=
  DecimalString.NilZero.string_of_uint (N.to_uint (Z.to_N n)).

(** The integer n for which n / 10 is nearest to x (x >= 0), the larger one
    of two that are equally near. *)
Definition tenths (x : Q) : Z := Qfloor (x * 10 + (1 # 2))%Q.

(** Round to the nearest integer, a tie to the even one (q >= 0). *)
Definition round_half_even (q : Q) : Z :=
  let f := Qfloor q in
  match ((q - inject_Z f) ?= (1 # 2))%Q with
  | Lt => f
  | Gt => f + 1
  | Eq => if Z.even f then f else f + 1
  end.

(** The double nearest to x, for x >= 2^53: its 53-bit significand m and its
    exponent e, the value being m * 2^e. *)
Definition to_double (x : Q) : Z * Z :=
  let e := Z.log2 (Qfloor x) - 52 in
  let m := round_half_even (x / inject_Z (2 ^ e))%Q in
  if m =? 2 ^ 53 then (2 ^ 52, e + 1) else (m, e).

(** The integer y is read back as the double m * 2^e (e >= 1): it lies within
    half a gap of it, the end points counting when m is even. *)
Definition reads_as (m e y : Z) : bool :=
  let v2 := 2 * (m * 2 ^ e) in
  let below := if m =? 2 ^ 52 then 2 ^ (e - 1) else 2 ^ e in
  let above := 2 ^ e in
  if Z.even m
  then (v2 - below <=? 2 * y) && (2 * y <=? v2 + above)
  else (v2 - below <? 2 * y) && (2 * y <? v2 + above).

Definition num_digits (v : Z) : Z := Z.of_nat (String.length (decimal v)).

(** The integer with the fewest significant digits that is read back as
    m * 2^e, the nearest one among those with that many digits. *)
Fixpoint shortest (fuel : nat) (k m e : Z) : Z :=
  let v := m * 2 ^ e in
  match fuel with
  | O => v
  | S fuel' =>
      let p := 10 ^ (num_digits v - k) in
      let lo := v / p * p in
      let hi := lo + p in
      match reads_as m e lo, reads_as m e hi with
      | true, true => if v - lo <=? hi - v then lo else hi
      | true, false => lo
      | false, true => hi
      | false, false => shortest fuel' (k + 1) m e
      end
  end.

Fixpoint strip_zeros (fuel : nat) (y : Z) : Z :=
  match fuel with
  | O => y
  | S fuel' => if (y mod 10 =? 0) && negb (y =? 0) then strip_zeros fuel' (y / 10) else y
  end.

(** Number::toString of the double nearest to x, for x >= 10^21: the
    exponent form, one digit before the point when there are several. *)
Definition toString_large (x : Q) : string :=
  let '(m, e) := to_double x in
  let y := shortest 17 1 m e in
  let n := num_digits y in
  let s := decimal (strip_zeros (Z.to_nat n) y) in
  match s with
  | String d EmptyString => (s ++ "e+" ++ decimal (n - 1))%string
  | String d ds => (String d "." ++ ds ++ "e+" ++ decimal (n - 1))%string
  | EmptyString => s
  end.

(** The digits of toFixed(1) for a finite value x: "Let n be an integer for
    which n / 10 - x is as close to zero as possible; if there are two such
    n, pick the larger n", after the sign; from 10^21 on, Number::toString. *)
Definition fixed1 (x : Q) : string :=
  let s := if Qlt_bool x 0 then "-"%string else ""%string in
  let x := Qabs x in
  if Qle_bool (inject_Z (10 ^ 21)) x then (s ++ toString_large x)%string
  else
    let n := tenths x in
    (s ++ decimal (n / 10) ++ "." ++ decimal (n mod 10))%string.

(** Number.prototype.toFixed(1). *)
Definition toFixed1 (x : number) : string :=
  match x with
  | S754_nan => "NaN"
  | S754_infinity s => if s then "-Infinity" else "Infinity"
  | _ => fixed1 (to_Q x)
  end.

(** ** GET /api/stats (lines 104-155) *)

Definition calculateTrend (current prev : number) : string :=
  if negb (truthy prev) || SFeqb prev zero then "+100%"%string
  else
    let diff := fmul (fdiv (fsub current prev) prev) (of_Z 100) in
    ((if not_negative diff then "+" else "") ++ toFixed1 diff ++ "%")%string.

(** [x || 0] on a number or null. *)
Definition or_zero (x : option number) : number :=
  match x with
  | Some q => if truthy q then q else zero
  | None => zero
  end.

(** [c.created_at < ?], the parameter being a text that is no numeric
    literal: NULL is never less, a number is less than every text. *)
Definition created_before (bound : string) (c : Client.t) : bool :=
  match Client.created_at c with
  | Some (Text s) => (s <? bound)%string
  | Some _ => true
  | None => false
  end.

Definition sum_column (f : Payment.t -> option number)
    (j : list (Client.t * option Payment.t)) : option number :=
  sql_sum (map (fun cp => payment_column f (snd cp)) j).

Definition currentStats (db : Db) : CurrentStats.t :=
  let j := left_join_payments db (rows (clients db)) in
  CurrentStats.mk
    (sum_column Payment.total_amount j)
    (sum_column Payment.advance_paid j)
    (sum_column Payment.remaining_balance j)
    (Z.of_nat (List.length j)).

(** ... WHERE c.created_at < ?, bound to firstDayCurrentMonth. *)
Definition prevMonthStats (firstDayCurrentMonth : string) (db : Db) : PrevMonthStats.t :=
  let j :=
    left_join_payments db (filter (created_before firstDayCurrentMonth) (rows (clients db))) in
  PrevMonthStats.mk
    (sum_column Payment.total_amount j)
    (sum_column Payment.advance_paid j).

(** [firstDayCurrentMonth] is computed from the clock:
    new Date(now.getFullYear(), now.getMonth(), 1).toISOString(). *)
Definition get_api_stats (firstDayCurrentMonth : string) (db : Db) : Response Stats.t :=
  let cur := currentStats db in
  let prev := prevMonthStats firstDayCurrentMonth db in
  Json 200
    (Stats.mk
       (or_zero (CurrentStats.total_revenue cur))
       (calculateTrend (or_zero (CurrentStats.total_revenue cur))
          (or_zero (PrevMonthStats.total_revenue prev)))
       (or_zero (CurrentStats.total_received cur))
       (calculateTrend (or_zero (CurrentStats.total_received cur))
          (or_zero (PrevMonthStats.total_received prev)))
       (or_zero (CurrentStats.total_pending cur))
       (CurrentStats.total_clients cur)).

(** ** Vocabulary of the statements *)

(** Commas in a string, and in a list of strings. *)
Fixpoint count_commas (s : string) : nat :=
  match s with
  | EmptyString => O
  | String c s' => ((if (c =? ",")%char then 1 else 0) + count_commas s')%nat
  end.

Definition commas_in (l : list string) : nat :=
  fold_right (fun s n => (count_commas s + n)%nat) O l.




(** The significand of a finite number at the exponent [e], with its sign:
    the number is [scaled x e * 2^e] when [e] is at most its exponent. *)
Definition scaled (x : number) (e : Z) : Z :=
  match x with
  | S754_finite s m ex => cond_Zopp s (Zpos m * 2 ^ (ex - e))
  | _ => 0
  end.

(** Every child row names an existing client or none: what the engine keeps
    true while it enforces the foreign keys. *)
Definition references_ok (db : Db) : Prop :=
  Forall (fun r => parent_ok db (Service.client_id r) = true) (rows (services db)) /\
  Forall (fun r => parent_ok db (Payment.client_id r) = true) (rows (payments db)) /\
  Forall (fun r => parent_ok db (Task.client_id r) = true) (rows (tasks db)) /\
  Forall (fun r => parent_ok db (Transaction.client_id r) = true) (rows (transactions db)).

Definition referential_integrity (db : Db) : Prop :=
  foreign_keys db = true -> references_ok db.

(** The writes of a PATCH /api/payments/:clientId that commits, T being the
    total_amount of the row the lookup found: every payment row of the
    client gets the new advance_paid, the balance T - advance_paid and the
    time; one ledger row is appended for a strictly above_zero amount_added
    and none otherwise; the other tables are as they were. *)
Definition payment_patched (now : string) (cid : Z) (T : number) (b : PatchPayments.body)
    (db db' : Db) : Prop :=
  let A := PatchPayments.advance_paid b in
  rows (payments db') =
    map (fun p => if eq_col (Payment.client_id p) cid then paid now A (fsub T A) p else p)
      (rows (payments db)) /\
  (forall a, PatchPayments.amount_added b = Some a -> above_zero a = true ->
     rows (transactions db') =
       rows (transactions db) ++
       [Transaction.mk (next_rowid Transaction.id (transactions db)) (Some cid) a
          (Some "payment"%string) (Some now)]) /\
  ((forall a, PatchPayments.amount_added b = Some a -> above_zero a = false) ->
     rows (transactions db') = rows (transactions db)) /\
  clients db' = clients db /\
  services db' = services db /\
  tasks db' = tasks db.

(** Rows built from a list of values, with consecutive ids from [first]. *)
Fixpoint numbered {R : Type} (mk : Z -> string -> R) (first : Z) (l : list string) : list R :=
  match l with
  | [] => []
  | s :: l' => mk first s :: numbered mk (first + 1) l'
  end.

(** The writes of a POST /api/clients that commits: one client row with the
    next id, one service row per requested type in the order given, one
    payment row with the balance total_amount - advance_paid. *)
Definition client_created (now : string) (b : PostClients.body) (name : string)
    (types : list string) (id : Z) (db db' : Db) : Prop :=
  let T := PostClients.total_amount b in
  let A := PostClients.advance_paid b in
  id = next_rowid Client.id (clients db) /\
  rows (clients db') =
    rows (clients db) ++
    [Client.mk id name (PostClients.email b) (PostClients.phone b) (PostClients.company b)
       (PostClients.notes b) (PostClients.managed_by b) (Some "active"%string)
       (Some (Text now))] /\
  rows (services db') =
    rows (services db) ++
    numbered (new_service id) (next_rowid Service.id (services db)) types /\
  rows (payments db') =
    rows (payments db) ++
    [Payment.mk (next_rowid Payment.id (payments db)) (Some id) (sql_real T) (sql_real A)
       (sql_real (fsub T A)) (Some (Text now))] /\
  tasks db' = tasks db /\
  transactions db' = transactions db.

Definition payments_of (db : Db) (clientId : Z) : list Payment.t :=
  filter (fun p => eq_col (Payment.client_id p) clientId) (rows (payments db)).

(** Rows in strictly increasing rowid order: how the engine keeps a table. *)
Definition increasing {R : Type} (rowid : R -> Z) (l : list R) : Prop :=
  StronglySorted (fun a b => rowid a < rowid b) l.

Definition well_formed (db : Db) : Prop :=
  increasing Client.id (rows (clients db)) /\
  increasing Service.id (rows (services db)) /\
  increasing Payment.id (rows (payments db)) /\
  increasing Task.id (rows (tasks db)) /\
  referential_integrity db.

(** The ledger after DELETE FROM clients: under enforcement the rows that
    name a client are gone. *)
Definition ledger_after_restore (db : Db) : list Transaction.t :=
  if foreign_keys db
  then filter
         (fun r => negb (in_col (Transaction.client_id r) (map Client.id (rows (clients db)))))
         (rows (transactions db))
  else rows (transactions db).

(** The database after the four DELETEs of the restore: the four primary
    tables empty, their counters kept. *)
Definition cleared (db : Db) : Db :=
  mkDb (foreign_keys db)
    (mkTable [] (seq (clients db)))
    (mkTable [] (seq (services db)))
    (mkTable [] (seq (payments db)))
    (mkTable [] (seq (tasks db)))
    (mkTable (ledger_after_restore db) (seq (transactions db))).

(** The order of the values of a column in words.  A NULL comes before
    every value, a number before every text; numbers come by value, the
    infinities at the ends, and texts byte by byte. *)
Definition value_lt (a b : option Value) : Prop :=
  match a, b with
  | _, None => False
  | None, Some _ => True
  | Some (Text s), Some (Text t) => (s <? t)%string = true
  | Some (Text _), Some _ => False
  | Some _, Some (Text _) => True
  | Some x, Some y =>
      fst (position x) < fst (position y) \/
      (fst (position x) = fst (position y) /\ (snd (position x) < snd (position y))%Q)
  end.

(** Two values that the order does not tell apart: two NULLs, the same
    text, or two numbers of the same value. *)
Definition value_same (a b : option Value) : Prop :=
  match a, b with
  | None, None => True
  | Some (Text s), Some (Text t) => s = t
  | Some (Text _), _ | _, Some (Text _) => False
  | Some x, Some y =>
      fst (position x) = fst (position y) /\ (snd (position x) == snd (position y))%Q
  | _, _ => False
  end.

Definition value_le (a b : option Value) : Prop := value_lt a b \/ value_same a b.

(** The order of the task list in words: the rows come by due date in the
    order of the values, so a row with a NULL due date comes before every
    row with one; rows whose due dates the order does not tell apart come by
    creation time, the later first and a NULL creation time last. *)
Definition created_not_before (a b : Task.t) : Prop :=
  value_le (Task.created_at b) (Task.created_at a).

Definition due_order (a b : TaskRow.t) : Prop :=
  value_lt (Task.due_date (TaskRow.task a)) (Task.due_date (TaskRow.task b)) \/
  (value_same (Task.due_date (TaskRow.task a)) (Task.due_date (TaskRow.task b)) /\
   created_not_before (TaskRow.task a) (TaskRow.task b)).

(** The order as C8 words it, with the NULL due dates last. *)
Definition due_order_nulls_last (a b : TaskRow.t) : Prop :=
  match Task.due_date (TaskRow.task a), Task.due_date (TaskRow.task b) with
  | Some _, None => True
  | None, Some _ => False
  | _, _ => due_order a b
  end.

(** ** The server as a transition system *)

(** The requests that write; the GET handlers leave the state alone. *)
Inductive Request :=
| PostClients (now : string) (b : PostClients.body)
| DeleteClients (id : Z)
| PatchClients (id : Z) (b : PatchClients.body)
| PatchPayments (now : string) (clientId : Z) (b : PatchPayments.body)
| PostTasks (now : string) (b : PostTasks.body)
| PatchTasks (id : Z) (status : option string)
| DeleteTasks (id : Z)
| PostRestore (b : Backup.t).

Definition handle (r : Request) (db : Db) : Db :=
  match r with
  | PostClients now b => snd (post_api_clients now b db)
  | DeleteClients id => snd (delete_api_clients id db)
  | PatchClients id b => snd (patch_api_clients id b db)
  | PatchPayments now clientId b => snd (patch_api_payments now clientId b db)
  | PostTasks now b => snd (post_api_tasks now b db)
  | PatchTasks id status => snd (patch_api_tasks id status db)
  | DeleteTasks id => snd (delete_api_tasks id db)
  | PostRestore b => snd (post_api_restore b db)
  end.

Inductive reachable : Db -> Prop :=
| reachable_new : reachable new_database
| reachable_step (r : Request) (db : Db) : reachable db -> reachable (handle r db).

(** What the engine keeps true of the file: the pragma is on, every table
    is in rowid order, every child row names an existing client or none. *)
Definition consistent (db : Db) : Prop :=
  foreign_keys db = true /\
  increasing Client.id (rows (clients db)) /\
  increasing Service.id (rows (services db)) /\
  increasing Payment.id (rows (payments db)) /\
  increasing Task.id (rows (tasks db)) /\
  increasing Transaction.id (rows (transactions db)) /\
  references_ok db.

(** A statement keeps a property of the state, however it ends. *)
Definition preserves {A : Type} (P : Db -> Prop) (m : Stmt A) : Prop :=
  forall db, P db -> P (snd (m db)).

(** ** GET /api/health (lines 90-102) *)

(** [node_env] is process.env.NODE_ENV; [x || 'development'] takes the
    default for an unset or empty variable. *)
Definition get_api_health (node_env : option string) (db : Db) : Response Health.t :=
  Json 200
    (Health.mk "ok" "connected" (Z.of_nat (List.length (rows (clients db))))
       match node_env with
       | Some EmptyString => "development"
       | Some e => e
       | None => "development"
       end).

(** ** GET /api/transactions (lines 316-328) *)

(** FROM transactions t JOIN clients c ON t.client_id = c.id *)
Definition join_ledger (db : Db) (xs : list Transaction.t) : list TransactionRow.t :=
  flat_map
    (fun x =>
       map (fun c => TransactionRow.mk x (Client.name c) (Client.company c))
         (filter (fun c => eq_col (Transaction.client_id x) (Client.id c)) (rows (clients db))))
    xs.

(** ORDER BY t.created_at DESC *)
Definition ledger_order (a b : TransactionRow.t) : bool :=
  match compare_text (Transaction.created_at (TransactionRow.transaction b))
          (Transaction.created_at (TransactionRow.transaction a)) with
  | Gt => false
  | _ => true
  end.

Definition get_api_transactions (db : Db) : Response (list TransactionRow.t) :=
  Json 200 (order_by ledger_order (join_ledger db (rows (transactions db)))).

(** The client a task or a ledger row names exists. *)
Definition names_client (db : Db) (c : option Z) : bool :=
  match c with
  | Some x => has_rowid Client.id x (rows (clients db))
  | None => false
  end.

(** Creation times newest first, the NULL ones last: the order of
    [ORDER BY created_at DESC]. *)
Definition not_before (a b : option string) : Prop :=
  match a, b with
  | _, None => True
  | None, Some _ => False
  | Some x, Some y => (y <=? x)%string = true
  end.

(** How often GET /api/clients lists a client: once for each payment row
    that names it, once when none does. *)
Definition listed_times (db : Db) (c : Client.t) : nat :=
  Nat.max 1 (List.length (payments_of db (Client.id c))).

(** The test of an [ORDER BY created DESC]: a goes before b. *)
Definition newest_first {R : Type} (created : R -> option string) (a b : R) : bool :=
  match compare_text (created b) (created a) with
  | Gt => false
  | _ => true
  end.

(** The same test on a column that holds values. *)
Definition newest_value_first {R : Type} (created : R -> option Value) (a b : R) : bool :=
  match compare_value (created b) (created a) with
  | Gt => false
  | _ => true
  end.

(** The test of the pending_tasks subquery:
    client_id = c.id AND status = 'pending'. *)
Definition is_pending_of (clientId : Z) (k : Task.t) : bool :=
  eq_col (Task.client_id k) clientId
  && match Task.status k with
     | Some s => (s =? "pending")%string
     | None => false
     end.

Definition first_char (s : string) : option ascii :=
  match s with
  | String c _ => Some c
  | EmptyString => None
  end.

(** The AUTOINCREMENT counter of the clients table has reached [n] and
    every id in the table. *)
Definition counter_from (n : Z) (db : Db) : Prop :=
  n <= seq (clients db) /\
  Forall (fun c => Client.id c <= seq (clients db)) (rows (clients db)).

(** The state after a list of requests, the first one first. *)
Definition run (rs : list Request) (db : Db) : Db :=
  fold_left (fun d r => handle r d) rs db.

(** What POST /api/restore needs of a snapshot: ids that are rowids and
    distinct within each table and, when the foreign keys are enforced,
    child rows that name a client of the snapshot or none. *)
Definition in_snapshot (b : Backup.t) (c : option Z) : Prop :=
  match c with
  | Some x => In x (map Client.id (Backup.clients b))
  | None => True
  end.

Definition ids_ok (ids : list Z) : Prop :=
  Forall (fun i => rowid_ok i = true) ids /\ NoDup ids.

Definition snapshot_ok (enforced : bool) (b : Backup.t) : Prop :=
  ids_ok (map Client.id (Backup.clients b)) /\
  ids_ok (map Service.id (Backup.services b)) /\
  ids_ok (map Payment.id (Backup.payments b)) /\
  ids_ok (map Task.id (Backup.tasks b)) /\
  (enforced = true ->
   Forall (fun r => in_snapshot b (Service.client_id r)) (Backup.services b) /\
   Forall (fun r => in_snapshot b (Payment.client_id r)) (Backup.payments b) /\
   Forall (fun r => in_snapshot b (Task.client_id r)) (Backup.tasks b)).

(** The rows of a document as the four INSERTs of the restore store them. *)
Definition stored_backup (b : Backup.t) : Backup.t :=
  Backup.mk (map stored_client (Backup.clients b)) (map stored_service (Backup.services b))
    (map stored_payment (Backup.payments b)) (map stored_task (Backup.tasks b))
    (Backup.timestamp b) (Backup.version b).

(** The rows of a list can all be inserted under their ids: the ids are
    rowids, distinct and not in the table, and every row passes the
    foreign-key check. *)
Definition insertable {R : Type} (rowid : R -> Z) (parent : R -> option Z)
    (get : Db -> Table R) (l : list R) (db : Db) : Prop :=
  ids_ok (map rowid l) /\
  (forall r, In r l -> has_rowid rowid (rowid r) (rows (get db)) = false) /\
  (forall r, In r l -> foreign_keys db && negb (parent_ok db (parent r)) = false).







(** * Properties *)

(** ** Strings: GROUP_CONCAT and split *)

Lemma split_comma_not_nil (s : string) : split_comma s <> [].
Proof.
  destruct s as [|c s]; simpl; [discriminate|].
  destruct (c =? ",")%char; [discriminate|].
  destruct (split_comma s); discriminate.
Qed.

Lemma split_comma_length (s : string) :
  List.length (split_comma s) = S (count_commas s).
Proof.
  induction s as [|c s IH]; simpl; [reflexivity|].
  destruct (c =? ",")%char; simpl.
  - now rewrite IH.
  - destruct (split_comma s) eqn:E; simpl in *; [discriminate IH | exact IH].
Qed.

Lemma count_commas_app (s t : string) :
  count_commas (s ++ t) = (count_commas s + count_commas t)%nat.
Proof.
  induction s as [|c s IH]; simpl; [reflexivity|].
  rewrite IH. lia.
Qed.

Lemma count_commas_concat (x : string) (l : list string) :
  count_commas (String.concat "," (x :: l)) = (List.length l + commas_in (x :: l))%nat.
Proof.
  revert x. induction l as [|y l IH]; intros x.
  - simpl. lia.
  - change (String.concat "," (x :: y :: l))
      with (x ++ "," ++ String.concat "," (y :: l))%string.
    rewrite !count_commas_app, IH.
    change (count_commas ",") with 1%nat.
    cbn [commas_in fold_right List.length]. lia.
Qed.

Lemma concat_empty (x : string) (l : list string) :
  String.concat "," (x :: l) = EmptyString -> x = EmptyString /\ l = [].
Proof.
  destruct l as [|y l]; simpl.
  - auto.
  - destruct x; simpl; discriminate.
Qed.

Lemma services_field_nil (l : list string) :
  services_field (group_concat l) = [] <-> l = [] \/ l = [EmptyString].
Proof.
  destruct l as [|x l].
  - split; auto.
  - change (group_concat (x :: l)) with (Some (String.concat "," (x :: l))).
    unfold services_field. split.
    + intros H. right.
      destruct (String.concat "," (x :: l)) eqn:E.
      * apply concat_empty in E. destruct E; subst; reflexivity.
      * exfalso. revert H. apply split_comma_not_nil.
    + intros [H|H]; [discriminate|]. now inversion H.
Qed.

Lemma services_field_length (l : list string) :
  l <> [EmptyString] ->
  List.length (services_field (group_concat l)) = (List.length l + commas_in l)%nat.
Proof.
  intros Hne. destruct l as [|x l]; [reflexivity|].
  change (group_concat (x :: l)) with (Some (String.concat "," (x :: l))).
  unfold services_field.
  destruct (String.concat "," (x :: l)) eqn:E.
  - apply concat_empty in E. destruct E; subst. now elim Hne.
  - rewrite <- E, split_comma_length, count_commas_concat.
    cbn [List.length]. lia.
Qed.

Lemma split_comma_plain (x : string) :
  count_commas x = O -> split_comma x = [x].
Proof.
  induction x as [|c x IH]; simpl; [reflexivity|].
  destruct (c =? ",")%char; [discriminate|].
  intros H. now rewrite (IH H).
Qed.

Lemma split_comma_app (x rest : string) :
  count_commas x = O ->
  split_comma (x ++ String "," rest) = x :: split_comma rest.
Proof.
  induction x as [|c x IH]; simpl; [reflexivity|].
  destruct (c =? ",")%char; [discriminate|].
  intros H. now rewrite (IH H).
Qed.

Lemma split_concat (x : string) (l : list string) :
  commas_in (x :: l) = O -> split_comma (String.concat "," (x :: l)) = x :: l.
Proof.
  revert x. induction l as [|y l IH]; intros x H.
  - simpl in *. apply split_comma_plain. lia.
  - change (String.concat "," (x :: y :: l))
      with (x ++ String "," (String.concat "," (y :: l)))%string.
    cbn [commas_in fold_right] in H.
    rewrite split_comma_app by lia.
    f_equal. apply IH. cbn [commas_in fold_right]. lia.
Qed.

Lemma services_field_plain (l : list string) :
  commas_in l = O -> l <> [EmptyString] -> services_field (group_concat l) = l.
Proof.
  intros Hc Hne. destruct l as [|x l]; [reflexivity|].
  change (group_concat (x :: l)) with (Some (String.concat "," (x :: l))).
  unfold services_field.
  destruct (String.concat "," (x :: l)) eqn:E.
  - apply concat_empty in E. destruct E; subst. now elim Hne.
  - rewrite <- E. now apply split_concat.
Qed.

(** C10 (amended): the services field of a listed client is the split of the
    comma-joined service types; it is empty exactly when the client has no
    service row or a single one whose type is the empty string; in every
    other case its length is the number of service rows plus the number of
    commas inside the types, and it is the list of the types itself when
    none of them has a comma. *)
Theorem get_api_clients_services (db : Db) (r : ClientRow.t) :
  In r (get_api_clients db) ->
  let types := service_types_of db (Client.id (ClientRow.client r)) in
  ClientRow.services r = services_field (group_concat types) /\
  (ClientRow.services r = [] <-> types = [] \/ types = [EmptyString]) /\
  (types <> [EmptyString] ->
   List.length (ClientRow.services r) = (List.length types + commas_in types)%nat) /\
  (types <> [EmptyString] -> commas_in types = O -> ClientRow.services r = types).
Proof.
  intros Hin types. unfold get_api_clients in Hin.
  apply in_map_iff in Hin. destruct Hin as [cp [Hr _]].
  assert (E : ClientRow.services r = services_field (group_concat types))
    by (subst r; reflexivity).
  rewrite E. split; [reflexivity|]. split; [apply services_field_nil|].
  split.
  - apply services_field_length.
  - intros Hne Hc. now apply services_field_plain.
Qed.

(** ** Numbers and their printing *)

Lemma Qlt_bool_iff (x y : Q) : Qlt_bool x y = true <-> (x < y)%Q.
Proof.
  unfold Qlt_bool. rewrite negb_true_iff.
  split.
  - intros H. apply Qnot_le_lt. intros Hle.
    apply Qle_bool_iff in Hle. congruence.
  - intros H. destruct (Qle_bool y x) eqn:E; [|reflexivity].
    apply Qle_bool_iff in E. exfalso. now apply (Qlt_not_le x y).
Qed.

(** [amount_added && amount_added > 0] is the test [amount_added > 0]. *)
Lemma truthy_and_positive (a : number) : truthy a && above_zero a = above_zero a.
Proof. destruct a as [s|s| |s m e]; try reflexivity; now destruct s. Qed.

(** A number above zero is bound to a REAL column as it is. *)
Lemma above_zero_sql_real (a : number) : above_zero a = true -> sql_real a = Some a.
Proof. destruct a as [s|s| |s m e]; try discriminate; reflexivity. Qed.

Lemma or_zero_truthy (x : option number) :
  truthy (or_zero x) = false ->
  match x with Some p => truthy p = false | None => True end.
Proof.
  destruct x as [p|]; cbn [or_zero]; [|trivial].
  destruct (truthy p) eqn:E; [congruence | trivial].
Qed.











Lemma calculateTrend_zero (current prev : number) :
  truthy prev = false -> calculateTrend current prev = "+100%"%string.
Proof. intros H. unfold calculateTrend. now rewrite H. Qed.


(** The value of a finite number has the sign of the number. *)
Lemma to_Q_negative (m : positive) (e : Z) : (to_Q (S754_finite true m e) < 0)%Q.
Proof.
  unfold to_Q. destruct e as [|p|p].
  - reflexivity.
  - unfold Qlt, inject_Z. cbn [Qnum Qden].
    assert (0 < 2 ^ Zpos p) by (apply Z.pow_pos_nonneg; lia). nia.
  - reflexivity.
Qed.



Lemma truthy_not_zero (p : number) :
  truthy p = true -> negb (truthy p) || SFeqb p zero = false.
Proof.
  intros H. rewrite H. destruct p as [s|s| |s m e]; try discriminate; now destruct s.
Qed.




(** ** PATCH /api/payments/:clientId *)

Lemma eq_col_true (c : option Z) (v : Z) : eq_col c v = true <-> c = Some v.
Proof.
  destruct c as [x|]; simpl.
  - rewrite Z.eqb_eq. split; [now intros -> | now intros [= ->]].
  - split; discriminate.
Qed.

Lemma select_payment_none (cid : Z) (db : Db) :
  select_payment cid db = None <->
  forall p, In p (rows (payments db)) -> Payment.client_id p <> Some cid.
Proof.
  unfold select_payment. split.
  - intros H p Hin E.
    pose proof (find_none _ _ H p Hin) as F. cbv beta in F.
    apply eq_col_true in E. congruence.
  - intros H.
    destruct (find _ _) as [p|] eqn:E; [|reflexivity].
    apply find_some in E. destruct E as [Hin E].
    apply eq_col_true in E. now elim (H p Hin).
Qed.

Lemma select_payment_some (cid : Z) (db : Db) (payment : Payment.t) :
  select_payment cid db = Some payment ->
  In payment (rows (payments db)) /\ Payment.client_id payment = Some cid.
Proof.
  unfold select_payment. intros H. apply find_some in H.
  destruct H as [Hin E]. now apply eq_col_true in E.
Qed.

Lemma updatePayment_run (now : string) (cid : Z) (payment : Payment.t)
    (b : PatchPayments.body) (db : Db) :
  let A := PatchPayments.advance_paid b in
  let remaining := fsub (to_number (Payment.total_amount payment)) A in
  let db1 :=
    set_payments
      (update_where (fun p => eq_col (Payment.client_id p) cid) (paid now A remaining)
         (payments db)) db in
  updatePayment now cid payment b db =
    match PatchPayments.amount_added b with
    | Some a =>
        if above_zero a then
          if foreign_keys db && negb (parent_ok db (Some cid))
          then (Throw ForeignKeyConstraint, db)
          else
            (Ok tt,
             set_transactions
               (mkTable
                  (rows (transactions db) ++
                   [Transaction.mk (next_rowid Transaction.id (transactions db)) (Some cid) a
                      (Some "payment"%string) (Some now)])
                  (next_rowid Transaction.id (transactions db)))
               db1)
        else (Ok tt, db1)
    | None => (Ok tt, db1)
    end.
Proof.
  intros A remaining db1.
  unfold updatePayment, transaction, bind, update_payment.
  fold A. fold remaining.
  destruct (PatchPayments.amount_added b) as [a|]; [|reflexivity].
  rewrite truthy_and_positive.
  destruct (above_zero a) eqn:Pos; [|reflexivity].
  unfold insert_transaction. rewrite (above_zero_sql_real a Pos).
  cbn [foreign_keys set_payments].
  change (parent_ok (set_payments _ db) (Some cid)) with (parent_ok db (Some cid)).
  destruct (foreign_keys db && negb (parent_ok db (Some cid))); reflexivity.
Qed.

Lemma payment_parent_ok (db : Db) (cid : Z) (payment : Payment.t) :
  referential_integrity db ->
  In payment (rows (payments db)) -> Payment.client_id payment = Some cid ->
  foreign_keys db && negb (parent_ok db (Some cid)) = false.
Proof.
  intros RI Hin E.
  destruct (foreign_keys db) eqn:FK; [|reflexivity].
  destruct (RI FK) as [_ [Hp _]].
  rewrite Forall_forall in Hp. specialize (Hp payment Hin).
  rewrite E in Hp. now rewrite Hp.
Qed.

(** [db.transaction]: when the handler answers 500 nothing was written. *)
Lemma patch_api_payments_atomic (now : string) (cid : Z) (b : PatchPayments.body) (db : Db)
    (e : Error) :
  fst (patch_api_payments now cid b db) = ServerError e ->
  snd (patch_api_payments now cid b db) = db.
Proof.
  unfold patch_api_payments.
  destruct (select_payment cid db) as [payment|]; [|discriminate].
  unfold try_catch. rewrite updatePayment_run.
  destruct (PatchPayments.amount_added b) as [a|]; [|discriminate].
  destruct (above_zero a); [|discriminate].
  destruct (foreign_keys db && negb (parent_ok db (Some cid))); [reflexivity|discriminate].
Qed.

(** [.get] gives the first of the rows the WHERE clause selects. *)
Lemma find_first {A : Type} (f : A -> bool) (l : list A) (x : A) (xs : list A) :
  filter f l = x :: xs -> find f l = Some x.
Proof.
  induction l as [|a l IH]; simpl; [discriminate|].
  destruct (f a); [now intros [= ->] | exact IH].
Qed.

Lemma select_payment_first (cid : Z) (db : Db) (payment : Payment.t) (others : list Payment.t) :
  payments_of db cid = payment :: others -> select_payment cid db = Some payment.
Proof. apply find_first. Qed.

(** The rows an UPDATE ... WHERE p writes are the rows the same WHERE selects
    afterwards, when the update keeps the column of the test. *)
Lemma filter_update {A : Type} (f : A -> bool) (g : A -> A) (l : list A) :
  (forall a, f (g a) = f a) ->
  filter f (map (fun a => if f a then g a else a) l) = map g (filter f l).
Proof.
  intros Hg. induction l as [|a l IH]; simpl; [reflexivity|].
  destruct (f a) eqn:E.
  - rewrite Hg, E. simpl. now rewrite IH.
  - rewrite E. exact IH.
Qed.

(** C1 (amended): PATCH /api/payments/:clientId reads the first payment row
    of the client, with total_amount T (a NULL counting as 0), and then
    either commits and answers success or rolls back and leaves the database
    as it was; it commits whenever the payment rows name existing clients.
    When it commits, every payment row of the client has the supplied
    advance_paid A, the remaining_balance T - A of double arithmetic (T being
    the total of the first row, also on the other rows), last_updated now and
    its old total_amount; one transaction row with the supplied amount and
    type "payment" is appended exactly when amount_added is supplied and
    strictly positive. *)
Theorem patch_api_payments_updates (now : string) (cid : Z) (b : PatchPayments.body)
    (db : Db) (payment : Payment.t) (others : list Payment.t) :
  payments_of db cid = payment :: others ->
  let T := to_number (Payment.total_amount payment) in
  let A := PatchPayments.advance_paid b in
  let res := patch_api_payments now cid b db in
  (referential_integrity db -> fst res = Json 200 success_true) /\
  (fst res = Json 200 success_true ->
     payment_patched now cid T b db (snd res) /\
     payments_of (snd res) cid =
       map (fun p => Payment.mk (Payment.id p) (Some cid) (Payment.total_amount p)
                       (sql_real A) (sql_real (fsub T A)) (Some (Text now)))
         (payment :: others)) /\
  (fst res <> Json 200 success_true -> snd res = db).
Proof.
  intros Hof T A res.
  pose proof (select_payment_first _ _ _ _ Hof) as Hsel.
  destruct (select_payment_some _ _ _ Hsel) as [Hin Hcid].
  assert (Hrows : filter (fun p => eq_col (Payment.client_id p) cid)
                    (map (fun p => if eq_col (Payment.client_id p) cid
                                   then paid now A (fsub T A) p else p)
                       (rows (payments db))) =
                  map (fun p => Payment.mk (Payment.id p) (Some cid) (Payment.total_amount p)
                                  (sql_real A) (sql_real (fsub T A)) (Some (Text now)))
                    (payment :: others)).
  { rewrite (filter_update (fun p => eq_col (Payment.client_id p) cid)
               (paid now A (fsub T A))) by reflexivity.
    fold (payments_of db cid). rewrite <- Hof.
    apply map_ext_in. intros p Hp. unfold payments_of in Hp.
    apply filter_In in Hp. destruct Hp as [_ Hp]. apply eq_col_true in Hp.
    unfold paid. now rewrite Hp. }
  assert (FK : referential_integrity db ->
               foreign_keys db && negb (parent_ok db (Some cid)) = false)
    by (intros RI; now apply (payment_parent_ok db cid payment)).
  subst res. unfold patch_api_payments. rewrite Hsel.
  unfold try_catch. rewrite updatePayment_run.
  fold T. fold A.
  unfold payment_patched, payments_of. fold A.
  destruct (PatchPayments.amount_added b) as [a|] eqn:Ea.
  - destruct (above_zero a) eqn:Pos.
    + destruct (foreign_keys db && negb (parent_ok db (Some cid))) eqn:G; cbn [fst snd].
      * split; [intros RI; specialize (FK RI); discriminate|].
        split; [discriminate | reflexivity].
      * split; [reflexivity|]. split; [|congruence].
        intros _. repeat split; try reflexivity; try exact Hrows.
        -- intros a' [= <-] _. reflexivity.
        -- intros H. specialize (H a eq_refl). congruence.
    + cbn [fst snd]. split; [reflexivity|]. split; [|congruence].
      intros _. repeat split; try reflexivity; try exact Hrows.
      intros a' [= <-] Ha. congruence.
  - cbn [fst snd]. split; [reflexivity|]. split; [|congruence].
    intros _. repeat split; try reflexivity; try exact Hrows.
    intros a' [=].
Qed.

(** C7: PATCH /api/payments/:clientId answers 404 exactly when no payment row
    names the client, and then the database is unchanged; when a payment row
    names the client (and, foreign keys being enforced, the rows name
    existing clients) the answer is { success: true }. *)
Theorem patch_api_payments_not_found (now : string) (cid : Z) (b : PatchPayments.body)
    (db : Db) :
  referential_integrity db ->
  let res := patch_api_payments now cid b db in
  let no_row := forall p, In p (rows (payments db)) -> Payment.client_id p <> Some cid in
  ((exists error, fst res = NotFound error) <-> no_row) /\
  (no_row -> snd res = db) /\
  (~ no_row -> fst res = Json 200 success_true).
Proof.
  intros RI res no_row. subst res no_row.
  unfold patch_api_payments.
  destruct (select_payment cid db) as [payment|] eqn:Hsel.
  - destruct (select_payment_some _ _ _ Hsel) as [Hin Hcid].
    assert (Hrow : ~ (forall p, In p (rows (payments db)) -> Payment.client_id p <> Some cid))
      by (intros H; exact (H payment Hin Hcid)).
    pose proof (payment_parent_ok db cid payment RI Hin Hcid) as FK.
    assert (Hok : fst (try_catch (updatePayment now cid payment b)
                         (fun _ => Json 200 success_true) db) = Json 200 success_true).
    { unfold try_catch. rewrite updatePayment_run, FK.
      destruct (PatchPayments.amount_added b) as [a|]; [|reflexivity].
      destruct (above_zero a); reflexivity. }
    split; [|split].
    + split; [|intros H; now elim Hrow]. intros [error E]. rewrite Hok in E. discriminate.
    + intros H. now elim Hrow.
    + intros _. exact Hok.
  - pose proof (proj1 (select_payment_none cid db) Hsel) as Hnone. clear Hsel.
    rename Hnone into Hsel. cbn [fst snd].
    split; [|split].
    + split; [intros _; exact Hsel | intros _; eexists; reflexivity].
    + reflexivity.
    + intros H. now elim H.
Qed.

(** ** ORDER BY and joins: which rows come out *)

Section OrderByFacts.

Context {R : Type}.

Variable before : R -> R -> bool.

Lemma in_insert_by (x y : R) (l : list R) :
  In x (insert_by before y l) <-> x = y \/ In x l.
Proof.
  induction l as [|z l IH]; simpl.
  - intuition.
  - destruct (before y z); simpl; [intuition|].
    rewrite IH. intuition.
Qed.

Lemma in_order_by (x : R) (l : list R) : In x (order_by before l) <-> In x l.
Proof.
  induction l as [|y l IH]; simpl; [tauto|].
  rewrite in_insert_by, IH. intuition.
Qed.

End OrderByFacts.



(** ** DELETE /api/clients/:id *)

Lemma has_rowid_true {R : Type} (rowid : R -> Z) (i : Z) (l : list R) :
  has_rowid rowid i l = true <-> exists r, In r l /\ rowid r = i.
Proof.
  unfold has_rowid. rewrite existsb_exists.
  split; intros [r [Hin E]]; exists r; split; auto; now apply Z.eqb_eq.
Qed.





(** ** Transactions and AUTOINCREMENT *)



Section AutoIncrement.

Context {R : Type}.

Variable rowid : R -> Z.

Lemma max_rowid_nonneg (l : list R) : 0 <= max_rowid rowid l.
Proof. induction l; simpl; lia. Qed.

Lemma max_rowid_app (l l' : list R) :
  max_rowid rowid (l ++ l') = Z.max (max_rowid rowid l) (max_rowid rowid l').
Proof.
  induction l as [|r l IH]; simpl.
  - pose proof (max_rowid_nonneg l'). lia.
  - rewrite IH. lia.
Qed.

Lemma max_rowid_ge (l : list R) (r : R) : In r l -> rowid r <= max_rowid rowid l.
Proof.
  induction l as [|x l IH]; simpl; [tauto|].
  intros [->|H]; [lia|]. specialize (IH H). lia.
Qed.

(** The id AUTOINCREMENT hands out is not in the table. *)
Lemma next_rowid_fresh (t : Table R) (r : R) :
  In r (rows t) -> rowid r < next_rowid rowid t.
Proof.
  intros H. apply max_rowid_ge in H. unfold next_rowid. lia.
Qed.

Lemma next_rowid_insert_auto (mk : Z -> R) (t : Table R) :
  (forall i, rowid (mk i) = i) ->
  next_rowid rowid (snd (insert_auto rowid mk t)) = next_rowid rowid t + 1.
Proof.
  intros Hmk. unfold insert_auto. cbn [snd].
  unfold next_rowid at 1. cbn [rows seq].
  rewrite max_rowid_app. cbn [max_rowid fold_right]. rewrite Hmk.
  pose proof (max_rowid_nonneg (rows t)). unfold next_rowid. lia.
Qed.

End AutoIncrement.

(** ** INSERT INTO services in a loop *)

Lemma for_of_insert_service (cid : Z) (types : list string) (db : Db) :
  foreign_keys db && negb (parent_ok db (Some cid)) = false ->
  exists t,
    for_of (map Some types) (insert_service cid) db = (Ok tt, set_services t db) /\
    rows t = rows (services db) ++
             numbered (new_service cid) (next_rowid Service.id (services db)) types /\
    (types = [] -> t = services db).
Proof.
  revert db. induction types as [|s types IH]; intros db FK.
  - exists (services db). cbn [map for_of numbered]. rewrite app_nil_r.
    unfold ret. destruct db; split; [reflexivity | split; reflexivity].
  - cbn [map for_of]. unfold bind at 1. unfold insert_service at 1. rewrite FK.
    cbn [insert_auto].
    set (t1 := mkTable (rows (services db) ++
                   [new_service cid (next_rowid Service.id (services db)) s])
                 (next_rowid Service.id (services db))).
    destruct (IH (set_services t1 db)) as [t [Hrun [Hrows _]]]; [exact FK|].
    exists t. rewrite Hrun. split; [destruct db; reflexivity|].
    split; [|discriminate].
    rewrite Hrows. cbn [services set_services numbered].
    assert (N : next_rowid Service.id t1 = next_rowid Service.id (services db) + 1)
      by (apply (next_rowid_insert_auto Service.id (fun i => new_service cid i s));
          reflexivity).
    rewrite N. subst t1. cbn [rows]. rewrite <- app_assoc. reflexivity.
Qed.

(** A null among the service types stops the loop with the NOT NULL error. *)
Lemma for_of_insert_service_null (cid : Z) (l : list (option string)) (db : Db) :
  foreign_keys db && negb (parent_ok db (Some cid)) = false ->
  In None l ->
  exists db', for_of l (insert_service cid) db = (Throw NotNullConstraint, db').
Proof.
  revert db. induction l as [|[s|] l IH]; intros db FK Hin.
  - destruct Hin.
  - destruct Hin as [H|Hin]; [discriminate|].
    cbn [for_of]. unfold bind at 1. unfold insert_service at 1. rewrite FK.
    cbn [insert_auto]. apply IH; [exact FK | exact Hin].
  - eexists. cbn [for_of]. unfold bind, insert_service. reflexivity.
Qed.

Lemma all_some_or_null {A : Type} (l : list (option A)) :
  (exists l', l = map Some l') \/ In None l.
Proof.
  induction l as [|[a|] l IH].
  - left. now exists [].
  - destruct IH as [[l' ->]|H]; [left; now exists (a :: l') | right; now right].
  - right. now left.
Qed.

(** ** POST /api/clients *)

Lemma has_rowid_app {R : Type} (rowid : R -> Z) (i : Z) (l l' : list R) :
  has_rowid rowid i (l ++ l') = has_rowid rowid i l || has_rowid rowid i l'.
Proof. unfold has_rowid. apply existsb_app. Qed.

Lemma filter_numbered_services (id first : Z) (types : list string) :
  filter (fun s => eq_col (Service.client_id s) id) (numbered (new_service id) first types)
  = numbered (new_service id) first types.
Proof.
  revert first. induction types as [|s types IH]; intros first; [reflexivity|].
  cbn [numbered filter new_service Service.client_id eq_col].
  rewrite Z.eqb_refl. f_equal. apply IH.
Qed.

Lemma map_numbered_services (id first : Z) (types : list string) :
  map Service.service_type (numbered (new_service id) first types) = types.
Proof.
  revert first. induction types as [|s types IH]; intros first; [reflexivity|].
  cbn [numbered map new_service Service.service_type]. f_equal. apply IH.
Qed.


(** No child row names a key that AUTOINCREMENT has still to hand out. *)
Lemma fresh_key_unreferenced {R : Type} (col : R -> option Z) (db : Db) (l : list R) :
  Forall (fun r => parent_ok db (col r) = true) l ->
  filter (fun r => eq_col (col r) (next_rowid Client.id (clients db))) l = [].
Proof.
  intros H. induction H as [|r l Hr _ IH]; [reflexivity|].
  cbn [filter]. rewrite IH.
  destruct (eq_col (col r) (next_rowid Client.id (clients db))) eqn:E; [|reflexivity].
  apply eq_col_true in E. rewrite E in Hr. cbn [parent_ok] in Hr.
  apply has_rowid_true in Hr. destruct Hr as [c [Hin Hid]].
  apply (next_rowid_fresh Client.id) in Hin. lia.
Qed.

(** An integer of at most 53 bits is the same number in JavaScript. *)
Lemma js_number_exact (i : Z) : Z.abs i <= 2 ^ 53 -> js_number i = i.
Proof.
  intros H. unfold js_number.
  destruct (Z.log2 (Z.abs i) - 52 <=? 0) eqn:K; [reflexivity|].
  apply Z.leb_gt in K.
  assert (L : Z.abs i = 2 ^ 53).
  { assert (Z.log2 (Z.abs i) <= Z.log2 (2 ^ 53)) by now apply Z.log2_le_mono.
    rewrite Z.log2_pow2 in H0 by lia.
    assert (E : Z.log2 (Z.abs i) = 53) by lia.
    assert (0 < Z.abs i) by (destruct (Z.abs i) eqn:A; try lia; simpl in E; lia).
    pose proof (Z.log2_spec (Z.abs i) H1) as S. rewrite E in S. lia. }
  rewrite L. change (Z.log2 (2 ^ 53) - 52) with 1.
  change (Z.sgn i * (2 ^ 52 * 2 ^ 1) = i).
  change (2 ^ 52 * 2 ^ 1) with (2 ^ 53). rewrite <- L.
  rewrite Z.mul_comm. apply Z.abs_sgn.
Qed.

(** The loop over the service types throws when one of them is null. *)
Lemma for_of_insert_service_throws (cid : Z) (l : list (option string)) (db : Db) :
  In None l -> exists e db', for_of l (insert_service cid) db = (Throw e, db').
Proof.
  revert db. induction l as [|[s|] l IH]; intros db Hin.
  - destruct Hin.
  - destruct Hin as [H|Hin]; [discriminate|].
    cbn [for_of]. unfold bind at 1. unfold insert_service at 1.
    destruct (foreign_keys db && negb (parent_ok db (Some cid))).
    + eexists. eexists. reflexivity.
    + cbn [insert_auto]. apply IH. exact Hin.
  - eexists. eexists. cbn [for_of]. unfold bind, insert_service. reflexivity.
Qed.

(** The loop and the INSERT INTO payments leave the clients table alone. *)
Lemma for_of_insert_service_clients (cid : Z) (l : list (option string)) (db : Db) :
  clients (snd (for_of l (insert_service cid) db)) = clients db /\
  tasks (snd (for_of l (insert_service cid) db)) = tasks db /\
  transactions (snd (for_of l (insert_service cid) db)) = transactions db.
Proof.
  revert db. induction l as [|s l IH]; intros db; [repeat split|].
  cbn [for_of]. unfold bind.
  destruct (insert_service cid s db) as [[[]|e] db1] eqn:E; cbn [snd].
  - assert (K : clients db1 = clients db /\ tasks db1 = tasks db /\
                transactions db1 = transactions db).
    { unfold insert_service in E. destruct s as [s|]; [|discriminate].
      destruct (foreign_keys db && negb (parent_ok db (Some cid))); [discriminate|].
      cbn [insert_auto] in E. injection E as <-. repeat split. }
    destruct K as [<- [<- <-]]. apply IH.
  - unfold insert_service in E. destruct s as [s|]; [|injection E as _ <-; repeat split].
    destruct (foreign_keys db && negb (parent_ok db (Some cid)));
      [injection E as _ <-; repeat split | discriminate].
Qed.

(** What POST /api/clients does to the clients table, whatever the id the
    driver reports: a commit has appended one row, a rollback nothing. *)
Lemma insertClient_outcome (now : string) (b : PostClients.body) (db : Db) :
  match insertClient now b db with
  | (Ok id, db') =>
      id = js_number (next_rowid Client.id (clients db)) /\
      tasks db' = tasks db /\ transactions db' = transactions db /\
      exists n,
        PostClients.name b = Some n /\
        (exists types, PostClients.services b = Some (map Some types)) /\
        clients db' =
          mkTable
            (rows (clients db) ++
             [Client.mk (next_rowid Client.id (clients db)) n (PostClients.email b)
                (PostClients.phone b) (PostClients.company b) (PostClients.notes b)
                (PostClients.managed_by b) (Some "active"%string) (Some (Text now))])
            (next_rowid Client.id (clients db))
  | (Throw _, db') => db' = db
  end.
Proof.
  unfold insertClient, transaction. unfold bind at 1. unfold insert_client.
  destruct (PostClients.name b) as [n|]; [|reflexivity].
  cbn [insert_auto].
  set (id := next_rowid Client.id (clients db)).
  set (db1 := set_clients _ db).
  destruct (PostClients.services b) as [l|]; [|reflexivity].
  unfold bind at 1.
  pose proof (for_of_insert_service_clients (js_number id) l db1) as K.
  destruct (all_some_or_null l) as [[types ->]|Hnull].
  2:{ destruct (for_of_insert_service_throws (js_number id) l db1 Hnull) as [e [db' R]].
      now rewrite R. }
  destruct (for_of (map Some types) (insert_service (js_number id)) db1) as [[[]|e] db2];
    [|reflexivity].
  cbn [snd] in K. destruct K as [K1 [K2 K3]].
  unfold bind at 1. unfold insert_payment.
  destruct (foreign_keys db2 && negb (parent_ok db2 (Some (js_number id)))); [reflexivity|].
  cbn [insert_auto]. unfold ret.
  cbn [clients tasks transactions set_payments].
  rewrite K1, K2, K3. subst db1. cbn [clients tasks transactions set_clients].
  split; [reflexivity|]. split; [reflexivity|]. split; [reflexivity|].
  exists n. split; [reflexivity|]. split; [now exists types | reflexivity].
Qed.

Lemma insertClient_run (now : string) (b : PostClients.body) (db : Db) :
  let id := next_rowid Client.id (clients db) in
  js_number id = id ->
  match PostClients.name b, PostClients.services b with
  | None, _ => insertClient now b db = (Throw NotNullConstraint, db)
  | Some n, None => insertClient now b db = (Throw TypeError, db)
  | Some n, Some l =>
      (In None l /\ insertClient now b db = (Throw NotNullConstraint, db)) \/
      (exists types db',
         l = map Some types /\
         insertClient now b db = (Ok id, db') /\
         client_created now b n types id db db')
  end.
Proof.
  intros id Hid.
  destruct (PostClients.name b) as [n|] eqn:En.
  2:{ unfold insertClient, transaction, bind, insert_client. now rewrite En. }
  destruct (PostClients.services b) as [l|] eqn:El.
  2:{ unfold insertClient, transaction, bind, insert_client. now rewrite En, El. }
  pose (c := Client.mk id n (PostClients.email b) (PostClients.phone b)
               (PostClients.company b) (PostClients.notes b) (PostClients.managed_by b)
               (Some "active"%string) (Some (Text now))).
  pose (db1 := set_clients (mkTable (rows (clients db) ++ [c]) id) db).
  assert (FK1 : foreign_keys db1 && negb (parent_ok db1 (Some id)) = false).
  { cbn [parent_ok]. subst db1. cbn [clients set_clients rows].
    rewrite has_rowid_app. cbn [has_rowid existsb]. subst c. cbn [Client.id].
    rewrite Z.eqb_refl, !orb_true_r. apply andb_false_r. }
  assert (Start : insertClient now b db =
            match
              (for_of l (insert_service id) ;;;
               insert_payment now id (PostClients.total_amount b) (PostClients.advance_paid b)
                 (fsub (PostClients.total_amount b) (PostClients.advance_paid b)) ;;;
               ret id) db1
            with
            | (Ok a, db') => (Ok a, db')
            | (Throw e, _) => (Throw e, db)
            end).
  { unfold insertClient, transaction. unfold bind at 1. unfold insert_client.
    rewrite En, El. cbn [insert_auto]. fold id. rewrite Hid. reflexivity. }
  rewrite Start. clear Start.
  destruct (all_some_or_null l) as [[types ->]|Hnull].
  - right. exists types.
    destruct (for_of_insert_service id types db1 FK1) as [t [Hrun [Hrows _]]].
    unfold bind at 1. rewrite Hrun.
    unfold bind at 1. unfold insert_payment at 1.
    change (foreign_keys (set_services t db1)) with (foreign_keys db1).
    change (parent_ok (set_services t db1) (Some id)) with (parent_ok db1 (Some id)).
    rewrite FK1. cbn [insert_auto]. unfold ret.
    eexists. split; [reflexivity|]. split; [reflexivity|].
    unfold client_created.
    cbn [clients services payments tasks transactions set_payments set_services rows].
    subst db1. cbn [clients services payments tasks transactions set_clients rows].
    repeat split; try reflexivity. exact Hrows.
  - left. split; [exact Hnull|].
    destruct (for_of_insert_service_null id l db1 FK1 Hnull) as [db' Hrun].
    unfold bind at 1. now rewrite Hrun.
Qed.


(** ** PATCH /api/clients/:id *)

Lemma has_rowid_update_where {R : Type} (rowid : R -> Z) (p : R -> bool) (f : R -> R)
    (i : Z) (t : Table R) :
  (forall r, rowid (f r) = rowid r) ->
  has_rowid rowid i (rows (update_where p f t)) = has_rowid rowid i (rows t).
Proof.
  intros Hf. unfold update_where, has_rowid. cbn [rows].
  induction (rows t) as [|r l IH]; [reflexivity|].
  cbn [map existsb]. rewrite IH. destruct (p r); [now rewrite Hf | reflexivity].
Qed.







(** ** INSERT with the id named, in a loop *)

Section InsertRows.

Context {R : Type}.

Variable rowid : R -> Z.

Variable parent : R -> option Z.

Variable get : Db -> Table R.

Variable set : Table R -> Db -> Db.

Hypothesis get_set : forall t db, get (set t db) = t.
Hypothesis fk_set : forall t db, foreign_keys (set t db) = foreign_keys db.
Hypothesis parent_set :
  forall t db r, parent_ok (set t db) (parent r) = parent_ok db (parent r).
Hypothesis set_set : forall t t' db, set t (set t' db) = set t db.
Hypothesis set_get : forall db, set (get db) db = db.

Lemma place_permutation (r : R) (l : list R) : Permutation (place rowid r l) (r :: l).
Proof.
  induction l as [|x l IH]; cbn [place]; [reflexivity|].
  destruct (rowid r <? rowid x); [reflexivity|].
  rewrite IH. apply perm_swap.
Qed.

Lemma place_increasing (r : R) (l : list R) :
  has_rowid rowid (rowid r) l = false ->
  increasing rowid l -> increasing rowid (place rowid r l).
Proof.
  unfold increasing. intros Hfree Hs.
  induction Hs as [|x l Hs IH Hx]; cbn [place].
  - repeat constructor.
  - cbn [has_rowid existsb] in Hfree. apply orb_false_iff in Hfree.
    destruct Hfree as [Hne Hfree]. apply Z.eqb_neq in Hne.
    destruct (rowid r <? rowid x) eqn:Lt.
    + apply Z.ltb_lt in Lt. constructor; [now constructor|].
      constructor; [exact Lt|].
      eapply Forall_impl; [|exact Hx]. cbv beta. intros; lia.
    + apply Z.ltb_ge in Lt. constructor; [now apply IH|].
      rewrite (Forall_forall (fun b => rowid x < rowid b)).
      intros y Hy. apply (Permutation_in _ (place_permutation r l)) in Hy.
      destruct Hy as [<-|Hy]; [lia|].
      rewrite Forall_forall in Hx. now apply Hx.
Qed.

(** Whenever the loop runs to its end, the table holds the rows it had and
    the rows of the list, each under the id it came with, in id order. *)
Lemma for_of_insert_row_ok (l : list R) (db db' : Db) :
  for_of l (insert_row rowid parent get set) db = (Ok tt, db') ->
  exists t,
    db' = set t db /\
    Permutation (rows t) (l ++ rows (get db)) /\
    (increasing rowid (rows (get db)) -> increasing rowid (rows t)).
Proof.
  revert db. induction l as [|r l IH]; intros db.
  - cbn [for_of]. unfold ret. intros [= <-].
    exists (get db). rewrite set_get. repeat split; auto.
  - cbn [for_of]. unfold bind. unfold insert_row at 1. unfold insert_with_id.
    destruct (rowid_ok (rowid r)); [|discriminate].
    destruct (has_rowid rowid (rowid r) (rows (get db))) eqn:Free; [discriminate|].
    destruct (foreign_keys db && negb (parent_ok db (parent r))); [discriminate|].
    intros Run. apply IH in Run. destruct Run as [t [-> [Hperm Hinc]]].
    exists t. rewrite set_set. split; [reflexivity|].
    rewrite get_set in Hperm, Hinc. cbn [rows] in Hperm, Hinc.
    split.
    + rewrite Hperm. rewrite (place_permutation r (rows (get db))).
      symmetry. apply Permutation_middle.
    + intros Hs. apply Hinc. now apply place_increasing.
Qed.




End InsertRows.

(** ** POST /api/restore *)

Lemma bind_ok {A B : Type} (m : Stmt A) (k : A -> Stmt B) (db db' : Db) (b : B) :
  bind m k db = (Ok b, db') ->
  exists a db1, m db = (Ok a, db1) /\ k a db1 = (Ok b, db').
Proof.
  unfold bind. destruct (m db) as [[a|e] db1]; [|discriminate].
  intros H. now exists a, db1.
Qed.

Lemma filter_all_false {R : Type} (l : list R) : filter (fun _ => negb true) l = [].
Proof. induction l; auto. Qed.

Lemma filter_all_true {R : Type} (l : list R) : filter (fun _ => true) l = l.
Proof. induction l as [|r l IH]; [reflexivity|]. cbn [filter]. now rewrite IH. Qed.

Lemma restore_deletes {A : Type} (k : Stmt A) (db : Db) :
  (delete_all_tasks ;;; delete_all_payments ;;; delete_all_services ;;;
   delete_clients (fun _ => true) ;;; k) db
  = k (cleared db).
Proof.
  destruct db as [fk c s p t [xr xs]].
  unfold bind, delete_all_tasks, delete_all_payments, delete_all_services, delete_clients,
    delete_where, cleared, ledger_after_restore.
  cbn [clients services payments tasks transactions foreign_keys rows seq
       set_tasks set_payments set_services set_clients].
  rewrite !filter_all_false, filter_all_true.
  destruct fk; [|reflexivity].
  unfold cascade, delete_where.
  cbn [clients services payments tasks transactions foreign_keys rows seq
       set_tasks set_payments set_services set_clients set_transactions filter].
  reflexivity.
Qed.

Lemma for_of_map {A B : Type} (f : A -> B) (body : B -> Stmt unit) (l : list A) :
  for_of (map f l) body = for_of l (fun x => body (f x)).
Proof.
  induction l as [|x l IH]; [reflexivity|].
  cbn [map for_of]. now rewrite IH.
Qed.

(** The four loops of the restore, on rows as they are stored. *)
Lemma restore_run (b : Backup.t) (db : Db) :
  restore b db =
    match (for_of (Backup.clients (stored_backup b))
             (insert_row Client.id (fun _ => None) clients set_clients) ;;;
           for_of (Backup.services (stored_backup b))
             (insert_row Service.id Service.client_id services set_services) ;;;
           for_of (Backup.payments (stored_backup b))
             (insert_row Payment.id Payment.client_id payments set_payments) ;;;
           for_of (Backup.tasks (stored_backup b))
             (insert_row Task.id Task.client_id tasks set_tasks)) (cleared db) with
    | (Ok a, db') => (Ok a, db')
    | (Throw e, _) => (Throw e, db)
    end.
Proof.
  unfold restore, transaction. rewrite restore_deletes.
  unfold stored_backup. cbn [Backup.clients Backup.services Backup.payments Backup.tasks].
  rewrite !for_of_map. reflexivity.
Qed.

Lemma set_clients_same (db : Db) : set_clients (clients db) db = db.
Proof. now destruct db. Qed.

Lemma set_services_same (db : Db) : set_services (services db) db = db.
Proof. now destruct db. Qed.

Lemma set_payments_same (db : Db) : set_payments (payments db) db = db.
Proof. now destruct db. Qed.

Lemma set_tasks_same (db : Db) : set_tasks (tasks db) db = db.
Proof. now destruct db. Qed.

Ltac table_laws :=
  first [ apply set_clients_same | apply set_services_same
        | apply set_payments_same | apply set_tasks_same
        | intros; reflexivity ].

Lemma has_rowid_place_eq {R : Type} (rowid : R -> Z) (r : R) (l : list R) (i : Z) :
  has_rowid rowid i (place rowid r l) = (rowid r =? i) || has_rowid rowid i l.
Proof.
  induction l as [|x l IH]; cbn [place has_rowid existsb]; [reflexivity|].
  destruct (rowid r <? rowid x); cbn [existsb]; [reflexivity|].
  fold (has_rowid rowid i (place rowid r l)). rewrite IH.
  fold (has_rowid rowid i l).
  destruct (rowid x =? i), (rowid r =? i); reflexivity.
Qed.

Section InsertRowsOutcome.

Context {R : Type}.

Variable rowid : R -> Z.

Variable parent : R -> option Z.

Variable get : Db -> Table R.

Variable set : Table R -> Db -> Db.

Hypothesis get_set : forall t db, get (set t db) = t.
Hypothesis fk_set : forall t db, foreign_keys (set t db) = foreign_keys db.
Hypothesis parent_set :
  forall t db r, parent_ok (set t db) (parent r) = parent_ok db (parent r).

(** The loop runs to its end exactly when the ids are distinct and free and
    every row passes the foreign-key check. *)
Lemma for_of_insert_row_outcome (l : list R) (db : Db) :
  (insertable rowid parent get l db /\
   exists db', for_of l (insert_row rowid parent get set) db = (Ok tt, db')) \/
  (~ insertable rowid parent get l db /\
   exists e db', for_of l (insert_row rowid parent get set) db = (Throw e, db')).
Proof.
  revert db. induction l as [|r l IH]; intros db.
  - left. split; [|eexists; reflexivity].
    split; [split; constructor | split; intros r []].
  - cbn [for_of]. unfold bind. unfold insert_row at 1 3. unfold insert_with_id.
    destruct (rowid_ok (rowid r)) eqn:Rok.
    2:{ right. split; [|now eexists; eexists].
        intros [[H _] _]. cbn [map] in H. inversion H; subst. congruence. }
    destruct (has_rowid rowid (rowid r) (rows (get db))) eqn:Free.
    { right. split; [|now eexists; eexists].
      intros [_ [H _]]. specialize (H r (or_introl eq_refl)). congruence. }
    destruct (foreign_keys db && negb (parent_ok db (parent r))) eqn:FK.
    { right. split; [|now eexists; eexists].
      intros [_ [_ H]]. specialize (H r (or_introl eq_refl)). congruence. }
    set (db1 := set (mkTable (place rowid r (rows (get db)))
                       (Z.max (seq (get db)) (rowid r))) db).
    assert (Equiv : insertable rowid parent get (r :: l) db <-> insertable rowid parent get l db1).
    { unfold insertable. subst db1. rewrite get_set, fk_set. cbn [rows map].
      split.
      - intros [[Hok Hnd] [Hfree Hfk]]. inversion Hnd as [|? ? Hnotin Hnd']; subst.
        inversion Hok as [|? ? _ Hok']; subst.
        split; [split; [exact Hok' | exact Hnd']|]. split.
        + intros x Hx. rewrite has_rowid_place_eq, (Hfree x (or_intror Hx)), orb_false_r.
          apply Z.eqb_neq. intros E. apply Hnotin. rewrite E. now apply in_map.
        + intros x Hx. rewrite parent_set. apply Hfk. now right.
      - intros [[Hok Hnd] [Hfree Hfk]]. split; [split|split].
        + constructor; [exact Rok | exact Hok].
        + constructor; [|exact Hnd]. intros Hin. apply in_map_iff in Hin.
          destruct Hin as [x [E Hx]]. specialize (Hfree x Hx).
          rewrite has_rowid_place_eq, E, Z.eqb_refl in Hfree. discriminate.
        + intros x [<-|Hx]; [exact Free|]. specialize (Hfree x Hx).
          rewrite has_rowid_place_eq in Hfree. now apply orb_false_iff in Hfree.
        + intros x [<-|Hx]; [exact FK|]. specialize (Hfk x Hx).
          now rewrite parent_set in Hfk. }
    destruct (IH db1) as [[Hi Hrun]|[Hi Hrun]]; [left | right];
      (split; [now rewrite Equiv | exact Hrun]).
Qed.

End InsertRowsOutcome.

Lemma has_rowid_in_ids (cs : list Client.t) (x : Z) :
  has_rowid Client.id x cs = true <-> In x (map Client.id cs).
Proof.
  rewrite has_rowid_true, in_map_iff.
  split; intros [c [H1 H2]]; exists c; tauto.
Qed.

(** The foreign-key checks of a loop, read on the snapshot. *)
Lemma fk_checks_snapshot {R : Type} (col : R -> option Z) (b : Backup.t) (d : Db)
    (enforced : bool) (l : list R) :
  foreign_keys d = enforced ->
  Permutation (rows (clients d)) (Backup.clients b) ->
  (forall r, In r l -> foreign_keys d && negb (parent_ok d (col r)) = false) <->
  (enforced = true -> Forall (fun r => in_snapshot b (col r)) l).
Proof.
  intros FK Perm.
  assert (P : forall c, parent_ok d c = true <-> in_snapshot b c).
  { intros [x|]; cbn [parent_ok in_snapshot]; [|tauto].
    rewrite has_rowid_in_ids. split; apply Permutation_in, Permutation_map;
      [exact Perm | now symmetry]. }
  rewrite FK. split.
  - intros H E. apply Forall_forall. intros r Hr.
    specialize (H r Hr). rewrite E in H. cbn [andb] in H.
    apply negb_false_iff in H. now apply P.
  - intros H r Hr. destruct enforced; [|reflexivity].
    specialize (H eq_refl). rewrite Forall_forall in H.
    cbn [andb]. apply negb_false_iff, P. now apply H.
Qed.

Lemma insertable_empty {R : Type} (rowid : R -> Z) (parent : R -> option Z)
    (get : Db -> Table R) (l : list R) (d : Db) :
  rows (get d) = [] ->
  insertable rowid parent get l d <->
  ids_ok (map rowid l) /\
  (forall r, In r l -> foreign_keys d && negb (parent_ok d (parent r)) = false).
Proof.
  intros E. unfold insertable. rewrite E. split.
  - intros [H1 [_ H3]]. now split.
  - intros [H1 H3]. split; [exact H1|]. split; [reflexivity | exact H3].
Qed.

Lemma bind_run_ok {A B : Type} (m : Stmt A) (k : A -> Stmt B) (db d : Db) (a : A) :
  m db = (Ok a, d) -> bind m k db = k a d.
Proof. intros H. unfold bind. now rewrite H. Qed.

Lemma bind_run_throw {A B : Type} (m : Stmt A) (k : A -> Stmt B) (db d : Db) (e : Error) :
  m db = (Throw e, d) -> bind m k db = (Throw e, d).
Proof. intros H. unfold bind. now rewrite H. Qed.

(** The two ways the four loops end, on rows as they are stored. *)
Lemma insert_rows_outcome (b : Backup.t) (db : Db) :
  let run :=
    (for_of (Backup.clients b) (insert_row Client.id (fun _ => None) clients set_clients) ;;;
     for_of (Backup.services b)
       (insert_row Service.id Service.client_id services set_services) ;;;
     for_of (Backup.payments b)
       (insert_row Payment.id Payment.client_id payments set_payments) ;;;
     for_of (Backup.tasks b) (insert_row Task.id Task.client_id tasks set_tasks))
      (cleared db) in
  (snapshot_ok (foreign_keys db) b /\
   exists t1 t2 t3 t4,
     run
     = (Ok tt, set_tasks t4 (set_payments t3 (set_services t2 (set_clients t1 (cleared db)))))
     /\ Permutation (rows t1) (Backup.clients b) /\ increasing Client.id (rows t1)
     /\ Permutation (rows t2) (Backup.services b) /\ increasing Service.id (rows t2)
     /\ Permutation (rows t3) (Backup.payments b) /\ increasing Payment.id (rows t3)
     /\ Permutation (rows t4) (Backup.tasks b) /\ increasing Task.id (rows t4)) \/
  (~ snapshot_ok (foreign_keys db) b /\ exists e d, run = (Throw e, d)).
Proof.
  intros run. subst run. unfold snapshot_ok.
  destruct (for_of_insert_row_outcome Client.id (fun _ => None) clients set_clients)
    with (l := Backup.clients b) (db := cleared db) as [[I1 [d1 R1]]|[I1 [e [d1 R1]]]];
    try table_laws;
    rewrite insertable_empty in I1 by reflexivity.
  2:{ right. rewrite (bind_run_throw _ _ _ _ _ R1). split; [|now exists e, d1].
      intros [H _]. apply I1. split; [exact H|].
      intros r _. cbn [parent_ok negb]. apply andb_false_r. }
  rewrite (bind_run_ok _ _ _ _ _ R1).
  destruct I1 as [N1 _].
  apply (for_of_insert_row_ok Client.id (fun _ => None) clients set_clients) in R1;
    try table_laws.
  destruct R1 as [t1 [-> [P1 S1]]]. cbn [clients cleared rows] in P1, S1.
  rewrite app_nil_r in P1. specialize (S1 (SSorted_nil _)).
  set (db1 := set_clients t1 (cleared db)).
  destruct (for_of_insert_row_outcome Service.id Service.client_id services set_services)
    with (l := Backup.services b) (db := db1) as [[I2 [d2 R2]]|[I2 [e [d2 R2]]]];
    try table_laws;
    rewrite insertable_empty in I2 by reflexivity;
    rewrite (fk_checks_snapshot Service.client_id b db1 (foreign_keys db) _ eq_refl P1) in I2.
  2:{ right. rewrite (bind_run_throw _ _ _ _ _ R2). split; [|now exists e, d2].
      intros [_ [H [_ [_ F]]]]. apply I2.
      split; [exact H|]. intros E. now apply F. }
  rewrite (bind_run_ok _ _ _ _ _ R2).
  destruct I2 as [N2 F2].
  apply (for_of_insert_row_ok Service.id Service.client_id services set_services) in R2;
    try table_laws.
  destruct R2 as [t2 [-> [P2 S2]]]. cbn [services set_clients cleared rows] in P2, S2.
  rewrite app_nil_r in P2. specialize (S2 (SSorted_nil _)).
  set (db2 := set_services t2 db1).
  destruct (for_of_insert_row_outcome Payment.id Payment.client_id payments set_payments)
    with (l := Backup.payments b) (db := db2) as [[I3 [d3 R3]]|[I3 [e [d3 R3]]]];
    try table_laws;
    rewrite insertable_empty in I3 by reflexivity;
    rewrite (fk_checks_snapshot Payment.client_id b db2 (foreign_keys db) _ eq_refl P1) in I3.
  2:{ right. rewrite (bind_run_throw _ _ _ _ _ R3). split; [|now exists e, d3].
      intros [_ [_ [H [_ F]]]]. apply I3.
      split; [exact H|]. intros E. now apply F. }
  rewrite (bind_run_ok _ _ _ _ _ R3).
  destruct I3 as [N3 F3].
  apply (for_of_insert_row_ok Payment.id Payment.client_id payments set_payments) in R3;
    try table_laws.
  destruct R3 as [t3 [-> [P3 S3]]].
  cbn [payments set_services set_clients cleared rows] in P3, S3.
  rewrite app_nil_r in P3. specialize (S3 (SSorted_nil _)).
  set (db3 := set_payments t3 db2).
  destruct (for_of_insert_row_outcome Task.id Task.client_id tasks set_tasks)
    with (l := Backup.tasks b) (db := db3) as [[I4 [d4 R4]]|[I4 [e [d4 R4]]]];
    try table_laws;
    rewrite insertable_empty in I4 by reflexivity;
    rewrite (fk_checks_snapshot Task.client_id b db3 (foreign_keys db) _ eq_refl P1) in I4.
  2:{ right. rewrite R4. split; [|now exists e, d4].
      intros [_ [_ [_ [H F]]]]. apply I4.
      split; [exact H|]. intros E. now apply F. }
  rewrite R4.
  destruct I4 as [N4 F4].
  apply (for_of_insert_row_ok Task.id Task.client_id tasks set_tasks) in R4;
    try table_laws.
  destruct R4 as [t4 [-> [P4 S4]]].
  cbn [tasks set_payments set_services set_clients cleared rows] in P4, S4.
  rewrite app_nil_r in P4. specialize (S4 (SSorted_nil _)).
  left. split.
  - split; [exact N1|]. split; [exact N2|]. split; [exact N3|]. split; [exact N4|].
    intros E. split; [|split]; [apply F2 | apply F3 | apply F4]; exact E.
  - exists t1, t2, t3, t4. repeat split; assumption.
Qed.

Lemma snapshot_ok_stored (enforced : bool) (b : Backup.t) :
  snapshot_ok enforced (stored_backup b) <-> snapshot_ok enforced b.
Proof.
  unfold snapshot_ok, stored_backup, in_snapshot.
  cbn [Backup.clients Backup.services Backup.payments Backup.tasks].
  rewrite !map_map, !Forall_map. cbn [stored_client stored_service stored_payment stored_task
    Client.id Service.id Payment.id Task.id Service.client_id Payment.client_id Task.client_id].
  reflexivity.
Qed.

(** The two ways a restore ends. *)
Lemma restore_outcome (b : Backup.t) (db : Db) :
  (snapshot_ok (foreign_keys db) b /\
   exists t1 t2 t3 t4,
     restore b db
     = (Ok tt, set_tasks t4 (set_payments t3 (set_services t2 (set_clients t1 (cleared db)))))
     /\ Permutation (rows t1) (map stored_client (Backup.clients b))
     /\ increasing Client.id (rows t1)
     /\ Permutation (rows t2) (map stored_service (Backup.services b))
     /\ increasing Service.id (rows t2)
     /\ Permutation (rows t3) (map stored_payment (Backup.payments b))
     /\ increasing Payment.id (rows t3)
     /\ Permutation (rows t4) (map stored_task (Backup.tasks b))
     /\ increasing Task.id (rows t4)) \/
  (~ snapshot_ok (foreign_keys db) b /\ exists e, restore b db = (Throw e, db)).
Proof.
  rewrite restore_run.
  destruct (insert_rows_outcome (stored_backup b) db)
    as [[Good [t1 [t2 [t3 [t4 [Run H]]]]]]|[Bad [e [d Run]]]]; rewrite Run.
  - left. split; [now apply snapshot_ok_stored|]. exists t1, t2, t3, t4.
    split; [reflexivity | exact H].
  - right. split; [now rewrite <- snapshot_ok_stored | now exists e].
Qed.

(** The ledger rows a restore leaves under enforcement, when every ledger
    row named an existing client or none: the rows with a NULL client_id. *)
Lemma ledger_after_restore_null (db : Db) (r : Transaction.t) :
  foreign_keys db = true -> references_ok db ->
  In r (ledger_after_restore db) <->
  In r (rows (transactions db)) /\ Transaction.client_id r = None.
Proof.
  intros FK [_ [_ [_ Hx]]]. unfold ledger_after_restore. rewrite FK, filter_In.
  rewrite Forall_forall in Hx.
  split; intros [Hin H]; (split; [exact Hin|]).
  - specialize (Hx r Hin). destruct (Transaction.client_id r) as [x|]; [|reflexivity].
    cbn [parent_ok] in Hx. cbn [in_col] in H. exfalso.
    apply has_rowid_true in Hx. destruct Hx as [c [Hc Hid]].
    assert (E : existsb (Z.eqb x) (map Client.id (rows (clients db))) = true).
    { apply existsb_exists. exists x. split; [|apply Z.eqb_refl].
      apply in_map_iff. now exists c. }
    rewrite E in H. discriminate.
  - now rewrite H.
Qed.

(** C5 (amended): POST /api/restore runs in one transaction.  For a snapshot
    whose ids are rowids, distinct within each list, and whose child rows
    (the foreign keys being enforced) name a client of the snapshot or none,
    it answers success, and each of the tables clients, services, payments
    and tasks then holds exactly the rows of the snapshot as their columns
    store them, under the ids they came with and in id order; for every
    other snapshot it answers 500 and the database is as it was.  No
    statement of the handler names the transactions table, but under
    foreign-key enforcement the DELETE FROM clients has removed from it the
    rows that named a client, the other ledger rows and the counter being as
    before: when every ledger row named an existing client or none, the rows
    with a NULL client_id are what is left.  Without enforcement the table
    is exactly as it was. *)
Theorem post_api_restore_replaces (b : Backup.t) (db : Db) :
  let res := post_api_restore b db in
  (snapshot_ok (foreign_keys db) b ->
     fst res = Json 200 success_true /\
     Permutation (rows (clients (snd res))) (map stored_client (Backup.clients b)) /\
     Permutation (rows (services (snd res))) (map stored_service (Backup.services b)) /\
     Permutation (rows (payments (snd res))) (map stored_payment (Backup.payments b)) /\
     Permutation (rows (tasks (snd res))) (map stored_task (Backup.tasks b)) /\
     increasing Client.id (rows (clients (snd res))) /\
     increasing Service.id (rows (services (snd res))) /\
     increasing Payment.id (rows (payments (snd res))) /\
     increasing Task.id (rows (tasks (snd res))) /\
     rows (transactions (snd res)) = ledger_after_restore db /\
     seq (transactions (snd res)) = seq (transactions db) /\
     (foreign_keys db = true -> references_ok db ->
      forall r, In r (rows (transactions (snd res))) <->
                In r (rows (transactions db)) /\ Transaction.client_id r = None)) /\
  (~ snapshot_ok (foreign_keys db) b ->
     (exists e, fst res = ServerError e) /\ snd res = db) /\
  (foreign_keys db = false -> transactions (snd res) = transactions db).
Proof.
  intros res. subst res. unfold post_api_restore, try_catch.
  destruct (restore_outcome b db)
    as [[Good [t1 [t2 [t3 [t4 [Run [P1 [S1 [P2 [S2 [P3 [S3 [P4 S4]]]]]]]]]]]]]|[Bad [e Run]]];
    rewrite Run; cbn [fst snd];
    cbn [clients services payments tasks transactions cleared rows seq
         set_clients set_services set_payments set_tasks].
  - split; [|split].
    + intros _. repeat split; try assumption;
        apply (ledger_after_restore_null db r); assumption.
    + intros H. now elim H.
    + intros FK. unfold ledger_after_restore. rewrite FK. now destruct (transactions db).
  - split; [|split].
    + intros H. now elim Bad.
    + intros _. split; [now exists e | reflexivity].
    + reflexivity.
Qed.
(** ** GET /api/backup, then POST /api/restore *)













(** ** GET /api/tasks *)

Lemma ascii_compare_refl (a : ascii) : Ascii.compare a a = Eq.
Proof. unfold Ascii.compare. apply N.compare_refl. Qed.

Lemma string_compare_refl (s : string) : String.compare s s = Eq.
Proof.
  induction s as [|a s IH]; [reflexivity|].
  cbn [String.compare]. now rewrite ascii_compare_refl.
Qed.

Lemma ascii_compare_lt_trans (a b c : ascii) :
  Ascii.compare a b = Lt -> Ascii.compare b c = Lt -> Ascii.compare a c = Lt.
Proof.
  unfold Ascii.compare. rewrite !N.compare_lt_iff. apply N.lt_trans.
Qed.

Lemma string_compare_lt_trans (a b c : string) :
  String.compare a b = Lt -> String.compare b c = Lt -> String.compare a c = Lt.
Proof.
  revert b c. induction a as [|x a IH]; intros [|y b] [|z c]; cbn [String.compare];
    try discriminate; auto.
  destruct (Ascii.compare x y) eqn:Exy; try discriminate;
    destruct (Ascii.compare y z) eqn:Eyz; try discriminate; intros H1 H2.
  - apply Ascii.compare_eq_iff in Exy, Eyz. subst.
    rewrite ascii_compare_refl. now apply IH with b.
  - apply Ascii.compare_eq_iff in Exy. subst. now rewrite Eyz.
  - apply Ascii.compare_eq_iff in Eyz. subst. now rewrite Exy.
  - now rewrite (ascii_compare_lt_trans x y z Exy Eyz).
Qed.

Lemma compare_text_refl (a : option string) : compare_text a a = Eq.
Proof. destruct a; [apply string_compare_refl | reflexivity]. Qed.

Lemma compare_text_eq (a b : option string) : compare_text a b = Eq -> a = b.
Proof.
  destruct a, b; cbn [compare_text]; try discriminate; [|reflexivity].
  intros H. now rewrite (String.compare_eq_iff _ _ H).
Qed.

Lemma compare_text_antisym (a b : option string) :
  compare_text a b = CompOpp (compare_text b a).
Proof. destruct a, b; cbn [compare_text CompOpp]; auto using String.compare_antisym. Qed.

Lemma compare_text_lt_trans (a b c : option string) :
  compare_text a b = Lt -> compare_text b c = Lt -> compare_text a c = Lt.
Proof.
  destruct a, b, c; cbn [compare_text]; try discriminate; auto.
  apply string_compare_lt_trans.
Qed.

Lemma compare_text_le_trans (a b c : option string) :
  compare_text a b <> Gt -> compare_text b c <> Gt -> compare_text a c <> Gt.
Proof.
  intros H1 H2.
  destruct (compare_text a b) eqn:E1; [| |now elim H1];
    destruct (compare_text b c) eqn:E2; try (now elim H2).
  - apply compare_text_eq in E1, E2. subst. now rewrite compare_text_refl.
  - apply compare_text_eq in E1. subst. now rewrite E2.
  - apply compare_text_eq in E2. subst. now rewrite E1.
  - now rewrite (compare_text_lt_trans a b c E1 E2).
Qed.

(** *** The order of the values of a column *)

Lemma compare_number_lt (x y : Value) :
  compare_number x y = Lt <->
  fst (position x) < fst (position y) \/
  (fst (position x) = fst (position y) /\ (snd (position x) < snd (position y))%Q).
Proof.
  unfold compare_number.
  destruct (Z.compare_spec (fst (position x)) (fst (position y))) as [E|L|G].
  - rewrite <- Qlt_alt. split; [intros H; right; now split | intros [H|[_ H]]; [lia | exact H]].
  - split; [intros _; now left | reflexivity].
  - split; [discriminate | intros [H|[H _]]; lia].
Qed.

Lemma compare_number_eq (x y : Value) :
  compare_number x y = Eq <->
  fst (position x) = fst (position y) /\ (snd (position x) == snd (position y))%Q.
Proof.
  unfold compare_number.
  destruct (Z.compare_spec (fst (position x)) (fst (position y))) as [E|L|G].
  - rewrite <- Qeq_alt. tauto.
  - split; [discriminate | intros [H _]; lia].
  - split; [discriminate | intros [H _]; lia].
Qed.

Lemma compare_number_antisym (x y : Value) :
  compare_number x y = CompOpp (compare_number y x).
Proof.
  unfold compare_number.
  rewrite (Z.compare_antisym (fst (position y)) (fst (position x))).
  rewrite <- (Qcompare_antisym (snd (position y)) (snd (position x))).
  destruct (fst (position y) ?= fst (position x)); reflexivity.
Qed.

Lemma compare_number_lt_trans (x y z : Value) :
  compare_number x y = Lt -> compare_number y z = Lt -> compare_number x z = Lt.
Proof.
  rewrite !compare_number_lt. intros [H1|[E1 H1]] [H2|[E2 H2]].
  - left; lia.
  - left; lia.
  - left; lia.
  - right. split; [lia|]. now apply Qlt_trans with (snd (position y)).
Qed.

Lemma compare_number_eq_trans (x y z : Value) :
  compare_number x y = Eq -> compare_number y z = Eq -> compare_number x z = Eq.
Proof.
  rewrite !compare_number_eq. intros [E1 H1] [E2 H2].
  split; [lia|]. now rewrite H1.
Qed.

Lemma compare_number_eq_lt (x y z : Value) :
  compare_number x y = Eq -> compare_number y z = Lt -> compare_number x z = Lt.
Proof.
  rewrite compare_number_eq, !compare_number_lt. intros [E1 H1] [H2|[E2 H2]].
  - left; lia.
  - right. split; [lia|]. now rewrite H1.
Qed.

Lemma compare_number_lt_eq (x y z : Value) :
  compare_number x y = Lt -> compare_number y z = Eq -> compare_number x z = Lt.
Proof.
  rewrite compare_number_eq, !compare_number_lt. intros [H1|[E1 H1]] [E2 H2].
  - left; lia.
  - right. split; [lia|]. now rewrite <- H2.
Qed.

Lemma string_compare_eq (x y : string) : String.compare x y = Eq <-> x = y.
Proof.
  split; [apply String.compare_eq_iff | intros ->; apply string_compare_refl].
Qed.

Lemma string_ltb_lt (x y : string) : (x <? y)%string = true <-> String.compare x y = Lt.
Proof. unfold String.ltb. destruct (String.compare x y); split; congruence. Qed.

Ltac by_kind a := destruct a as [[?|?|?]|].

Lemma compare_value_refl (a : option Value) : compare_value a a = Eq.
Proof.
  by_kind a; cbn [compare_value]; try reflexivity;
    try (apply compare_number_eq; split; reflexivity).
  apply string_compare_refl.
Qed.

Lemma compare_value_antisym (a b : option Value) :
  compare_value a b = CompOpp (compare_value b a).
Proof.
  by_kind a; by_kind b; cbn [compare_value CompOpp];
    auto using compare_number_antisym, String.compare_antisym.
Qed.

Lemma compare_value_lt_trans (a b c : option Value) :
  compare_value a b = Lt -> compare_value b c = Lt -> compare_value a c = Lt.
Proof.
  by_kind a; by_kind b; by_kind c; cbn [compare_value];
    try discriminate; auto;
    first [apply compare_number_lt_trans | apply string_compare_lt_trans].
Qed.

Lemma compare_value_eq_trans (a b c : option Value) :
  compare_value a b = Eq -> compare_value b c = Eq -> compare_value a c = Eq.
Proof.
  by_kind a; by_kind b; by_kind c; cbn [compare_value];
    try discriminate; auto;
    try apply compare_number_eq_trans.
  rewrite !string_compare_eq. congruence.
Qed.

Lemma compare_value_eq_lt (a b c : option Value) :
  compare_value a b = Eq -> compare_value b c = Lt -> compare_value a c = Lt.
Proof.
  by_kind a; by_kind b; by_kind c; cbn [compare_value];
    try discriminate; auto;
    try apply compare_number_eq_lt.
  rewrite string_compare_eq. now intros ->.
Qed.

Lemma compare_value_lt_eq (a b c : option Value) :
  compare_value a b = Lt -> compare_value b c = Eq -> compare_value a c = Lt.
Proof.
  by_kind a; by_kind b; by_kind c; cbn [compare_value];
    try discriminate; auto;
    try apply compare_number_lt_eq.
  rewrite string_compare_eq. now intros H ->.
Qed.

Lemma compare_value_le_trans (a b c : option Value) :
  compare_value a b <> Gt -> compare_value b c <> Gt -> compare_value a c <> Gt.
Proof.
  intros H1 H2.
  destruct (compare_value a b) eqn:E1; [| |now elim H1];
    destruct (compare_value b c) eqn:E2; try (now elim H2).
  - now rewrite (compare_value_eq_trans a b c E1 E2).
  - now rewrite (compare_value_eq_lt a b c E1 E2).
  - now rewrite (compare_value_lt_eq a b c E1 E2).
  - now rewrite (compare_value_lt_trans a b c E1 E2).
Qed.

(** The comparison of the code is the order in words. *)
Lemma compare_value_lt (a b : option Value) : compare_value a b = Lt <-> value_lt a b.
Proof.
  by_kind a; by_kind b; cbn [compare_value value_lt];
    try apply compare_number_lt; try (now rewrite string_ltb_lt);
    split; intros H; first [discriminate H | exact I | reflexivity | contradiction].
Qed.

Lemma compare_value_eq (a b : option Value) : compare_value a b = Eq <-> value_same a b.
Proof.
  by_kind a; by_kind b; cbn [compare_value value_same];
    try apply compare_number_eq; try apply string_compare_eq;
    split; intros H; first [discriminate H | exact I | reflexivity | contradiction].
Qed.

Lemma compare_value_le (a b : option Value) : compare_value a b <> Gt <-> value_le a b.
Proof.
  unfold value_le. rewrite <- compare_value_lt, <- compare_value_eq.
  destruct (compare_value a b); split; intros H;
    first [now left | now right | now elim H | discriminate
          | destruct H as [H|H]; discriminate].
Qed.

Lemma tasks_order_true (a b : TaskRow.t) :
  tasks_order a b = true <->
  compare_value (Task.due_date (TaskRow.task a)) (Task.due_date (TaskRow.task b)) = Lt \/
  (compare_value (Task.due_date (TaskRow.task a)) (Task.due_date (TaskRow.task b)) = Eq /\
   compare_value (Task.created_at (TaskRow.task b)) (Task.created_at (TaskRow.task a)) <> Gt).
Proof.
  unfold tasks_order.
  destruct (compare_value (Task.due_date _) (Task.due_date _));
    [destruct (compare_value (Task.created_at _) (Task.created_at _))| |];
    split; intros H; try tauto; try discriminate;
    try (right; split; [reflexivity | discriminate]);
    destruct H as [H|[H1 H2]]; try discriminate; now elim H2.
Qed.

Lemma tasks_order_total (a b : TaskRow.t) :
  tasks_order a b = false -> tasks_order b a = true.
Proof.
  intros H. apply tasks_order_true.
  unfold tasks_order in H.
  rewrite (compare_value_antisym (Task.due_date (TaskRow.task b))).
  rewrite (compare_value_antisym (Task.created_at (TaskRow.task a))).
  destruct (compare_value (Task.due_date (TaskRow.task a)) (Task.due_date (TaskRow.task b)));
    cbn [CompOpp]; [|discriminate|now left].
  destruct (compare_value (Task.created_at (TaskRow.task b)) (Task.created_at (TaskRow.task a)));
    cbn [CompOpp]; try discriminate.
  right. split; [reflexivity | discriminate].
Qed.

Lemma tasks_order_trans (a b c : TaskRow.t) :
  tasks_order a b = true -> tasks_order b c = true -> tasks_order a c = true.
Proof.
  rewrite !tasks_order_true.
  intros [H1|[H1 C1]] [H2|[H2 C2]].
  - left. eapply compare_value_lt_trans; eassumption.
  - left. eapply compare_value_lt_eq; eassumption.
  - left. eapply compare_value_eq_lt; eassumption.
  - right. split.
    + eapply compare_value_eq_trans; eassumption.
    + eapply compare_value_le_trans; eassumption.
Qed.

(** The order of the code is the order in words. *)
Lemma tasks_order_due_order (a b : TaskRow.t) : tasks_order a b = true <-> due_order a b.
Proof.
  rewrite tasks_order_true. unfold due_order, created_not_before.
  now rewrite compare_value_lt, compare_value_eq, compare_value_le.
Qed.

Section OrderBySorted.

Context {R : Type}.

Variable before : R -> R -> bool.

Hypothesis before_total : forall a b, before a b = false -> before b a = true.
Hypothesis before_trans :
  forall a b c, before a b = true -> before b c = true -> before a c = true.

Lemma insert_by_sorted (x : R) (l : list R) :
  StronglySorted (fun a b => before a b = true) l ->
  StronglySorted (fun a b => before a b = true) (insert_by before x l).
Proof.
  induction 1 as [|y l Hs IH Hy]; cbn [insert_by].
  - repeat constructor.
  - destruct (before x y) eqn:E.
    + constructor; [now constructor|].
      constructor; [exact E|].
      eapply Forall_impl; [|exact Hy]. cbv beta. intros z Hz.
      now apply before_trans with y.
    + constructor; [exact IH|].
      rewrite Forall_forall. intros z Hz. apply in_insert_by in Hz.
      destruct Hz as [->|Hz]; [now apply before_total|].
      rewrite Forall_forall in Hy. now apply Hy.
Qed.

Lemma order_by_sorted (l : list R) :
  StronglySorted (fun a b => before a b = true) (order_by before l).
Proof.
  induction l as [|x l IH]; cbn [order_by fold_right]; [constructor|].
  now apply insert_by_sorted.
Qed.

End OrderBySorted.

Lemma strongly_sorted_impl {R : Type} (P Q : R -> R -> Prop) (l : list R) :
  (forall a b, P a b -> Q a b) -> StronglySorted P l -> StronglySorted Q l.
Proof.
  intros H. induction 1 as [|x l Hs IH Hx]; constructor; [exact IH|].
  eapply Forall_impl; [|exact Hx]. intros; now apply H.
Qed.

Lemma in_join_clients (db : Db) (ts : list Task.t) (r : TaskRow.t) :
  In r (join_clients db ts) <->
  In (TaskRow.task r) ts /\
  exists c, In c (rows (clients db)) /\
            Task.client_id (TaskRow.task r) = Some (Client.id c) /\
            TaskRow.client_name r = Client.name c.
Proof.
  unfold join_clients. rewrite in_flat_map. split.
  - intros [k [Hk Hin]]. apply in_map_iff in Hin. destruct Hin as [c [<- Hc]].
    apply filter_In in Hc. destruct Hc as [Hc E]. apply eq_col_true in E.
    cbn [TaskRow.task TaskRow.client_name]. split; [exact Hk|]. now exists c.
  - intros [Hk [c [Hc [E N]]]]. exists (TaskRow.task r). split; [exact Hk|].
    apply in_map_iff. exists c. split.
    + destruct r as [k n]. cbn [TaskRow.task TaskRow.client_name] in *. now subst.
    + apply filter_In. split; [exact Hc | now apply eq_col_true].
Qed.

(** C8 (amended): GET /api/tasks with a clientId returns the tasks whose
    client_id is that id, each joined with the client's name, and nothing
    else; they are ordered by the due date the DATE column holds, ascending:
    the NULL due dates first, then the due dates stored as numbers (a text
    that is a numeric literal is stored as its number) by value, then the
    texts byte by byte; among due dates that the order does not tell apart,
    by creation time descending. *)
Theorem get_api_tasks_by_client (c : Z) (db : Db) :
  let out := get_api_tasks (Some c) db in
  (forall r,
     In r out <->
     In (TaskRow.task r) (rows (tasks db)) /\
     Task.client_id (TaskRow.task r) = Some c /\
     exists cl, In cl (rows (clients db)) /\ Client.id cl = c /\
                TaskRow.client_name r = Client.name cl) /\
  StronglySorted due_order out.
Proof.
  intros out. subst out. unfold get_api_tasks. split.
  - intros r. rewrite in_order_by, filter_In, in_join_clients, eq_col_true.
    split.
    + intros [[Hk [cl [Hcl [E N]]]] Hc]. split; [exact Hk|]. split; [exact Hc|].
      exists cl. split; [exact Hcl|]. split; [congruence | exact N].
    + intros [Hk [Hc [cl [Hcl [E N]]]]]. split; [|exact Hc]. split; [exact Hk|].
      exists cl. split; [exact Hcl|]. split; [congruence | exact N].
  - apply strongly_sorted_impl with (P := fun a b => tasks_order a b = true).
    + intros a b. apply tasks_order_due_order.
    + apply order_by_sorted; [apply tasks_order_total | apply tasks_order_trans].
Qed.

(** ** What every reachable state satisfies *)

Section Preserves.

Variable P : Db -> Prop.

Lemma preserves_ret {A : Type} (a : A) : preserves P (ret a).
Proof. intros db H. exact H. Qed.

Lemma preserves_throw {A : Type} (e : Error) : preserves P (throw (A := A) e).
Proof. intros db H. exact H. Qed.

Lemma preserves_bind {A B : Type} (m : Stmt A) (k : A -> Stmt B) :
  preserves P m -> (forall a, preserves P (k a)) -> preserves P (bind m k).
Proof.
  intros Hm Hk db H. unfold bind. specialize (Hm db H).
  destruct (m db) as [[a|e] db1]; cbn [snd] in *; [now apply Hk | exact Hm].
Qed.

Lemma preserves_for_of {A : Type} (xs : list A) (body : A -> Stmt unit) :
  (forall x, preserves P (body x)) -> preserves P (for_of xs body).
Proof.
  intros Hb. induction xs as [|x xs IH]; cbn [for_of].
  - apply preserves_ret.
  - apply preserves_bind; [apply Hb | intros _; exact IH].
Qed.

Lemma preserves_transaction {A : Type} (fn : Stmt A) :
  preserves P fn -> preserves P (transaction fn).
Proof.
  intros Hf db H. unfold transaction. specialize (Hf db H).
  destruct (fn db) as [[a|e] db1]; cbn [snd] in *; assumption.
Qed.

Lemma preserves_try_catch {A B : Type} (m : Stmt A) (k : A -> Response B) (db : Db) :
  preserves P m -> P db -> P (snd (try_catch m k db)).
Proof.
  intros Hm H. unfold try_catch. specialize (Hm db H).
  destruct (m db) as [[a|e] db1]; exact Hm.
Qed.

End Preserves.

Section Increasing.

Context {R : Type}.

Variable rowid : R -> Z.

Lemma increasing_snoc (l : list R) (r : R) :
  increasing rowid l -> Forall (fun a => rowid a < rowid r) l ->
  increasing rowid (l ++ [r]).
Proof.
  unfold increasing. induction 1 as [|x l Hs IH Hx]; cbn [app]; intros Hall.
  - repeat constructor.
  - inversion Hall as [|? ? Hxr Hl]; subst. constructor; [now apply IH|].
    apply Forall_app. split; [exact Hx | now repeat constructor].
Qed.

Lemma increasing_insert_auto (mk : Z -> R) (t : Table R) :
  (forall i, rowid (mk i) = i) ->
  increasing rowid (rows t) ->
  increasing rowid (rows (snd (insert_auto rowid mk t))).
Proof.
  intros Hmk Hs. cbn [insert_auto snd rows]. apply increasing_snoc; [exact Hs|].
  rewrite Forall_forall. intros a Ha. rewrite Hmk. now apply next_rowid_fresh.
Qed.

Lemma increasing_filter (p : R -> bool) (l : list R) :
  increasing rowid l -> increasing rowid (filter p l).
Proof.
  unfold increasing. induction 1 as [|x l Hs IH Hx]; cbn [filter]; [constructor|].
  destruct (p x); [|exact IH]. constructor; [exact IH|].
  rewrite Forall_forall in *. intros y Hy. apply filter_In in Hy. now apply Hx.
Qed.

Lemma increasing_update (p : R -> bool) (f : R -> R) (l : list R) :
  (forall r, rowid (f r) = rowid r) ->
  increasing rowid l -> increasing rowid (map (fun r => if p r then f r else r) l).
Proof.
  intros Hf. unfold increasing. induction 1 as [|x l Hs IH Hx]; cbn [map]; [constructor|].
  assert (E : forall r, rowid (if p r then f r else r) = rowid r)
    by (intros r; destruct (p r); [apply Hf | reflexivity]).
  constructor; [exact IH|].
  rewrite Forall_forall in *. intros y Hy. apply in_map_iff in Hy.
  destruct Hy as [z [<- Hz]]. rewrite !E. now apply Hx.
Qed.

End Increasing.

Lemma parent_ok_mono (db db' : Db) (c : option Z) :
  (forall x, has_rowid Client.id x (rows (clients db)) = true ->
             has_rowid Client.id x (rows (clients db')) = true) ->
  parent_ok db c = true -> parent_ok db' c = true.
Proof. intros H. destruct c as [x|]; [apply H | trivial]. Qed.

Lemma Forall_parent_ok_mono {R : Type} (col : R -> option Z) (db db' : Db) (l : list R) :
  (forall x, has_rowid Client.id x (rows (clients db)) = true ->
             has_rowid Client.id x (rows (clients db')) = true) ->
  Forall (fun r => parent_ok db (col r) = true) l ->
  Forall (fun r => parent_ok db' (col r) = true) l.
Proof.
  intros H. apply Forall_impl. intros r. now apply parent_ok_mono.
Qed.

Lemma Forall_filter {R : Type} (Q : R -> Prop) (p : R -> bool) (l : list R) :
  Forall Q l -> Forall Q (filter p l).
Proof.
  rewrite !Forall_forall. intros H r Hr. apply filter_In in Hr. now apply H.
Qed.

Lemma Forall_update {R : Type} (Q : R -> Prop) (p : R -> bool) (f : R -> R) (l : list R) :
  (forall r, Q r -> Q (f r)) ->
  Forall Q l -> Forall Q (map (fun r => if p r then f r else r) l).
Proof.
  intros Hf. rewrite !Forall_forall. intros H r Hr. apply in_map_iff in Hr.
  destruct Hr as [z [<- Hz]]. destruct (p z); [apply Hf|]; now apply H.
Qed.

(** After a cascading delete the rows that stay name clients that stay. *)
Lemma Forall_parent_ok_cascade {R : Type} (col : R -> option Z) (p : Client.t -> bool)
    (cs : list Client.t) (db db' : Db) (l : list R) :
  rows (clients db) = cs ->
  rows (clients db') = filter (fun c => negb (p c)) cs ->
  Forall (fun r => parent_ok db (col r) = true) l ->
  Forall (fun r => parent_ok db' (col r) = true)
    (filter (fun r => negb (in_col (col r) (map Client.id (filter p cs)))) l).
Proof.
  intros E E'. rewrite !Forall_forall. intros H r Hr.
  apply filter_In in Hr. destruct Hr as [Hr Hn]. specialize (H r Hr).
  destruct (col r) as [x|]; [|reflexivity].
  cbn [parent_ok in_col] in *. rewrite E in H. rewrite E'.
  apply has_rowid_true in H. destruct H as [c [Hc Hid]].
  apply has_rowid_true. exists c. split; [|exact Hid].
  apply filter_In. split; [exact Hc|].
  destruct (p c) eqn:Pc; [|reflexivity].
  exfalso. apply negb_true_iff in Hn.
  assert (T : existsb (Z.eqb x) (map Client.id (filter p cs)) = true).
  { apply existsb_exists. exists x. split; [|apply Z.eqb_refl].
    apply in_map_iff. exists c. split; [exact Hid|].
    apply filter_In. now split. }
  congruence.
Qed.

Ltac open_consistent :=
  intros [fk c s p t x] [FK [Ic [Is [Ip [It [Ix [Rs [Rp [Rt Rx]]]]]]]]];
  cbn [foreign_keys clients services payments tasks transactions] in FK, Ic, Is, Ip, It, Ix;
  unfold references_ok in *;
  cbn [foreign_keys clients services payments tasks transactions] in Rs, Rp, Rt, Rx;
  subst fk.

Ltac close_consistent :=
  unfold consistent, references_ok;
  cbn [foreign_keys clients services payments tasks transactions rows seq snd
       set_clients set_services set_payments set_tasks set_transactions];
  repeat match goal with |- _ /\ _ => split end; try assumption; try reflexivity.

Lemma consistent_insert_client (now : string)
    (name email phone company notes managed_by : option string) :
  preserves consistent (insert_client now name email phone company notes managed_by).
Proof.
  open_consistent. unfold insert_client. destruct name as [n|]; cbn [fst snd insert_auto].
  2:{ close_consistent. }
  close_consistent.
  - apply (increasing_insert_auto Client.id
             (fun i => Client.mk i n email phone company notes managed_by
                         (Some "active"%string) (Some (Text now)))
             c (fun _ => eq_refl) Ic).
  - eapply Forall_parent_ok_mono; [|exact Rs].
    cbn [clients rows set_clients]. intros y Hy. rewrite has_rowid_app, Hy. reflexivity.
  - eapply Forall_parent_ok_mono; [|exact Rp].
    cbn [clients rows set_clients]. intros y Hy. rewrite has_rowid_app, Hy. reflexivity.
  - eapply Forall_parent_ok_mono; [|exact Rt].
    cbn [clients rows set_clients]. intros y Hy. rewrite has_rowid_app, Hy. reflexivity.
  - eapply Forall_parent_ok_mono; [|exact Rx].
    cbn [clients rows set_clients]. intros y Hy. rewrite has_rowid_app, Hy. reflexivity.
Qed.

Lemma consistent_insert_service (clientId : Z) (service : option string) :
  preserves consistent (insert_service clientId service).
Proof.
  open_consistent. unfold insert_service. destruct service as [v|]; [|close_consistent].
  cbn [foreign_keys andb].
  destruct (parent_ok (mkDb true c s p t x) (Some clientId)) eqn:Par; cbn [negb];
    [|close_consistent].
  cbn [insert_auto]. close_consistent.
  - apply (increasing_insert_auto Service.id (fun i => new_service clientId i v)
             s (fun _ => eq_refl) Is).
  - apply Forall_app. split; [exact Rs|]. constructor; [exact Par | constructor].
Qed.

Lemma consistent_insert_payment (now : string) (clientId : Z) (T A remaining : number) :
  preserves consistent (insert_payment now clientId T A remaining).
Proof.
  open_consistent. unfold insert_payment. cbn [foreign_keys andb].
  destruct (parent_ok (mkDb true c s p t x) (Some clientId)) eqn:Par; cbn [negb];
    [|close_consistent].
  cbn [insert_auto]. close_consistent.
  - apply (increasing_insert_auto Payment.id
             (fun i => Payment.mk i (Some clientId) (sql_real T) (sql_real A)
                         (sql_real remaining) (Some (Text now)))
             p (fun _ => eq_refl) Ip).
  - apply Forall_app. split; [exact Rp|]. constructor; [exact Par | constructor].
Qed.

Lemma consistent_insert_transaction (now : string) (clientId : Z) (amount : number) :
  preserves consistent (insert_transaction now clientId amount).
Proof.
  open_consistent. unfold insert_transaction.
  destruct (sql_real amount) as [a|]; [|close_consistent].
  cbn [foreign_keys andb].
  destruct (parent_ok (mkDb true c s p t x) (Some clientId)) eqn:Par; cbn [negb];
    [|close_consistent].
  cbn [insert_auto]. close_consistent.
  - apply (increasing_insert_auto Transaction.id
             (fun i => Transaction.mk i (Some clientId) a (Some "payment"%string)
                         (Some now))
             x (fun _ => eq_refl) Ix).
  - apply Forall_app. split; [exact Rx|]. constructor; [exact Par | constructor].
Qed.

Lemma consistent_insert_task (now : string) (b : PostTasks.body) :
  preserves consistent (insert_task now b).
Proof.
  open_consistent. unfold insert_task.
  destruct (PostTasks.title b) as [title|]; [|close_consistent].
  cbn [foreign_keys andb].
  destruct (parent_ok (mkDb true c s p t x) (PostTasks.client_id b)) eqn:Par; cbn [negb];
    [|close_consistent].
  cbn [insert_auto]. close_consistent.
  - apply (increasing_insert_auto Task.id
             (fun i => Task.mk i (PostTasks.client_id b) title (PostTasks.assigned_to b)
                         (option_map affinity (PostTasks.due_date b))
                         (Some "pending"%string) (Some (Text now)))
             t (fun _ => eq_refl) It).
  - apply Forall_app. split; [exact Rt|]. constructor; [exact Par | constructor].
Qed.

Lemma consistent_update_client (clientId : Z)
    (name email phone company notes managed_by : option string) :
  preserves consistent (update_client clientId name email phone company notes managed_by).
Proof.
  open_consistent. unfold update_client.
  destruct (has_rowid Client.id clientId (rows (clients (mkDb true c s p t x))));
    [|close_consistent].
  destruct name as [n|]; [|close_consistent].
  assert (M : forall y,
            has_rowid Client.id y (rows (clients (mkDb true c s p t x))) = true ->
            has_rowid Client.id y
              (rows (clients
                 (set_clients
                    (update_where (fun r => Client.id r =? clientId)
                       (fun r => Client.mk (Client.id r) n email phone company notes
                                   managed_by (Client.status r) (Client.created_at r))
                       c) (mkDb true c s p t x)))) = true).
  { intros y Hy. cbn [clients set_clients] in *.
    rewrite has_rowid_update_where; [exact Hy | reflexivity]. }
  close_consistent.
  - unfold update_where. cbn [rows]. now apply increasing_update.
  - eapply Forall_parent_ok_mono; [exact M | exact Rs].
  - eapply Forall_parent_ok_mono; [exact M | exact Rp].
  - eapply Forall_parent_ok_mono; [exact M | exact Rt].
  - eapply Forall_parent_ok_mono; [exact M | exact Rx].
Qed.

Lemma consistent_delete_services_of (clientId : Z) :
  preserves consistent (delete_services_of clientId).
Proof.
  open_consistent. unfold delete_services_of, delete_where. close_consistent.
  - now apply increasing_filter.
  - now apply Forall_filter.
Qed.

Lemma consistent_delete_clients (q : Client.t -> bool) :
  preserves consistent (delete_clients q).
Proof.
  open_consistent. unfold delete_clients, cascade, delete_where.
  cbn [foreign_keys clients services payments tasks transactions rows seq
       set_clients set_services set_payments set_tasks set_transactions].
  close_consistent; try (now apply increasing_filter).
  - eapply Forall_parent_ok_cascade; cycle 2; [exact Rs | reflexivity | reflexivity].
  - eapply Forall_parent_ok_cascade; cycle 2; [exact Rp | reflexivity | reflexivity].
  - eapply Forall_parent_ok_cascade; cycle 2; [exact Rt | reflexivity | reflexivity].
  - eapply Forall_parent_ok_cascade; cycle 2; [exact Rx | reflexivity | reflexivity].
Qed.

Lemma consistent_update_payment (now : string) (A remaining : number) (clientId : Z) :
  preserves consistent (update_payment now A remaining clientId).
Proof.
  open_consistent. unfold update_payment, update_where. close_consistent.
  - now apply increasing_update.
  - apply Forall_update; [|exact Rp]. intros r Hr. exact Hr.
Qed.

Lemma consistent_delete_all_tasks : preserves consistent delete_all_tasks.
Proof.
  open_consistent. unfold delete_all_tasks, delete_where. close_consistent.
  - now apply increasing_filter.
  - now apply Forall_filter.
Qed.

Lemma consistent_delete_all_payments : preserves consistent delete_all_payments.
Proof.
  open_consistent. unfold delete_all_payments, delete_where. close_consistent.
  - now apply increasing_filter.
  - now apply Forall_filter.
Qed.

Lemma consistent_delete_all_services : preserves consistent delete_all_services.
Proof.
  open_consistent. unfold delete_all_services, delete_where. close_consistent.
  - now apply increasing_filter.
  - now apply Forall_filter.
Qed.

Lemma consistent_update_task_status (status : option string) (id : Z) :
  preserves consistent (update_task_status status id).
Proof.
  open_consistent. unfold update_task_status, update_where. close_consistent.
  - now apply increasing_update.
  - apply Forall_update; [|exact Rt]. intros r Hr. exact Hr.
Qed.

Lemma consistent_delete_task (id : Z) : preserves consistent (delete_task id).
Proof.
  open_consistent. unfold delete_task, delete_where. close_consistent.
  - now apply increasing_filter.
  - now apply Forall_filter.
Qed.

Lemma has_rowid_place {R : Type} (rowid : R -> Z) (r : R) (l : list R) (y : Z) :
  has_rowid rowid y l = true -> has_rowid rowid y (place rowid r l) = true.
Proof.
  rewrite !has_rowid_true. intros [a [Ha E]]. exists a. split; [|exact E].
  apply (Permutation_in _ (Permutation_sym (place_permutation rowid r l))). now right.
Qed.

Lemma Forall_place {R : Type} (rowid : R -> Z) (Q : R -> Prop) (r : R) (l : list R) :
  Q r -> Forall Q l -> Forall Q (place rowid r l).
Proof.
  intros Hr Hl.
  apply (Permutation_Forall (Permutation_sym (place_permutation rowid r l))).
  now constructor.
Qed.

Lemma consistent_restore_client (r : Client.t) : preserves consistent (restore_client r).
Proof.
  open_consistent. unfold restore_client, insert_row, insert_with_id.
  destruct (rowid_ok _); [|close_consistent].
  cbn [clients foreign_keys parent_ok negb andb].
  destruct (has_rowid Client.id _ (rows c)) eqn:Free; [close_consistent|].
  close_consistent.
  - now apply place_increasing.
  - eapply Forall_parent_ok_mono; [|exact Rs].
    cbn [clients rows set_clients]. intros y. apply has_rowid_place.
  - eapply Forall_parent_ok_mono; [|exact Rp].
    cbn [clients rows set_clients]. intros y. apply has_rowid_place.
  - eapply Forall_parent_ok_mono; [|exact Rt].
    cbn [clients rows set_clients]. intros y. apply has_rowid_place.
  - eapply Forall_parent_ok_mono; [|exact Rx].
    cbn [clients rows set_clients]. intros y. apply has_rowid_place.
Qed.

Lemma consistent_restore_service (r : Service.t) : preserves consistent (restore_service r).
Proof.
  open_consistent. unfold restore_service, insert_row, insert_with_id.
  destruct (rowid_ok _); [|close_consistent].
  cbn [services foreign_keys andb].
  destruct (has_rowid Service.id _ (rows s)) eqn:Free; [close_consistent|].
  destruct (parent_ok (mkDb true c s p t x) _) eqn:Par; cbn [negb];
    [|close_consistent].
  close_consistent.
  - now apply place_increasing.
  - now apply Forall_place.
Qed.

Lemma consistent_restore_payment (r : Payment.t) : preserves consistent (restore_payment r).
Proof.
  open_consistent. unfold restore_payment, insert_row, insert_with_id.
  destruct (rowid_ok _); [|close_consistent].
  cbn [payments foreign_keys andb].
  destruct (has_rowid Payment.id _ (rows p)) eqn:Free; [close_consistent|].
  destruct (parent_ok (mkDb true c s p t x) _) eqn:Par; cbn [negb];
    [|close_consistent].
  close_consistent.
  - now apply place_increasing.
  - now apply Forall_place.
Qed.

Lemma consistent_restore_task (r : Task.t) : preserves consistent (restore_task r).
Proof.
  open_consistent. unfold restore_task, insert_row, insert_with_id.
  destruct (rowid_ok _); [|close_consistent].
  cbn [tasks foreign_keys andb].
  destruct (has_rowid Task.id _ (rows t)) eqn:Free; [close_consistent|].
  destruct (parent_ok (mkDb true c s p t x) _) eqn:Par; cbn [negb];
    [|close_consistent].
  close_consistent.
  - now apply place_increasing.
  - now apply Forall_place.
Qed.

Create HintDb consistency.

#[local] Hint Resolve preserves_ret preserves_throw preserves_transaction
  consistent_insert_client consistent_insert_service consistent_insert_payment
  consistent_insert_transaction consistent_insert_task consistent_update_client
  consistent_delete_services_of consistent_delete_clients consistent_update_payment
  consistent_delete_all_tasks consistent_delete_all_payments consistent_delete_all_services
  consistent_update_task_status consistent_delete_task consistent_restore_client
  consistent_restore_service consistent_restore_payment consistent_restore_task
  : consistency.

Ltac statement_by_statement :=
  repeat first
    [ apply preserves_transaction
    | apply preserves_bind; [|intros ?]
    | apply preserves_for_of; intros ?
    | solve [auto with consistency] ].

Lemma consistent_insertClient (now : string) (b : PostClients.body) :
  preserves consistent (insertClient now b).
Proof.
  unfold insertClient. statement_by_statement.
  destruct (PostClients.services b); statement_by_statement.
Qed.

Lemma consistent_updateClient (clientId : Z) (b : PatchClients.body) :
  preserves consistent (updateClient clientId b).
Proof.
  unfold updateClient. statement_by_statement.
  destruct (PatchClients.services b); statement_by_statement.
Qed.

Lemma consistent_updatePayment (now : string) (clientId : Z) (payment : Payment.t)
    (b : PatchPayments.body) :
  preserves consistent (updatePayment now clientId payment b).
Proof.
  unfold updatePayment. statement_by_statement.
  destruct (PatchPayments.amount_added b) as [amount|]; [|statement_by_statement].
  destruct (truthy amount && above_zero amount); statement_by_statement.
Qed.

Lemma consistent_restore (b : Backup.t) : preserves consistent (restore b).
Proof. unfold restore. statement_by_statement. Qed.

Lemma consistent_handle (r : Request) (db : Db) : consistent db -> consistent (handle r db).
Proof.
  intros H. destruct r; cbn [handle];
    unfold post_api_clients, delete_api_clients, patch_api_clients, post_api_tasks,
      patch_api_tasks, delete_api_tasks, post_api_restore.
  - apply preserves_try_catch; [apply consistent_insertClient | exact H].
  - apply preserves_try_catch; [apply consistent_delete_clients | exact H].
  - apply preserves_try_catch; [apply consistent_updateClient | exact H].
  - unfold patch_api_payments. destruct (select_payment clientId db); [|exact H].
    apply preserves_try_catch; [apply consistent_updatePayment | exact H].
  - apply preserves_try_catch; [apply consistent_insert_task | exact H].
  - apply preserves_try_catch; [apply consistent_update_task_status | exact H].
  - apply preserves_try_catch; [apply consistent_delete_task | exact H].
  - apply preserves_try_catch; [apply consistent_restore | exact H].
Qed.

(** X1: every state the server reaches from a fresh database, by any
    sequence of the eight writing requests, whether they succeed or fail, has
    the foreign keys enforced, each of its five tables in strictly increasing
    id order, and no service, payment, task or ledger row whose client_id
    names a missing client. *)
Theorem reachable_consistent (db : Db) : reachable db -> consistent db.
Proof.
  induction 1 as [|r db _ IH].
  - unfold consistent, increasing, references_ok. cbn. repeat split; constructor.
  - now apply consistent_handle.
Qed.

Lemma consistent_well_formed (db : Db) : consistent db -> well_formed db.
Proof.
  intros [FK [Ic [Is [Ip [It [_ R]]]]]].
  unfold well_formed, referential_integrity. auto.
Qed.

(** * Further properties of the handlers *)

(** ** Statements that match no row *)

Lemma table_eta {R : Type} (t : Table R) : mkTable (rows t) (seq t) = t.
Proof. now destruct t. Qed.

Lemma has_rowid_false {R : Type} (rowid : R -> Z) (i : Z) (l : list R) :
  has_rowid rowid i l = false <-> forall r, In r l -> rowid r <> i.
Proof.
  split.
  - intros H r Hr E.
    assert (T : has_rowid rowid i l = true) by (apply has_rowid_true; now exists r).
    congruence.
  - intros H. destruct (has_rowid rowid i l) eqn:E; [|reflexivity].
    apply has_rowid_true in E. destruct E as [r [Hr E]]. now elim (H r Hr).
Qed.

Lemma filter_keeps_all {R : Type} (p : R -> bool) (l : list R) :
  (forall r, In r l -> p r = true) -> filter p l = l.
Proof.
  induction l as [|x l IH]; intros H; [reflexivity|].
  cbn [filter]. rewrite (H x (or_introl eq_refl)). f_equal.
  apply IH. intros r Hr. apply H. now right.
Qed.

Lemma filter_keeps_none {R : Type} (p : R -> bool) (l : list R) :
  (forall r, In r l -> p r = false) -> filter p l = [].
Proof.
  induction l as [|x l IH]; intros H; [reflexivity|].
  cbn [filter]. rewrite (H x (or_introl eq_refl)).
  apply IH. intros r Hr. apply H. now right.
Qed.

Lemma update_none {R : Type} (p : R -> bool) (f : R -> R) (l : list R) :
  (forall r, In r l -> p r = false) -> map (fun r => if p r then f r else r) l = l.
Proof.
  induction l as [|x l IH]; intros H; [reflexivity|].
  cbn [map]. rewrite (H x (or_introl eq_refl)). f_equal.
  apply IH. intros r Hr. apply H. now right.
Qed.

Lemma delete_where_none {R : Type} (p : R -> bool) (t : Table R) :
  (forall r, In r (rows t) -> p r = false) -> delete_where p t = t.
Proof.
  intros H. unfold delete_where. rewrite filter_keeps_all; [apply table_eta|].
  intros r Hr. now rewrite (H r Hr).
Qed.

Lemma update_where_none {R : Type} (p : R -> bool) (f : R -> R) (t : Table R) :
  (forall r, In r (rows t) -> p r = false) -> update_where p f t = t.
Proof.
  intros H. unfold update_where. rewrite update_none; [apply table_eta | exact H].
Qed.

(** ** POST /api/tasks *)


(** ** PATCH /api/tasks/:id *)

(** X3: PATCH /api/tasks/:id always answers success, also for an id no task
    has, and then the database is unchanged.  It keeps the number and order
    of the tasks, writes the new status on every task of that id and leaves
    every other field and every other task as they were. *)
Theorem patch_api_tasks_sets_status (id : Z) (status : option string) (db : Db) :
  let res := patch_api_tasks id status db in
  fst res = Json 200 success_true /\
  map Task.id (rows (tasks (snd res))) = map Task.id (rows (tasks db)) /\
  (forall k, In k (rows (tasks (snd res))) -> Task.id k = id -> Task.status k = status) /\
  (forall k, Task.id k <> id ->
             (In k (rows (tasks (snd res))) <-> In k (rows (tasks db)))) /\
  (forall k, In k (rows (tasks db)) ->
             exists k', In k' (rows (tasks (snd res))) /\
                        Task.id k' = Task.id k /\ Task.client_id k' = Task.client_id k /\
                        Task.title k' = Task.title k /\
                        Task.assigned_to k' = Task.assigned_to k /\
                        Task.due_date k' = Task.due_date k /\
                        Task.created_at k' = Task.created_at k) /\
  (has_rowid Task.id id (rows (tasks db)) = false -> snd res = db) /\
  clients (snd res) = clients db /\
  services (snd res) = services db /\
  payments (snd res) = payments db /\
  transactions (snd res) = transactions db.
Proof.
  intros res. subst res.
  unfold patch_api_tasks, try_catch, update_task_status. cbn [fst snd].
  set (f := fun k => Task.mk (Task.id k) (Task.client_id k) (Task.title k)
                       (Task.assigned_to k) (Task.due_date k) status (Task.created_at k)).
  cbn [tasks set_tasks update_where rows clients services payments transactions].
  split; [reflexivity|]. split; [|split; [|split; [|split; [|split]]]].
  - rewrite map_map. apply map_ext. intros k. now destruct (Task.id k =? id).
  - intros k Hk E. apply in_map_iff in Hk. destruct Hk as [k0 [<- _]].
    destruct (Task.id k0 =? id) eqn:T; [reflexivity|].
    apply Z.eqb_neq in T. now elim T.
  - intros k Hne. rewrite in_map_iff. split.
    + intros [k0 [E Hk0]]. destruct (Task.id k0 =? id) eqn:T.
      * apply Z.eqb_eq in T. subst k. now elim Hne.
      * now subst k.
    + intros Hk. exists k. split; [|exact Hk].
      apply Z.eqb_neq in Hne. now rewrite Hne.
  - intros k Hk. exists (if Task.id k =? id then f k else k). split.
    + apply in_map_iff. now exists k.
    + destruct (Task.id k =? id); repeat split.
  - intros H. rewrite update_where_none; [apply set_tasks_same|].
    intros k Hk. apply Z.eqb_neq. now apply (proj1 (has_rowid_false Task.id id _) H).
  - repeat split.
Qed.

(** ** DELETE /api/tasks/:id *)

(** X4: DELETE /api/tasks/:id always answers 204.  Afterwards no task has
    that id, every other task is still there in its place, and no other
    table has changed; for an id no task has the database is unchanged, so
    a second DELETE of the same id changes nothing. *)
Theorem delete_api_tasks_removes (id : Z) (db : Db) :
  let res := delete_api_tasks id db in
  fst res = NoContent /\
  rows (tasks (snd res)) = filter (fun k => negb (Task.id k =? id)) (rows (tasks db)) /\
  has_rowid Task.id id (rows (tasks (snd res))) = false /\
  (has_rowid Task.id id (rows (tasks db)) = false -> snd res = db) /\
  snd (delete_api_tasks id (snd res)) = snd res /\
  clients (snd res) = clients db /\
  services (snd res) = services db /\
  payments (snd res) = payments db /\
  transactions (snd res) = transactions db.
Proof.
  intros res. subst res.
  assert (Gone : forall d, has_rowid Task.id id (rows (tasks (snd (delete_api_tasks id d))))
                           = false).
  { intros d. apply has_rowid_false. intros r Hr E.
    unfold delete_api_tasks, try_catch, delete_task in Hr.
    cbn [fst snd tasks set_tasks delete_where rows] in Hr.
    apply filter_In in Hr. destruct Hr as [_ Hn].
    rewrite E, Z.eqb_refl in Hn. discriminate. }
  assert (Same : forall d, has_rowid Task.id id (rows (tasks d)) = false ->
                           snd (delete_api_tasks id d) = d).
  { intros d H. unfold delete_api_tasks, try_catch, delete_task. cbn [snd].
    rewrite delete_where_none; [apply set_tasks_same|].
    intros k Hk. apply Z.eqb_neq. now apply (proj1 (has_rowid_false Task.id id _) H). }
  split; [reflexivity|]. split; [reflexivity|]. split; [apply Gone|].
  split; [apply Same|]. split; [apply Same, Gone|].
  repeat split.
Qed.

(** ** ORDER BY keeps the rows; a join on a key finds one row *)

Lemma insert_by_permutation {R : Type} (before : R -> R -> bool) (x : R) (l : list R) :
  Permutation (insert_by before x l) (x :: l).
Proof.
  induction l as [|y l IH]; cbn [insert_by]; [reflexivity|].
  destruct (before x y); [reflexivity|].
  rewrite IH. apply perm_swap.
Qed.

Lemma order_by_permutation {R : Type} (before : R -> R -> bool) (l : list R) :
  Permutation (order_by before l) l.
Proof.
  induction l as [|x l IH]; cbn [order_by fold_right]; [reflexivity|].
  fold (order_by before l). rewrite insert_by_permutation. now constructor.
Qed.

Lemma filter_never {R : Type} (l : list R) : filter (fun _ => false) l = [].
Proof. induction l; auto. Qed.

(** With the ids distinct, [WHERE id = x] finds no row or one. *)
Lemma filter_by_key (cs : list Client.t) (x : Z) :
  increasing Client.id cs ->
  (has_rowid Client.id x cs = false /\ filter (fun c => x =? Client.id c) cs = []) \/
  (exists c, In c cs /\ Client.id c = x /\ filter (fun c => x =? Client.id c) cs = [c]).
Proof.
  unfold increasing. induction 1 as [|c cs Hs IH Hc].
  - left. split; reflexivity.
  - cbn [filter has_rowid existsb]. destruct (Z.eqb_spec x (Client.id c)) as [E|E].
    + right. exists c. split; [now left|]. split; [now symmetry|]. f_equal.
      apply filter_keeps_none. rewrite Forall_forall in Hc.
      intros r Hr. apply Z.eqb_neq. specialize (Hc r Hr). lia.
    + assert (E' : (Client.id c =? x) = false) by (apply Z.eqb_neq; congruence).
      rewrite E'. cbn [orb].
      destruct IH as [[H1 H2]|[c' [H1 [H2 H3]]]].
      * left. now split.
      * right. exists c'. split; [now right|]. now split.
Qed.

(** ** GET /api/tasks without a clientId *)

Lemma join_clients_tasks (db : Db) (ts : list Task.t) :
  increasing Client.id (rows (clients db)) ->
  map TaskRow.task (join_clients db ts)
  = filter (fun k => names_client db (Task.client_id k)) ts.
Proof.
  intros Hinc. unfold join_clients.
  induction ts as [|k ts IH]; [reflexivity|].
  cbn [flat_map filter]. rewrite map_app, IH. clear IH.
  destruct (Task.client_id k) as [x|]; cbn [eq_col names_client].
  - destruct (filter_by_key (rows (clients db)) x Hinc) as [[H1 H2]|[c [_ [_ H2]]]].
    + rewrite H2, H1. reflexivity.
    + rewrite H2. cbn [map app TaskRow.task].
      assert (T : has_rowid Client.id x (rows (clients db)) = true).
      { apply has_rowid_true.
        assert (Hin : In c (filter (fun c => x =? Client.id c) (rows (clients db))))
          by (rewrite H2; now left).
        apply filter_In in Hin. destruct Hin as [Hin E]. apply Z.eqb_eq in E.
        exists c. now split. }
      now rewrite T.
  - rewrite filter_never. reflexivity.
Qed.

(** X5: GET /api/tasks without a clientId lists a task exactly when its
    client_id names a client, with that client's name: a task whose
    client_id is NULL is never listed.  The list is ordered by the due date
    the column holds (NULL first, then the numbers by value, then the texts
    byte by byte), then by creation time descending, and when the client ids
    are distinct every such task is listed once. *)
Theorem get_api_tasks_all (db : Db) :
  let out := get_api_tasks None db in
  (forall r,
     In r out <->
     In (TaskRow.task r) (rows (tasks db)) /\
     exists c, In c (rows (clients db)) /\
               Task.client_id (TaskRow.task r) = Some (Client.id c) /\
               TaskRow.client_name r = Client.name c) /\
  (forall r, In r out -> Task.client_id (TaskRow.task r) <> None) /\
  StronglySorted due_order out /\
  (increasing Client.id (rows (clients db)) ->
   Permutation (map TaskRow.task out)
     (filter (fun k => names_client db (Task.client_id k)) (rows (tasks db)))).
Proof.
  intros out. subst out. unfold get_api_tasks.
  assert (M : forall r,
     In r (order_by tasks_order (join_clients db (rows (tasks db)))) <->
     In (TaskRow.task r) (rows (tasks db)) /\
     exists c, In c (rows (clients db)) /\
               Task.client_id (TaskRow.task r) = Some (Client.id c) /\
               TaskRow.client_name r = Client.name c)
    by (intros r; now rewrite in_order_by, in_join_clients).
  split; [exact M|]. split; [|split].
  - intros r Hr. apply M in Hr. destruct Hr as [_ [c [_ [E _]]]]. congruence.
  - apply strongly_sorted_impl with (P := fun a b => tasks_order a b = true).
    + intros a b. apply tasks_order_due_order.
    + apply order_by_sorted; [apply tasks_order_total | apply tasks_order_trans].
  - intros Hinc. rewrite <- (join_clients_tasks db _ Hinc).
    apply Permutation_map, order_by_permutation.
Qed.

(** ** GET /api/clients: the rows and their order *)

Lemma not_before_iff (a b : option string) : compare_text b a <> Gt <-> not_before a b.
Proof.
  unfold not_before. destruct a as [u|], b as [v|]; cbn [compare_text].
  - unfold String.leb. destruct (String.compare v u); split; congruence.
  - split; [trivial | discriminate].
  - split; [intros H; now elim H | intros []].
  - split; [trivial | discriminate].
Qed.

Section NewestFirst.

Context {R : Type}.

Variable created : R -> option string.

Lemma newest_first_true (a b : R) :
  newest_first created a b = true <-> not_before (created a) (created b).
Proof.
  rewrite <- not_before_iff. unfold newest_first.
  destruct (compare_text (created b) (created a)); split; congruence.
Qed.

Lemma newest_first_total (a b : R) : newest_first created a b = false -> newest_first created b a = true.
Proof.
  unfold newest_first. rewrite (compare_text_antisym (created a)).
  destruct (compare_text (created b) (created a)); cbn [CompOpp]; congruence.
Qed.

Lemma newest_first_trans (a b c : R) :
  newest_first created a b = true -> newest_first created b c = true -> newest_first created a c = true.
Proof.
  unfold newest_first. intros H1 H2.
  assert (L : compare_text (created c) (created a) <> Gt).
  { apply compare_text_le_trans with (created b).
    - destruct (compare_text (created c) (created b)); congruence.
    - destruct (compare_text (created b) (created a)); congruence. }
  destruct (compare_text (created c) (created a)); congruence.
Qed.

Lemma order_by_newest_first (l : list R) :
  StronglySorted (fun a b => not_before (created a) (created b))
    (order_by (newest_first created) l).
Proof.
  apply strongly_sorted_impl with (P := fun a b => newest_first created a b = true).
  - intros a b. apply newest_first_true.
  - apply order_by_sorted; [apply newest_first_total | apply newest_first_trans].
Qed.

End NewestFirst.

(** The same for a column of values. *)
Section NewestValueFirst.

Context {R : Type}.

Variable created : R -> option Value.

Lemma newest_value_true (a b : R) :
  newest_value_first created a b = true <-> value_le (created b) (created a).
Proof.
  rewrite <- compare_value_le. unfold newest_value_first.
  destruct (compare_value (created b) (created a)); split; congruence.
Qed.

Lemma newest_value_total (a b : R) :
  newest_value_first created a b = false -> newest_value_first created b a = true.
Proof.
  unfold newest_value_first. rewrite (compare_value_antisym (created a)).
  destruct (compare_value (created b) (created a)); cbn [CompOpp]; congruence.
Qed.

Lemma newest_value_trans (a b c : R) :
  newest_value_first created a b = true -> newest_value_first created b c = true ->
  newest_value_first created a c = true.
Proof.
  unfold newest_value_first. intros H1 H2.
  assert (L : compare_value (created c) (created a) <> Gt).
  { apply compare_value_le_trans with (created b).
    - destruct (compare_value (created c) (created b)); congruence.
    - destruct (compare_value (created b) (created a)); congruence. }
  destruct (compare_value (created c) (created a)); congruence.
Qed.

Lemma order_by_newest_value (l : list R) :
  StronglySorted (fun a b => value_le (created b) (created a))
    (order_by (newest_value_first created) l).
Proof.
  apply strongly_sorted_impl with (P := fun a b => newest_value_first created a b = true).
  - intros a b. apply newest_value_true.
  - apply order_by_sorted; [apply newest_value_total | apply newest_value_trans].
Qed.

End NewestValueFirst.

Lemma strongly_sorted_map {A B : Type} (f : A -> B) (P : B -> B -> Prop) (l : list A) :
  StronglySorted (fun a b => P (f a) (f b)) l -> StronglySorted P (map f l).
Proof.
  induction 1 as [|x l Hs IH Hx]; cbn [map]; constructor; [exact IH|].
  rewrite Forall_forall in *. intros y Hy. apply in_map_iff in Hy.
  destruct Hy as [z [<- Hz]]. now apply Hx.
Qed.

Lemma left_join_payments_clients (db : Db) (cs : list Client.t) :
  map fst (left_join_payments db cs) = flat_map (fun c => repeat c (listed_times db c)) cs.
Proof.
  unfold left_join_payments, listed_times, payments_of.
  induction cs as [|c cs IH]; [reflexivity|].
  cbn [flat_map]. rewrite map_app, IH. f_equal.
  destruct (filter _ (rows (payments db))) as [|p ps]; [reflexivity|].
  change (Nat.max 1 (List.length (p :: ps))) with (S (List.length ps)).
  rewrite map_map. cbn [map fst repeat]. f_equal.
  induction ps as [|q ps IHp]; [reflexivity|]. cbn [map List.length repeat]. now rewrite IHp.
Qed.

Lemma in_left_join_payments_row (db : Db) (cs : list Client.t)
    (cp : Client.t * option Payment.t) :
  In cp (left_join_payments db cs) ->
  match snd cp with
  | None => payments_of db (Client.id (fst cp)) = []
  | Some p => In p (payments_of db (Client.id (fst cp)))
  end.
Proof.
  unfold left_join_payments. rewrite in_flat_map. intros [c [_ Hin]].
  fold (payments_of db (Client.id c)) in Hin.
  destruct (payments_of db (Client.id c)) as [|p ps] eqn:E.
  - destruct Hin as [<-|[]]. exact E.
  - apply in_map_iff in Hin. destruct Hin as [q [<- Hq]]. cbn [fst snd]. now rewrite E.
Qed.

(** X6: GET /api/clients lists every client once for each payment row that
    names it and once when none does, so a client with two payment rows is
    listed twice.  The rows come by the created_at the column holds,
    descending: the texts first, the later first byte by byte, then the
    numbers, the larger first, and a NULL creation time last; the money
    fields of a row are those of one payment row of its client, or all NULL
    when it has none. *)
Theorem get_api_clients_rows (db : Db) :
  let out := get_api_clients db in
  Permutation (map ClientRow.client out)
    (flat_map (fun c => repeat c (listed_times db c)) (rows (clients db))) /\
  StronglySorted
    (fun a b => value_le (Client.created_at (ClientRow.client b))
                  (Client.created_at (ClientRow.client a))) out /\
  (forall r, In r out ->
     (payments_of db (Client.id (ClientRow.client r)) = [] /\
      ClientRow.total_amount r = None /\ ClientRow.advance_paid r = None /\
      ClientRow.remaining_balance r = None) \/
     (exists p, In p (payments_of db (Client.id (ClientRow.client r))) /\
                ClientRow.total_amount r = Payment.total_amount p /\
                ClientRow.advance_paid r = Payment.advance_paid p /\
                ClientRow.remaining_balance r = Payment.remaining_balance p)).
Proof.
  intros out. subst out. unfold get_api_clients.
  set (F := fun cp : Client.t * option Payment.t => ClientRow.mk (fst cp) _ _ _ _ _).
  split; [|split].
  - rewrite map_map.
    rewrite (map_ext (fun cp => ClientRow.client (F cp)) fst) by reflexivity.
    rewrite <- left_join_payments_clients.
    apply Permutation_map, order_by_permutation.
  - apply strongly_sorted_map
      with (f := F)
           (P := fun a b => value_le (Client.created_at (ClientRow.client b))
                              (Client.created_at (ClientRow.client a))).
    exact (order_by_newest_value (fun cp => Client.created_at (fst cp)) _).
  - intros r Hr. apply in_map_iff in Hr. destruct Hr as [[c p] [<- Hin]].
    apply in_order_by, in_left_join_payments_row in Hin. cbn [fst snd] in Hin.
    subst F. cbn [ClientRow.client ClientRow.total_amount ClientRow.advance_paid
                  ClientRow.remaining_balance fst snd payment_column].
    destruct p as [p|].
    + right. exists p. repeat split. exact Hin.
    + left. repeat split. exact Hin.
Qed.

(** ** The pending_tasks column of GET /api/clients *)

Lemma pending_tasks_of_count (db : Db) (c : Z) :
  pending_tasks_of db c = Z.of_nat (List.length (filter (is_pending_of c) (rows (tasks db)))).
Proof. reflexivity. Qed.

Lemma get_api_clients_pending (db : Db) (r : ClientRow.t) :
  In r (get_api_clients db) ->
  ClientRow.pending_tasks r = pending_tasks_of db (Client.id (ClientRow.client r)).
Proof.
  unfold get_api_clients. rewrite in_map_iff. intros [cp [<- _]]. reflexivity.
Qed.

(** X7: a POST /api/tasks that answers 201 raises by one the pending_tasks
    that GET /api/clients shows for the client the task names, and leaves
    the pending_tasks of every other client as it was. *)
Theorem post_api_tasks_pending (now : string) (b : PostTasks.body) (db : Db) (id : Z) :
  fst (post_api_tasks now b db) = Json 201 id ->
  let db' := snd (post_api_tasks now b db) in
  (forall c, pending_tasks_of db' c
             = pending_tasks_of db c + (if eq_col (PostTasks.client_id b) c then 1 else 0)) /\
  (forall r, In r (get_api_clients db') ->
     ClientRow.pending_tasks r
     = pending_tasks_of db (Client.id (ClientRow.client r))
       + (if eq_col (PostTasks.client_id b) (Client.id (ClientRow.client r)) then 1 else 0)).
Proof.
  intros Hok db'.
  assert (P : forall c, pending_tasks_of db' c
             = pending_tasks_of db c + (if eq_col (PostTasks.client_id b) c then 1 else 0)).
  { intros c. subst db'. revert Hok.
    unfold post_api_tasks, try_catch, insert_task.
    destruct (PostTasks.title b) as [title|]; [|discriminate].
    destruct (foreign_keys db && negb (parent_ok db (PostTasks.client_id b)));
      [discriminate|].
    cbn [insert_auto fst snd]. intros _.
    rewrite !pending_tasks_of_count. cbn [tasks set_tasks rows].
    rewrite filter_app, length_app, Nat2Z.inj_add. f_equal.
    cbn [filter]. unfold is_pending_of. cbn [Task.client_id Task.status].
    now destruct (eq_col (PostTasks.client_id b) c). }
  split; [exact P|].
  intros r Hr. rewrite (get_api_clients_pending _ _ Hr). apply P.
Qed.

Lemma count_after_update {R : Type} (rowid : R -> Z) (q : R -> bool) (f : R -> R)
    (i : Z) (k : R) (l : list R) :
  increasing rowid l -> In k l -> rowid k = i -> q k = true -> q (f k) = false ->
  List.length (filter q l)
  = S (List.length (filter q (map (fun r => if rowid r =? i then f r else r) l))).
Proof.
  intros Hs Hk Hi Hq Hf. unfold increasing in Hs.
  induction Hs as [|x l Hs IH Hx]; [destruct Hk|].
  cbn [map filter]. destruct Hk as [->|Hk].
  - rewrite Hi, Z.eqb_refl, Hq, Hf. cbn [List.length]. f_equal.
    rewrite update_none; [reflexivity|].
    intros r Hr. apply Z.eqb_neq. rewrite Forall_forall in Hx.
    specialize (Hx r Hr). lia.
  - assert (Ne : (rowid x =? i) = false).
    { apply Z.eqb_neq. rewrite Forall_forall in Hx. specialize (Hx k Hk). lia. }
    rewrite Ne. destruct (q x); cbn [List.length]; rewrite (IH Hk); reflexivity.
Qed.

(** X8: when the task ids are distinct, a PATCH /api/tasks/:id that moves a
    pending task of a client to another status lowers that client's
    pending_tasks by one. *)
Theorem patch_api_tasks_pending (id : Z) (status : option string) (db : Db)
    (k : Task.t) (c : Z) :
  increasing Task.id (rows (tasks db)) ->
  In k (rows (tasks db)) -> Task.id k = id ->
  Task.client_id k = Some c -> Task.status k = Some "pending"%string ->
  status <> Some "pending"%string ->
  pending_tasks_of (snd (patch_api_tasks id status db)) c = pending_tasks_of db c - 1.
Proof.
  intros Hs Hk Hi Hc Hst Hne.
  rewrite !pending_tasks_of_count.
  unfold patch_api_tasks, try_catch, update_task_status.
  cbn [snd tasks set_tasks update_where rows].
  rewrite (count_after_update Task.id (is_pending_of c)
             (fun k => Task.mk (Task.id k) (Task.client_id k) (Task.title k)
                         (Task.assigned_to k) (Task.due_date k) status (Task.created_at k))
             id k (rows (tasks db)) Hs Hk Hi).
  - lia.
  - unfold is_pending_of. rewrite Hc, Hst. cbn [eq_col]. now rewrite Z.eqb_refl.
  - unfold is_pending_of. cbn [Task.client_id Task.status].
    destruct status as [s|]; [|apply andb_false_r].
    destruct (String.eqb_spec s "pending"); [subst; now elim Hne | apply andb_false_r].
Qed.
(** ** GET /api/stats: the first month, the client count *)

(** A CURRENT_TIMESTAMP text of a day compares below the ISO text of the
    same day: the space after the date is below the letter T. *)
Lemma timestamp_below_iso (day time rest : string) :
  ((day ++ " " ++ time) <? (day ++ "T" ++ rest))%string = true.
Proof.
  apply string_ltb_lt. induction day as [|c day IH]; [reflexivity|].
  cbn [append String.compare]. now rewrite ascii_compare_refl.
Qed.

(** X10: GET /api/stats counts a client into the previous totals when its
    stored created_at compares below the bound as SQLite compares: a number
    is below every text, texts compare byte by byte, NULL is never below.
    When every client's created_at is NULL or a text that is not below the
    bound (so also when there is no client) and SUM over no rows is NULL,
    both trends are "+100%", whatever the current totals are.  The
    comparison is one of texts, not of times: a created_at of the form
    'day time' is below every bound 'dayT...' of the same day, so a client
    created on the first day of the month counts into the previous totals. *)
Theorem get_api_stats_first_month (firstDayCurrentMonth : string) (db : Db) :
  sql_sum [] = None ->
  (forall c, In c (rows (clients db)) ->
     match Client.created_at c with
     | None => True
     | Some (Text t) => (t <? firstDayCurrentMonth)%string = false
     | Some _ => False
     end) ->
  (exists st,
     get_api_stats firstDayCurrentMonth db = Json 200 st /\
     Stats.revenue_trend st = "+100%"%string /\
     Stats.received_trend st = "+100%"%string) /\
  (forall day time rest c,
     Client.created_at c = Some (Text (day ++ " " ++ time)) ->
     created_before (day ++ "T" ++ rest) c = true).
Proof.
  intros Hsum H. split.
  - assert (H' : forall c, In c (rows (clients db)) ->
                           created_before firstDayCurrentMonth c = false).
    { intros c Hc. specialize (H c Hc). unfold created_before.
      destruct (Client.created_at c) as [[i|r|t]|];
        first [exact H | contradiction | reflexivity]. }
    eexists. split; [reflexivity|].
    cbn [Stats.revenue_trend Stats.received_trend].
    unfold prevMonthStats. rewrite (filter_keeps_none _ _ H').
    unfold left_join_payments, sum_column.
    cbn [flat_map map PrevMonthStats.total_revenue PrevMonthStats.total_received].
    rewrite Hsum. cbn [or_zero].
    split; apply calculateTrend_zero; reflexivity.
  - intros day time rest c E. unfold created_before. rewrite E.
    apply timestamp_below_iso.
Qed.

Lemma length_flat_map_repeat (db : Db) (cs : list Client.t) :
  (forall c, In c cs -> (List.length (payments_of db (Client.id c)) <= 1)%nat) ->
  List.length (flat_map (fun c => repeat c (listed_times db c)) cs) = List.length cs.
Proof.
  induction cs as [|c cs IH]; intros H; [reflexivity|].
  cbn [flat_map]. rewrite length_app, repeat_length, IH.
  - unfold listed_times. specialize (H c (or_introl eq_refl)). cbn [List.length]. lia.
  - intros x Hx. apply H. now right.
Qed.

(** X11: the clients value of GET /api/stats is the number of rows GET
    /api/clients returns: a client counts once for each of its payment
    rows.  It is the number of clients when no client has two payment
    rows. *)
Theorem get_api_stats_clients_value (firstDayCurrentMonth : string) (db : Db) :
  exists st,
    get_api_stats firstDayCurrentMonth db = Json 200 st /\
    Stats.clients_value st = Z.of_nat (List.length (get_api_clients db)) /\
    ((forall c, In c (rows (clients db)) ->
                (List.length (payments_of db (Client.id c)) <= 1)%nat) ->
     Stats.clients_value st = Z.of_nat (List.length (rows (clients db)))).
Proof.
  eexists. split; [reflexivity|].
  cbn [Stats.clients_value]. unfold currentStats. cbn [CurrentStats.total_clients].
  assert (L : List.length (left_join_payments db (rows (clients db)))
              = List.length (get_api_clients db)).
  { unfold get_api_clients. rewrite length_map.
    symmetry. apply Permutation_length, order_by_permutation. }
  split; [now rewrite L|].
  intros H. f_equal.
  rewrite <- (length_map fst), left_join_payments_clients.
  now apply length_flat_map_repeat.
Qed.

(** ** GET /api/health *)

Lemma length_filter_out_key (cs : list Client.t) (x : Z) :
  increasing Client.id cs -> has_rowid Client.id x cs = true ->
  S (List.length (filter (fun c => negb (Client.id c =? x)) cs)) = List.length cs.
Proof.
  unfold increasing. induction 1 as [|c cs Hs IH Hc]; [discriminate|].
  cbn [has_rowid existsb filter List.length].
  destruct (Client.id c =? x) eqn:E; cbn [negb orb List.length].
  - intros _. f_equal. f_equal. apply filter_keeps_all.
    intros r Hr. apply Z.eqb_eq in E. rewrite Forall_forall in Hc.
    specialize (Hc r Hr). apply negb_true_iff, Z.eqb_neq. lia.
  - intros H. f_equal. now apply IH.
Qed.

(** X12: GET /api/health always answers ok with the number of client rows;
    the number grows by one with every POST /api/clients that answers 201,
    and, the ids being distinct, falls by one with the DELETE of an
    existing client; a failed POST and the DELETE of an unknown id leave
    it. *)
Theorem get_api_health_counts (node_env : option string) (db : Db) :
  exists h,
    get_api_health node_env db = Json 200 h /\
    Health.status h = "ok"%string /\
    Health.clients h = Z.of_nat (List.length (rows (clients db))) /\
    (forall now b h',
       get_api_health node_env (snd (post_api_clients now b db)) = Json 200 h' ->
       Health.clients h' =
         Health.clients h
         + match fst (post_api_clients now b db) with Json _ _ => 1 | _ => 0 end) /\
    (forall id h',
       increasing Client.id (rows (clients db)) ->
       get_api_health node_env (snd (delete_api_clients id db)) = Json 200 h' ->
       Health.clients h' =
         Health.clients h - (if has_rowid Client.id id (rows (clients db)) then 1 else 0)).
Proof.
  eexists. split; [reflexivity|]. split; [reflexivity|]. split; [reflexivity|].
  cbn [Health.clients]. split.
  - intros now b h' [= <-]. cbn [Health.clients].
    unfold post_api_clients, try_catch.
    pose proof (insertClient_outcome now b db) as Out.
    destruct (insertClient now b db) as [[i|e] db']; cbn [fst snd].
    + destruct Out as [_ [_ [_ [n [_ [_ Hrows]]]]]].
      rewrite Hrows. cbn [rows]. rewrite length_app. cbn [List.length]. lia.
    + rewrite Out. lia.
  - intros id h' Hinc [= <-]. cbn [Health.clients].
    unfold delete_api_clients, try_catch, delete_clients. cbn [snd].
    assert (E : rows (clients
                  (if foreign_keys db
                   then cascade (map Client.id
                                   (filter (fun c => Client.id c =? id) (rows (clients db))))
                          (set_clients
                             (delete_where (fun c => Client.id c =? id) (clients db)) db)
                   else set_clients
                          (delete_where (fun c => Client.id c =? id) (clients db)) db))
                = filter (fun c => negb (Client.id c =? id)) (rows (clients db)))
      by (destruct (foreign_keys db); reflexivity).
    rewrite E.
    destruct (has_rowid Client.id id (rows (clients db))) eqn:H.
    + rewrite <- (length_filter_out_key _ id Hinc H). lia.
    + rewrite filter_keeps_all; [lia|].
      intros r Hr. apply negb_true_iff, Z.eqb_neq.
      now apply (proj1 (has_rowid_false Client.id id _) H).
Qed.

(** ** GET /api/transactions *)

Lemma in_join_ledger (db : Db) (xs : list Transaction.t) (r : TransactionRow.t) :
  In r (join_ledger db xs) <->
  In (TransactionRow.transaction r) xs /\
  exists c, In c (rows (clients db)) /\
            Transaction.client_id (TransactionRow.transaction r) = Some (Client.id c) /\
            TransactionRow.client_name r = Client.name c /\
            TransactionRow.company r = Client.company c.
Proof.
  unfold join_ledger. rewrite in_flat_map. split.
  - intros [x [Hx Hin]]. apply in_map_iff in Hin. destruct Hin as [c [<- Hc]].
    apply filter_In in Hc. destruct Hc as [Hc E]. apply eq_col_true in E.
    cbn [TransactionRow.transaction TransactionRow.client_name TransactionRow.company].
    split; [exact Hx|]. now exists c.
  - intros [Hx [c [Hc [E [N C]]]]]. exists (TransactionRow.transaction r).
    split; [exact Hx|]. apply in_map_iff. exists c. split.
    + destruct r as [x n co].
      cbn [TransactionRow.transaction TransactionRow.client_name TransactionRow.company] in *.
      now subst.
    + apply filter_In. split; [exact Hc | now apply eq_col_true].
Qed.

Lemma join_ledger_rows (db : Db) (xs : list Transaction.t) :
  increasing Client.id (rows (clients db)) ->
  map TransactionRow.transaction (join_ledger db xs)
  = filter (fun x => names_client db (Transaction.client_id x)) xs.
Proof.
  intros Hinc. unfold join_ledger.
  induction xs as [|x xs IH]; [reflexivity|].
  cbn [flat_map filter]. rewrite map_app, IH. clear IH.
  destruct (Transaction.client_id x) as [i|]; cbn [eq_col names_client].
  - destruct (filter_by_key (rows (clients db)) i Hinc) as [[H1 H2]|[c [_ [_ H2]]]].
    + rewrite H2, H1. reflexivity.
    + rewrite H2. cbn [map app TransactionRow.transaction].
      assert (T : has_rowid Client.id i (rows (clients db)) = true).
      { apply has_rowid_true.
        assert (Hin : In c (filter (fun c => i =? Client.id c) (rows (clients db))))
          by (rewrite H2; now left).
        apply filter_In in Hin. destruct Hin as [Hin E]. apply Z.eqb_eq in E.
        exists c. now split. }
      now rewrite T.
  - rewrite filter_never. reflexivity.
Qed.

(** X13: GET /api/transactions lists a ledger row exactly when its client_id
    names a client, with that client's name and company, newest first by
    created_at; when the client ids are distinct every such row is listed
    once. *)
Theorem get_api_transactions_lists (db : Db) :
  exists out,
    get_api_transactions db = Json 200 out /\
    (forall r,
       In r out <->
       In (TransactionRow.transaction r) (rows (transactions db)) /\
       exists c, In c (rows (clients db)) /\
                 Transaction.client_id (TransactionRow.transaction r) = Some (Client.id c) /\
                 TransactionRow.client_name r = Client.name c /\
                 TransactionRow.company r = Client.company c) /\
    StronglySorted
      (fun a b => not_before (Transaction.created_at (TransactionRow.transaction a))
                    (Transaction.created_at (TransactionRow.transaction b))) out /\
    (increasing Client.id (rows (clients db)) ->
     Permutation (map TransactionRow.transaction out)
       (filter (fun x => names_client db (Transaction.client_id x))
          (rows (transactions db)))).
Proof.
  eexists. split; [reflexivity|]. split; [|split].
  - intros r. now rewrite in_order_by, in_join_ledger.
  - exact (order_by_newest_first
             (fun r => Transaction.created_at (TransactionRow.transaction r)) _).
  - intros Hinc. rewrite <- (join_ledger_rows db _ Hinc).
    apply Permutation_map, order_by_permutation.
Qed.

(** X14: with the foreign keys enforced, a PATCH /api/payments/:clientId
    that answers success with a strictly positive amount_added shows in GET
    /api/transactions: the list then has an entry of that amount for that
    client, of type 'payment', under the client's name and company. *)
Theorem patch_api_payments_listed (now : string) (cid : Z) (b : PatchPayments.body)
    (db : Db) (a : number) :
  foreign_keys db = true ->
  PatchPayments.amount_added b = Some a -> above_zero a = true ->
  fst (patch_api_payments now cid b db) = Json 200 success_true ->
  exists out c,
    get_api_transactions (snd (patch_api_payments now cid b db)) = Json 200 out /\
    In c (rows (clients db)) /\ Client.id c = cid /\
    In (TransactionRow.mk
          (Transaction.mk (next_rowid Transaction.id (transactions db)) (Some cid) a
             (Some "payment"%string) (Some now))
          (Client.name c) (Client.company c))
       out.
Proof.
  intros FK Ea Ha. unfold patch_api_payments.
  destruct (select_payment cid db) as [payment|]; [|discriminate].
  unfold try_catch. rewrite updatePayment_run, Ea.
  rewrite Ha, FK. cbn [andb].
  destruct (parent_ok db (Some cid)) eqn:Par; cbn [negb fst snd]; [|discriminate].
  intros _. cbn [parent_ok] in Par. apply has_rowid_true in Par.
  destruct Par as [c [Hc Hid]].
  eexists. exists c. split; [reflexivity|]. split; [exact Hc|]. split; [exact Hid|].
  apply in_order_by, in_join_ledger.
  cbn [TransactionRow.transaction TransactionRow.client_name TransactionRow.company
       transactions set_transactions set_payments clients rows Transaction.client_id].
  split.
  - apply in_or_app. right. now left.
  - exists c. repeat split; [exact Hc | now rewrite Hid].
Qed.

(** ** PATCH and DELETE /api/clients/:id for an id no client has *)

Lemma db_eta (db : Db) :
  mkDb (foreign_keys db) (clients db) (services db) (payments db) (tasks db) (transactions db)
  = db.
Proof. now destruct db. Qed.

Lemma delete_clients_unknown (id : Z) (db : Db) :
  has_rowid Client.id id (rows (clients db)) = false ->
  delete_clients (fun c => Client.id c =? id) db = (Ok tt, db).
Proof.
  intros H. unfold delete_clients.
  assert (N : forall c, In c (rows (clients db)) -> (Client.id c =? id) = false)
    by (intros c Hc; apply Z.eqb_neq; now apply (proj1 (has_rowid_false Client.id id _) H)).
  rewrite (filter_keeps_none _ _ N). cbn [map].
  rewrite (delete_where_none _ _ N).
  f_equal. unfold cascade, set_clients, set_services, set_payments, set_tasks, set_transactions.
  cbn [foreign_keys clients services payments tasks transactions].
  rewrite (delete_where_none (fun r => in_col (Service.client_id r) []))
    by (intros r _; now destruct (Service.client_id r)).
  rewrite (delete_where_none (fun r => in_col (Payment.client_id r) []))
    by (intros r _; now destruct (Payment.client_id r)).
  rewrite (delete_where_none (fun r => in_col (Task.client_id r) []))
    by (intros r _; now destruct (Task.client_id r)).
  rewrite (delete_where_none (fun r => in_col (Transaction.client_id r) []))
    by (intros r _; now destruct (Transaction.client_id r)).
  destruct (foreign_keys db) eqn:FK; rewrite <- ?FK; apply db_eta.
Qed.

(** X15: DELETE /api/clients/:id for an id no client has answers 204 and
    leaves the database exactly as it was; after any DELETE no client has
    the id, so repeating the request changes nothing. *)
Theorem delete_api_clients_unknown (id : Z) (db : Db) :
  (has_rowid Client.id id (rows (clients db)) = false ->
   delete_api_clients id db = (NoContent, db)) /\
  has_rowid Client.id id (rows (clients (snd (delete_api_clients id db)))) = false /\
  delete_api_clients id (snd (delete_api_clients id db))
  = (NoContent, snd (delete_api_clients id db)).
Proof.
  assert (Same : forall d, has_rowid Client.id id (rows (clients d)) = false ->
                           delete_api_clients id d = (NoContent, d)).
  { intros d H. unfold delete_api_clients, try_catch.
    now rewrite (delete_clients_unknown id d H). }
  assert (Gone : has_rowid Client.id id (rows (clients (snd (delete_api_clients id db))))
                 = false).
  { apply has_rowid_false. intros r Hr E.
    unfold delete_api_clients, try_catch, delete_clients in Hr. cbn [snd] in Hr.
    assert (Hr' : In r (filter (fun c => negb (Client.id c =? id)) (rows (clients db))))
      by (destruct (foreign_keys db); exact Hr).
    apply filter_In in Hr'. destruct Hr' as [_ Hn].
    rewrite E, Z.eqb_refl in Hn. discriminate. }
  split; [apply Same|]. split; [exact Gone | apply Same, Gone].
Qed.

(** X16: PATCH /api/clients/:id for an id no client has does not answer
    404.  With a body without a services list it answers success and writes
    nothing, with or without a name; with a services list that is not
    empty, the foreign keys being enforced, it answers 500 and writes
    nothing. *)
Theorem patch_api_clients_unknown (cid : Z) (b : PatchClients.body) (db : Db) :
  has_rowid Client.id cid (rows (clients db)) = false ->
  (PatchClients.services b = None ->
   patch_api_clients cid b db = (Json 200 success_true, db)) /\
  (foreign_keys db = true ->
   forall s l, PatchClients.services b = Some (s :: l) ->
     exists e, patch_api_clients cid b db = (ServerError e, db)).
Proof.
  intros H. split.
  - intros E. unfold patch_api_clients, try_catch, updateClient, transaction, bind,
      update_client. now rewrite H, E.
  - intros FK s l E.
    unfold patch_api_clients, try_catch, updateClient, transaction.
    rewrite E. unfold bind at 1. unfold update_client at 1. rewrite H.
    unfold bind at 1. unfold delete_services_of at 1.
    cbn [for_of]. unfold bind at 1. unfold insert_service at 1.
    destruct s as [s|].
    + cbn [foreign_keys set_services parent_ok clients]. rewrite FK, H.
      cbn [andb negb]. now exists ForeignKeyConstraint.
    + now exists NotNullConstraint.
Qed.

(** ** AUTOINCREMENT: the ids of deleted clients are not handed out again *)

Lemma counter_from_keeps {A : Type} (n : Z) (m : Stmt A) :
  (forall db, clients (snd (m db)) = clients db) -> preserves (counter_from n) m.
Proof. intros H db. unfold counter_from. now rewrite H. Qed.

Lemma counter_from_insert_client (n : Z) (now : string)
    (name email phone company notes managed_by : option string) :
  preserves (counter_from n) (insert_client now name email phone company notes managed_by).
Proof.
  intros db [Hn Hall]. unfold insert_client.
  destruct name as [nm|]; cbn [snd insert_auto]; [|now split].
  unfold counter_from. cbn [clients set_clients rows seq].
  assert (L : seq (clients db) <= next_rowid Client.id (clients db))
    by (unfold next_rowid; lia).
  split; [lia|]. apply Forall_app. split.
  - eapply Forall_impl; [|exact Hall]. cbv beta. intros; lia.
  - constructor; [cbn [Client.id]; lia | constructor].
Qed.

Lemma counter_from_update_client (n : Z) (clientId : Z)
    (name email phone company notes managed_by : option string) :
  preserves (counter_from n)
    (update_client clientId name email phone company notes managed_by).
Proof.
  intros db [Hn Hall]. unfold update_client.
  destruct (has_rowid Client.id clientId (rows (clients db))); [|now split].
  destruct name as [nm|]; [|now split].
  unfold counter_from. cbn [snd clients set_clients update_where rows seq].
  split; [exact Hn|]. apply Forall_update; [|exact Hall]. now intros r Hr.
Qed.

Lemma counter_from_delete_clients (n : Z) (q : Client.t -> bool) :
  preserves (counter_from n) (delete_clients q).
Proof.
  intros db [Hn Hall]. unfold delete_clients, counter_from. cbn [snd].
  assert (E : clients
                (if foreign_keys db
                 then cascade (map Client.id (filter q (rows (clients db))))
                        (set_clients (delete_where q (clients db)) db)
                 else set_clients (delete_where q (clients db)) db)
              = delete_where q (clients db))
    by (destruct (foreign_keys db); reflexivity).
  rewrite E. cbn [delete_where rows seq]. split; [exact Hn | now apply Forall_filter].
Qed.

Lemma counter_from_restore_client (n : Z) (r : Client.t) :
  preserves (counter_from n) (restore_client r).
Proof.
  intros db [Hn Hall]. unfold restore_client, insert_row, insert_with_id.
  destruct (rowid_ok _); [|now split].
  destruct (has_rowid Client.id _ (rows (clients db))); [now split|].
  destruct (foreign_keys db && negb (parent_ok db None)); [now split|].
  unfold counter_from. cbn [snd clients set_clients rows seq].
  split; [lia|]. apply Forall_place; [lia|].
  eapply Forall_impl; [|exact Hall]. cbv beta. intros; lia.
Qed.

Ltac same_clients :=
  apply counter_from_keeps; intros db;
  repeat match goal with
         | |- context [match ?x with _ => _ end] =>
             match type of x with
             | option _ => destruct x
             | bool => destruct x
             end
         end;
  reflexivity.

Lemma counter_from_insert_service (n cid : Z) (s : option string) :
  preserves (counter_from n) (insert_service cid s).
Proof. unfold insert_service. same_clients. Qed.

Lemma counter_from_insert_payment (n : Z) (now : string) (cid : Z) (T A r : number) :
  preserves (counter_from n) (insert_payment now cid T A r).
Proof. unfold insert_payment. same_clients. Qed.

Lemma counter_from_insert_transaction (n : Z) (now : string) (cid : Z) (a : number) :
  preserves (counter_from n) (insert_transaction now cid a).
Proof. unfold insert_transaction. same_clients. Qed.

Lemma counter_from_insert_task (n : Z) (now : string) (b : PostTasks.body) :
  preserves (counter_from n) (insert_task now b).
Proof. unfold insert_task. same_clients. Qed.

Lemma counter_from_delete_services_of (n cid : Z) :
  preserves (counter_from n) (delete_services_of cid).
Proof. unfold delete_services_of. same_clients. Qed.

Lemma counter_from_update_payment (n : Z) (now : string) (A r : number) (cid : Z) :
  preserves (counter_from n) (update_payment now A r cid).
Proof. unfold update_payment. same_clients. Qed.

Lemma counter_from_delete_all_tasks (n : Z) : preserves (counter_from n) delete_all_tasks.
Proof. unfold delete_all_tasks. same_clients. Qed.

Lemma counter_from_delete_all_payments (n : Z) :
  preserves (counter_from n) delete_all_payments.
Proof. unfold delete_all_payments. same_clients. Qed.

Lemma counter_from_delete_all_services (n : Z) :
  preserves (counter_from n) delete_all_services.
Proof. unfold delete_all_services. same_clients. Qed.

Lemma counter_from_update_task_status (n : Z) (status : option string) (id : Z) :
  preserves (counter_from n) (update_task_status status id).
Proof. unfold update_task_status. same_clients. Qed.

Lemma counter_from_delete_task (n id : Z) : preserves (counter_from n) (delete_task id).
Proof. unfold delete_task. same_clients. Qed.

Lemma counter_from_restore_service (n : Z) (r : Service.t) :
  preserves (counter_from n) (restore_service r).
Proof. unfold restore_service, insert_row, insert_with_id. same_clients. Qed.

Lemma counter_from_restore_payment (n : Z) (r : Payment.t) :
  preserves (counter_from n) (restore_payment r).
Proof. unfold restore_payment, insert_row, insert_with_id. same_clients. Qed.

Lemma counter_from_restore_task (n : Z) (r : Task.t) :
  preserves (counter_from n) (restore_task r).
Proof. unfold restore_task, insert_row, insert_with_id. same_clients. Qed.

Create HintDb counters.

#[local] Hint Resolve preserves_ret preserves_throw
  counter_from_insert_client counter_from_update_client counter_from_delete_clients
  counter_from_restore_client counter_from_insert_service counter_from_insert_payment
  counter_from_insert_transaction counter_from_insert_task counter_from_delete_services_of
  counter_from_update_payment counter_from_delete_all_tasks counter_from_delete_all_payments
  counter_from_delete_all_services counter_from_update_task_status counter_from_delete_task
  counter_from_restore_service counter_from_restore_payment counter_from_restore_task
  : counters.

Ltac counters_by_statement :=
  repeat first
    [ apply preserves_transaction
    | apply preserves_bind; [|intros ?]
    | apply preserves_for_of; intros ?
    | solve [auto with counters] ].

Lemma counter_from_handle (n : Z) (r : Request) (db : Db) :
  counter_from n db -> counter_from n (handle r db).
Proof.
  intros H. destruct r; cbn [handle];
    unfold post_api_clients, delete_api_clients, patch_api_clients, post_api_tasks,
      patch_api_tasks, delete_api_tasks, post_api_restore.
  - apply preserves_try_catch; [|exact H].
    unfold insertClient. counters_by_statement.
    destruct (PostClients.services b); counters_by_statement.
  - apply preserves_try_catch; [|exact H]. counters_by_statement.
  - apply preserves_try_catch; [|exact H].
    unfold updateClient. counters_by_statement.
    destruct (PatchClients.services b); counters_by_statement.
  - unfold patch_api_payments. destruct (select_payment clientId db); [|exact H].
    apply preserves_try_catch; [|exact H].
    unfold updatePayment. counters_by_statement.
    destruct (PatchPayments.amount_added b) as [amount|]; [|counters_by_statement].
    destruct (truthy amount && above_zero amount); counters_by_statement.
  - apply preserves_try_catch; [|exact H]. counters_by_statement.
  - apply preserves_try_catch; [|exact H]. counters_by_statement.
  - apply preserves_try_catch; [|exact H]. counters_by_statement.
  - apply preserves_try_catch; [|exact H].
    unfold restore. counters_by_statement.
Qed.

Lemma counter_from_run (n : Z) (rs : list Request) (db : Db) :
  counter_from n db -> counter_from n (run rs db).
Proof.
  revert db. induction rs as [|r rs IH]; intros db H; [exact H|].
  cbn [run fold_left]. apply IH. now apply counter_from_handle.
Qed.

Lemma reachable_counter (db : Db) : reachable db -> counter_from 0 db.
Proof.
  induction 1 as [|r db _ IH].
  - split; [reflexivity | constructor].
  - now apply counter_from_handle.
Qed.

(** X17: in a state the server has reached, the id of a client that is or
    has been in the table is never given to a new client: whatever requests
    follow, deletions and restores among them, a later POST /api/clients
    that answers 201 has stored its client, the last row of the table, under
    a larger id.  The id in the answer is that id as a JavaScript number:
    the id itself as long as it is at most 2^53. *)
Theorem client_ids_not_reused (db : Db) (c : Client.t) (rs : list Request)
    (now : string) (b : PostClients.body) (id : Z) :
  reachable db ->
  In c (rows (clients db)) ->
  fst (post_api_clients now b (run rs db)) = Json 201 id ->
  exists c',
    rows (clients (snd (post_api_clients now b (run rs db)))) =
      rows (clients (run rs db)) ++ [c'] /\
    Client.id c < Client.id c' /\
    id = js_number (Client.id c') /\
    (Client.id c' <= 2 ^ 53 -> id = Client.id c').
Proof.
  intros Hr Hc Hok.
  destruct (reachable_counter db Hr) as [_ Hall].
  assert (H0 : counter_from (seq (clients db)) db) by (split; [lia | exact Hall]).
  rewrite Forall_forall in Hall. specialize (Hall c Hc).
  destruct (counter_from_run _ rs db H0) as [Hseq _].
  revert Hok. unfold post_api_clients, try_catch.
  pose proof (insertClient_outcome now b (run rs db)) as Out.
  destruct (insertClient now b (run rs db)) as [[i|e] db']; cbn [fst snd]; [|discriminate].
  intros [= <-].
  destruct Out as [Hi [_ [_ [n [_ [_ Hrows]]]]]].
  eexists. rewrite Hrows. cbn [rows]. split; [reflexivity|].
  cbn [Client.id].
  assert (L : Client.id c < next_rowid Client.id (clients (run rs db)))
    by (unfold next_rowid; lia).
  split; [exact L|]. split; [exact Hi|].
  intros H. rewrite Hi. apply js_number_exact.
  pose proof (max_rowid_nonneg Client.id (rows (clients (run rs db)))).
  unfold next_rowid in *. lia.
Qed.
(** ** POST /api/restore: when it succeeds, and what the result depends on *)


(** ** POST /api/restore: when it succeeds, and what the result depends on *)

Lemma increasing_permutation_eq {R : Type} (rowid : R -> Z) (l l' : list R) :
  increasing rowid l -> increasing rowid l' -> Permutation l l' -> l = l'.
Proof.
  unfold increasing. revert l'. induction l as [|a l IH]; intros l' S S' P.
  - symmetry. now apply Permutation_nil.
  - destruct l' as [|b l'].
    { symmetry in P. now apply Permutation_nil in P. }
    inversion S as [|? ? Sl Fa]; subst. inversion S' as [|? ? Sl' Fb]; subst.
    rewrite Forall_forall in Fa, Fb.
    assert (E : a = b).
    { assert (Ia : In a (b :: l')) by (apply (Permutation_in _ P); now left).
      assert (Ib : In b (a :: l))
        by (apply (Permutation_in _ (Permutation_sym P)); now left).
      destruct Ia as [Ia|Ia]; [now symmetry|].
      destruct Ib as [Ib|Ib]; [exact Ib|].
      specialize (Fa _ Ib). specialize (Fb _ Ia). lia. }
    subst b. f_equal. apply IH; try assumption.
    now apply Permutation_cons_inv in P.
Qed.

(** X18: for a snapshot whose rows have the columns of the tables (an
    integer id each, the NOT NULL texts present), POST /api/restore answers
    { success: true } exactly when every id lies strictly between -2^63 and
    2^63 - 1, the ids within each of the four lists are distinct and, with
    foreign keys enforced, every service, payment and task of the snapshot
    has a client_id that is NULL or the id of a client of the snapshot; in
    every other case it answers 500 and the database is as it was before. *)
Theorem post_api_restore_succeeds_iff (b : Backup.t) (db : Db) :
  (fst (post_api_restore b db) = Json 200 success_true <->
   snapshot_ok (foreign_keys db) b) /\
  (~ snapshot_ok (foreign_keys db) b ->
   (exists e, fst (post_api_restore b db) = ServerError e) /\
   snd (post_api_restore b db) = db).
Proof.
  unfold post_api_restore, try_catch.
  destruct (restore_outcome b db) as [[Ok_ [t1 [t2 [t3 [t4 [Run _]]]]]]|[Bad [e Run]]];
    rewrite Run; cbn [fst snd].
  - split; [tauto|]. intros H. now elim H.
  - split.
    + split; [discriminate|]. intros H. now elim Bad.
    + intros _. split; [now exists e|reflexivity].
Qed.

(** X19: what a successful POST /api/restore leaves in clients, services,
    payments and tasks is decided by the snapshot alone.  If the restore of a
    snapshot succeeds on one database, it succeeds on every database with the
    same foreign-key setting, whatever rows that one held, and each of the
    four tables holds the same rows in the same order in both results. *)
Theorem post_api_restore_forgets (b : Backup.t) (db db' : Db) :
  foreign_keys db' = foreign_keys db ->
  fst (post_api_restore b db) = Json 200 success_true ->
  fst (post_api_restore b db') = Json 200 success_true /\
  rows (clients (snd (post_api_restore b db'))) = rows (clients (snd (post_api_restore b db))) /\
  rows (services (snd (post_api_restore b db'))) = rows (services (snd (post_api_restore b db))) /\
  rows (payments (snd (post_api_restore b db'))) = rows (payments (snd (post_api_restore b db))) /\
  rows (tasks (snd (post_api_restore b db'))) = rows (tasks (snd (post_api_restore b db))).
Proof.
  intros FK. unfold post_api_restore, try_catch.
  destruct (restore_outcome b db)
    as [[Good [t1 [t2 [t3 [t4 [Run [P1 [S1 [P2 [S2 [P3 [S3 [P4 S4]]]]]]]]]]]]]|[_ [e Run]]];
    rewrite Run; cbn [fst snd]; [intros _|discriminate].
  destruct (restore_outcome b db')
    as [[_ [u1 [u2 [u3 [u4 [Run' [Q1 [T1 [Q2 [T2 [Q3 [T3 [Q4 T4]]]]]]]]]]]]]|[Bad _]];
    [|rewrite FK in Bad; now elim Bad].
  rewrite Run'. cbn [fst snd].
  cbn [clients services payments tasks set_clients set_services set_payments set_tasks].
  split; [reflexivity|].
  repeat split.
  - apply (increasing_permutation_eq Client.id); try assumption.
    now rewrite Q1, P1.
  - apply (increasing_permutation_eq Service.id); try assumption.
    now rewrite Q2, P2.
  - apply (increasing_permutation_eq Payment.id); try assumption.
    now rewrite Q3, P3.
  - apply (increasing_permutation_eq Task.id); try assumption.
    now rewrite Q4, P4.
Qed.

(** ** The ledger: which handlers touch the transactions table *)

Section LedgerKept.

Variable T : Table Transaction.t.

Lemma keeps_ledger {A : Type} (m : Stmt A) :
  (forall db, transactions (snd (m db)) = transactions db) ->
  preserves (fun d => transactions d = T) m.
Proof. intros H db. now rewrite H. Qed.

Ltac same_ledger :=
  apply keeps_ledger; intros db;
  repeat match goal with
         | |- context [match ?x with _ => _ end] =>
             match type of x with
             | option _ => destruct x
             | bool => destruct x
             end
         end;
  reflexivity.

Lemma ledger_insert_client (now : string)
    (name email phone company notes managed_by : option string) :
  preserves (fun d => transactions d = T)
    (insert_client now name email phone company notes managed_by).
Proof. unfold insert_client. same_ledger. Qed.

Lemma ledger_update_client (clientId : Z)
    (name email phone company notes managed_by : option string) :
  preserves (fun d => transactions d = T)
    (update_client clientId name email phone company notes managed_by).
Proof. unfold update_client. same_ledger. Qed.

Lemma ledger_insert_service (cid : Z) (s : option string) :
  preserves (fun d => transactions d = T) (insert_service cid s).
Proof. unfold insert_service. same_ledger. Qed.

Lemma ledger_insert_payment (now : string) (cid : Z) (total advance remaining : number) :
  preserves (fun d => transactions d = T) (insert_payment now cid total advance remaining).
Proof. unfold insert_payment. same_ledger. Qed.

Lemma ledger_delete_services_of (cid : Z) :
  preserves (fun d => transactions d = T) (delete_services_of cid).
Proof. unfold delete_services_of. same_ledger. Qed.

Lemma ledger_insert_task (now : string) (b : PostTasks.body) :
  preserves (fun d => transactions d = T) (insert_task now b).
Proof. unfold insert_task. same_ledger. Qed.

Lemma ledger_update_task_status (status : option string) (id : Z) :
  preserves (fun d => transactions d = T) (update_task_status status id).
Proof. unfold update_task_status. same_ledger. Qed.

Lemma ledger_delete_task (id : Z) :
  preserves (fun d => transactions d = T) (delete_task id).
Proof. unfold delete_task. same_ledger. Qed.

End LedgerKept.

Create HintDb ledger.

#[local] Hint Resolve preserves_ret preserves_throw
  ledger_insert_client ledger_update_client ledger_insert_service ledger_insert_payment
  ledger_delete_services_of ledger_insert_task ledger_update_task_status ledger_delete_task
  : ledger.

Ltac ledger_by_statement :=
  repeat first
    [ apply preserves_transaction
    | apply preserves_bind; [|intros ?]
    | apply preserves_for_of; intros ?
    | solve [auto with ledger] ].

(** X20: no handler edits a row of the transactions table.  PATCH
    /api/payments/:clientId only appends to it; DELETE /api/clients/:id and
    POST /api/restore only take rows out of it, the rest staying in their
    order; every other handler, POST /api/clients with its advance_paid among
    them, leaves the table and its counter exactly as they were. *)
Theorem ledger_never_edited (r : Request) (db : Db) :
  match r with
  | PatchPayments _ _ _ =>
      exists new, rows (transactions (handle r db)) = rows (transactions db) ++ new
  | DeleteClients _ | PostRestore _ =>
      exists keep, rows (transactions (handle r db)) = filter keep (rows (transactions db))
  | _ => transactions (handle r db) = transactions db
  end.
Proof.
  assert (All : forall l : list Transaction.t, filter (fun _ => true) l = l)
    by (intros l; apply filter_keeps_all; reflexivity).
  destruct r; cbn [handle];
    unfold post_api_clients, delete_api_clients, patch_api_clients, post_api_tasks,
      patch_api_tasks, delete_api_tasks, post_api_restore.
  - apply (preserves_try_catch (fun d => transactions d = transactions db));
      [|reflexivity].
    unfold insertClient. ledger_by_statement.
    destruct (PostClients.services b); ledger_by_statement.
  - unfold try_catch, delete_clients. cbn [snd].
    destruct (foreign_keys db).
    + eexists. reflexivity.
    + exists (fun _ => true). now rewrite All.
  - apply (preserves_try_catch (fun d => transactions d = transactions db));
      [|reflexivity].
    unfold updateClient. ledger_by_statement.
    destruct (PatchClients.services b); ledger_by_statement.
  - unfold patch_api_payments.
    destruct (select_payment clientId db) as [payment|];
      [|exists []; cbn [snd]; now rewrite app_nil_r].
    unfold try_catch. pose proof (updatePayment_run now clientId payment b db) as Run.
    cbv zeta in Run. rewrite Run.
    destruct (PatchPayments.amount_added b) as [amount|];
      [destruct (above_zero amount);
       [destruct (foreign_keys db && negb (parent_ok db (Some clientId)))|]|];
      cbn [snd transactions set_transactions set_payments rows];
      first [ now eexists | exists []; now rewrite app_nil_r ].
  - apply (preserves_try_catch (fun d => transactions d = transactions db));
      [|reflexivity].
    ledger_by_statement.
  - apply (preserves_try_catch (fun d => transactions d = transactions db));
      [|reflexivity].
    ledger_by_statement.
  - apply (preserves_try_catch (fun d => transactions d = transactions db));
      [|reflexivity].
    ledger_by_statement.
  - unfold try_catch.
    destruct (restore_outcome b db) as [[_ [t1 [t2 [t3 [t4 [Run _]]]]]]|[_ [e Run]]];
      rewrite Run; cbn [snd].
    + cbn [transactions set_tasks set_payments set_services set_clients cleared rows].
      unfold ledger_after_restore. destruct (foreign_keys db).
      * eexists. reflexivity.
      * exists (fun _ => true). now rewrite All.
    + exists (fun _ => true). now rewrite All.
Qed.

(** ** POST /api/clients, then GET /api/clients *)

Lemma filter_map_commute {A B : Type} (f : A -> B) (q : B -> bool) (l : list A) :
  filter q (map f l) = map f (filter (fun a => q (f a)) l).
Proof.
  induction l as [|a l IH]; [reflexivity|].
  cbn [map filter]. rewrite IH. now destruct (q (f a)).
Qed.

Lemma filter_permutation {A : Type} (q : A -> bool) (l l' : list A) :
  Permutation l l' -> Permutation (filter q l) (filter q l').
Proof.
  induction 1 as [|x l l' _ IH|x y l|l l' l'' _ IH1 _ IH2]; cbn [filter].
  - constructor.
  - destruct (q x); [now constructor | exact IH].
  - destruct (q x), (q y); try reflexivity. apply perm_swap.
  - now transitivity (filter q l').
Qed.

Lemma filter_nothing_found {R : Type} (p q : R -> bool) (l : list R) :
  filter p l = [] -> filter (fun r => p r && q r) l = [].
Proof.
  intros H. apply filter_keeps_none. intros r Hr.
  destruct (p r) eqn:E; [|reflexivity].
  assert (Hin : In r (filter p l)) by (apply filter_In; now split).
  rewrite H in Hin. destruct Hin.
Qed.

(** The join lists under a new key only the rows of the client that has it. *)
Lemma left_join_payments_older (db : Db) (cs : list Client.t) (id : Z) :
  Forall (fun c => Client.id c < id) cs ->
  filter (fun cp => Client.id (fst cp) =? id) (left_join_payments db cs) = [].
Proof.
  intros H. apply filter_keeps_none. intros cp Hin.
  unfold left_join_payments in Hin. apply in_flat_map in Hin.
  destruct Hin as [c [Hc Hin]]. rewrite Forall_forall in H. specialize (H c Hc).
  assert (E : fst cp = c).
  { destruct (filter _ (rows (payments db))) as [|p ps].
    - destruct Hin as [<-|[]]. reflexivity.
    - apply in_map_iff in Hin. destruct Hin as [x [<- _]]. reflexivity. }
  rewrite E. apply Z.eqb_neq. lia.
Qed.

(** X21: on a database in which no row names a missing client and whose
    next client id is at most 2^53, a POST /api/clients that answers 201
    with an id is followed by a GET /api/clients that lists the new client
    in exactly one row: the client as it was written (status 'active',
    created at the time of the request), the service types of the request
    joined by commas and split again, total_amount and advance_paid as the
    REAL columns hold what was sent, remaining_balance their difference in
    double arithmetic (NULL when that is NaN), and no pending task. *)
Theorem post_api_clients_listed (now : string) (b : PostClients.body) (db : Db) (id : Z) :
  references_ok db ->
  next_rowid Client.id (clients db) <= 2 ^ 53 ->
  fst (post_api_clients now b db) = Json 201 id ->
  exists n types,
    PostClients.name b = Some n /\
    PostClients.services b = Some (map Some types) /\
    filter (fun r => Client.id (ClientRow.client r) =? id)
      (get_api_clients (snd (post_api_clients now b db)))
    = [ClientRow.mk
         (Client.mk id n (PostClients.email b) (PostClients.phone b) (PostClients.company b)
            (PostClients.notes b) (PostClients.managed_by b) (Some "active"%string)
            (Some (Text now)))
         (services_field (group_concat types))
         (sql_real (PostClients.total_amount b))
         (sql_real (PostClients.advance_paid b))
         (sql_real (fsub (PostClients.total_amount b) (PostClients.advance_paid b)))
         0].
Proof.
  intros [Hs [Hp [Ht _]]] Hid. unfold post_api_clients, try_catch.
  pose proof (insertClient_run now b db) as Run. cbv zeta in Run.
  assert (X : js_number (next_rowid Client.id (clients db)) =
              next_rowid Client.id (clients db)).
  { apply js_number_exact.
    pose proof (max_rowid_nonneg Client.id (rows (clients db))).
    unfold next_rowid in *. lia. }
  specialize (Run X).
  destruct (PostClients.name b) as [n|]; [|rewrite Run; discriminate].
  destruct (PostClients.services b) as [l|]; [|rewrite Run; discriminate].
  destruct Run as [[_ Run]|[types [db' [-> [Run Hc]]]]]; rewrite Run; cbn [fst snd];
    [discriminate|].
  intros [= <-]. exists n, types. split; [reflexivity|]. split; [reflexivity|].
  destruct Hc as [_ [Hcl [Hsv [Hpay [Htk _]]]]].
  pose proof (fresh_key_unreferenced Service.client_id db _ Hs) as Fs.
  pose proof (fresh_key_unreferenced Payment.client_id db _ Hp) as Fp.
  pose proof (fresh_key_unreferenced Task.client_id db _ Ht) as Ft.
  clear X Hid.
  set (id := next_rowid Client.id (clients db)) in *.
  set (c := Client.mk id n _ _ _ _ _ _ _) in *.
  set (p := Payment.mk _ (Some id) _ _ _ _) in *.
  assert (Types : service_types_of db' id = types).
  { unfold service_types_of. rewrite Hsv, filter_app.
    rewrite Fs, filter_numbered_services. cbn [app]. apply map_numbered_services. }
  assert (Pay : filter (fun x => eq_col (Payment.client_id x) id) (rows (payments db')) = [p]).
  { rewrite Hpay, filter_app, Fp.
    cbn [app filter]. subst p. cbn [Payment.client_id eq_col]. now rewrite Z.eqb_refl. }
  assert (Pending : pending_tasks_of db' id = 0).
  { unfold pending_tasks_of. rewrite Htk.
    rewrite filter_nothing_found; [reflexivity | exact Ft]. }
  assert (Older : Forall (fun x => Client.id x < id) (rows (clients db))).
  { apply Forall_forall. intros x Hx. now apply (next_rowid_fresh Client.id). }
  unfold get_api_clients. rewrite filter_map_commute. cbn [ClientRow.client].
  assert (One : filter (fun cp : Client.t * option Payment.t => Client.id (fst cp) =? id)
                  (order_by clients_order (left_join_payments db' (rows (clients db'))))
                = [(c, Some p)]).
  { apply Permutation_length_1_inv. symmetry.
    rewrite (filter_permutation _ _ _ (order_by_permutation clients_order _)).
    rewrite Hcl. unfold left_join_payments at 1. rewrite flat_map_app, filter_app.
    fold (left_join_payments db' (rows (clients db))).
    rewrite (left_join_payments_older db' _ id Older).
    cbn [flat_map app]. change (Client.id c) with id. rewrite Pay.
    cbn [map app filter fst]. change (Client.id c) with id. now rewrite Z.eqb_refl. }
  rewrite One. cbn [map fst snd payment_column].
  change (Client.id c) with id. rewrite Types, Pending. reflexivity.
Qed.
(** ** GET /api/stats: the sign of a trend *)

(** *** Rounding to a double does not lose a number that is large enough *)

Lemma digits2_log2 (m : positive) : Zpos (digits2_pos m) = Z.log2 (Zpos m) + 1.
Proof.
  assert (S : forall p, digits2_pos p = Pos.size p) by (induction p; simpl; congruence).
  rewrite S. destruct m; simpl; lia.
Qed.

Lemma Zdigits2_log2 (m : Z) : 0 < m -> Zdigits2 m = Z.log2 m + 1.
Proof. destruct m; try lia. intros _. apply digits2_log2. Qed.

Lemma shr_1_m (r : shr_record) : 0 <= shr_m r -> shr_m (shr_1 r) = shr_m r / 2.
Proof.
  destruct r as [m r s]. cbn [shr_m]. intros H. unfold shr_1.
  destruct m as [|[p|p|]|p]; try lia; cbn [shr_m].
  - reflexivity.
  - rewrite Pos2Z.inj_xI. apply Z.div_unique with 1; lia.
  - rewrite Pos2Z.inj_xO. apply Z.div_unique with 0; lia.
  - reflexivity.
Qed.

Lemma iter_shr_1_m (p : positive) (r : shr_record) :
  0 <= shr_m r -> shr_m (iter_pos shr_1 p r) = shr_m r / 2 ^ Zpos p.
Proof.
  revert r. induction p as [p IH|p IH|]; intros r H; cbn [iter_pos].
  - assert (H1 : 0 <= shr_m (shr_1 r)) by (rewrite shr_1_m by exact H; now apply Z.div_pos).
    assert (H2 : 0 <= shr_m (iter_pos shr_1 p (shr_1 r)))
      by (rewrite IH by exact H1; apply Z.div_pos; [exact H1 | now apply Z.pow_pos_nonneg]).
    rewrite IH by exact H2. rewrite IH by exact H1. rewrite shr_1_m by exact H.
    assert (P : 0 < 2 ^ Zpos p) by now apply Z.pow_pos_nonneg.
    rewrite !Z.div_div by nia. f_equal.
    replace (Zpos p~1) with (1 + Zpos p + Zpos p) by lia.
    rewrite !Z.pow_add_r by lia. change (2 ^ 1) with 2. ring.
  - assert (H2 : 0 <= shr_m (iter_pos shr_1 p r))
      by (rewrite IH by exact H; apply Z.div_pos; [exact H | now apply Z.pow_pos_nonneg]).
    rewrite IH by exact H2. rewrite IH by exact H.
    assert (P : 0 < 2 ^ Zpos p) by now apply Z.pow_pos_nonneg.
    rewrite !Z.div_div by nia. f_equal.
    replace (Zpos p~0) with (Zpos p + Zpos p) by lia.
    rewrite !Z.pow_add_r by lia. ring.
  - rewrite shr_1_m by exact H. reflexivity.
Qed.

(** A shift to the right by fewer places than the number has digits keeps a
    positive number positive, and its digits less the shift. *)
Lemma shr_keeps (r : shr_record) (e n : Z) :
  0 < shr_m r -> n <= Z.log2 (shr_m r) ->
  0 < shr_m (fst (shr r e n)) /\
  Z.log2 (shr_m (fst (shr r e n))) + snd (shr r e n) = Z.log2 (shr_m r) + e /\
  (n <= 0 -> fst (shr r e n) = r /\ snd (shr r e n) = e) /\
  snd (shr r e n) = e + Z.max 0 n.
Proof.
  intros Hm Hn. unfold shr. destruct n as [|p|p]; cbn [fst snd].
  - repeat split; lia.
  - rewrite iter_shr_1_m by lia.
    assert (E : shr_m r / 2 ^ Zpos p = Z.shiftr (shr_m r) (Zpos p))
      by (now rewrite Z.shiftr_div_pow2).
    rewrite E. split; [|split; [|split]].
    + assert (N : Z.shiftr (shr_m r) (Zpos p) <> 0).
      { rewrite Z.shiftr_eq_0_iff. lia. }
      pose proof (Z.shiftr_nonneg (shr_m r) (Zpos p)). lia.
    + rewrite Z.log2_shiftr by exact Hm. lia.
    + lia.
    + lia.
  - repeat split; lia.
Qed.

Lemma fexp_double (e : Z) : fexp 53 1024 e = Z.max (e - 53) (-1074).
Proof. reflexivity. Qed.

Lemma shr_record_of_loc_m (m : Z) (l : location) : shr_m (shr_record_of_loc m l) = m.
Proof. destruct l as [|[]]; reflexivity. Qed.

Lemma round_nearest_even_bounds (m : Z) (l : location) :
  m <= round_nearest_even m l <= m + 1.
Proof. destruct l as [|[]]; cbn [round_nearest_even]; try lia. destruct (Z.even m); lia. Qed.

(** Rounding a number of at least 2^-1074 gives a finite number that is not
    zero, of the same sign and no smaller order of magnitude, or the
    infinity of that sign. *)
Lemma binary_round_aux_not_zero (sx : bool) (m ex : Z) (lx : location) :
  0 < m -> -1074 < Z.log2 m + 1 + ex ->
  (exists m' e',
     binary_round_aux 53 1024 sx m ex lx = S754_finite sx m' e' /\
     Z.log2 m + ex <= Z.log2 (Zpos m') + e') \/
  binary_round_aux 53 1024 sx m ex lx = S754_infinity sx.
Proof.
  intros Hm Hbig. unfold binary_round_aux, shr_fexp.
  rewrite (Zdigits2_log2 m Hm), fexp_double.
  set (r0 := shr_record_of_loc m lx).
  set (n := Z.max (Z.log2 m + 1 + ex - 53) (-1074) - ex).
  assert (M0 : shr_m r0 = m) by apply shr_record_of_loc_m.
  destruct (shr_keeps r0 ex n) as [P1 [L1 _]]; [lia | unfold n; rewrite M0; lia |].
  destruct (shr r0 ex n) as [r1 e1]. cbn [fst snd] in P1, L1.
  rewrite M0 in L1.
  set (m2 := round_nearest_even (shr_m r1) (loc_of_shr_record r1)).
  pose proof (round_nearest_even_bounds (shr_m r1) (loc_of_shr_record r1)) as B2.
  fold m2 in B2.
  assert (P2 : 0 < m2) by lia.
  assert (L2 : Z.log2 (shr_m r1) <= Z.log2 m2) by (apply Z.log2_le_mono; lia).
  rewrite (Zdigits2_log2 m2 P2), fexp_double.
  set (r2 := shr_record_of_loc m2 loc_Exact).
  set (n' := Z.max (Z.log2 m2 + 1 + e1 - 53) (-1074) - e1).
  assert (M2 : shr_m r2 = m2) by reflexivity.
  destruct (shr_keeps r2 e1 n') as [P3 [L3 _]]; [lia | unfold n'; rewrite M2; lia |].
  destruct (shr r2 e1 n') as [r3 e3]. cbn [fst snd] in P3, L3.
  rewrite M2 in L3.
  destruct (shr_m r3) as [|m'|m'] eqn:E3; try lia.
  destruct (e3 <=? 1024 - 53); [left | now right].
  exists m', e3. split; [reflexivity | lia].
Qed.

Lemma pos_iter_xO (m d : positive) : Zpos (Pos.iter xO m d) = Zpos m * 2 ^ Zpos d.
Proof.
  induction d as [|d IH] using Pos.peano_ind.
  - cbn [Pos.iter]. rewrite Pos2Z.inj_xO. change (2 ^ 1) with 2. ring.
  - rewrite Pos.iter_succ, Pos2Z.inj_xO, IH, Pos2Z.inj_succ, Z.pow_succ_r by lia. ring.
Qed.

(** Aligning a significand to a smaller exponent multiplies it by the power
    of two in between. *)
Lemma shl_align_le (m : positive) (e e' : Z) :
  e' <= e ->
  Zpos (fst (shl_align m e e')) = Zpos m * 2 ^ (e - e') /\ snd (shl_align m e e') = e'.
Proof.
  intros H. unfold shl_align. destruct (e' - e) as [|d|d] eqn:E; cbn [fst snd]; try lia.
  - replace (e - e') with 0 by lia. split; [ring | lia].
  - rewrite pos_iter_xO. replace (e - e') with (Zpos d) by lia. split; reflexivity.
Qed.

Lemma shl_align_ge (m : positive) (e e' : Z) :
  e <= e' -> shl_align m e e' = (m, e).
Proof. intros H. unfold shl_align. destruct (e' - e) eqn:E; try reflexivity. lia. Qed.

Lemma binary_round_not_zero (sx : bool) (m : positive) (ex : Z) :
  -1074 < Z.log2 (Zpos m) + 1 + ex ->
  (exists m' e',
     binary_round 53 1024 sx m ex = S754_finite sx m' e' /\
     Z.log2 (Zpos m) + ex <= Z.log2 (Zpos m') + e') \/
  binary_round 53 1024 sx m ex = S754_infinity sx.
Proof.
  intros Hbig. unfold binary_round. rewrite digits2_log2, fexp_double.
  set (e' := Z.max (Z.log2 (Zpos m) + 1 + ex - 53) (-1074)).
  destruct (Z.le_gt_cases ex e') as [H|H].
  - rewrite (shl_align_ge m ex e' H). now apply binary_round_aux_not_zero.
  - destruct (shl_align_le m ex e') as [Hm He]; [lia|].
    destruct (shl_align m ex e') as [mz ez]. cbn [fst snd] in Hm, He. subst ez.
    assert (L : Z.log2 (Zpos mz) = (ex - e') + Z.log2 (Zpos m))
      by (rewrite Hm; apply Z.log2_mul_pow2; lia).
    destruct (binary_round_aux_not_zero sx (Zpos mz) e' loc_Exact) as [[m' [e'' [E B]]]|E];
      [lia | lia | left | now right].
    exists m', e''. split; [exact E | lia].
Qed.

Lemma valid_finite (s : bool) (m : positive) (e : Z) :
  valid_binary 53 1024 (S754_finite s m e) = true ->
  -1074 <= e /\ Z.log2 (Zpos m) + 1 <= 53 /\ (-1074 < e -> Z.log2 (Zpos m) + 1 = 53).
Proof.
  cbn [valid_binary]. unfold bounded, canonical_mantissa.
  rewrite andb_true_iff, Z.eqb_eq, digits2_log2, fexp_double. lia.
Qed.

Lemma to_Q_finite (s : bool) (m : positive) (e : Z) :
  (to_Q (S754_finite s m e) == inject_Z (cond_Zopp s (Zpos m)) * (2 # 1) ^ e)%Q.
Proof.
  assert (N : (if s then Zneg m else Zpos m) = cond_Zopp s (Zpos m)) by now destruct s.
  unfold to_Q. rewrite N. destruct e as [|p|p].
  - rewrite Z.mul_1_r. change ((2 # 1) ^ 0)%Q with 1%Q. ring.
  - rewrite inject_Z_mult, (Zpower_Qpower 2 (Zpos p)) by lia. reflexivity.
  - rewrite Qmake_Qdiv, Pos2Z.inj_pow, (Zpower_Qpower 2 (Zpos p)) by lia.
    change ((2 # 1) ^ Zneg p)%Q with (/ (2 # 1) ^ Zpos p)%Q. reflexivity.
Qed.

Lemma to_Q_scaled (s : bool) (m : positive) (e e' : Z) :
  e' <= e ->
  (to_Q (S754_finite s m e) == inject_Z (scaled (S754_finite s m e) e') * (2 # 1) ^ e')%Q.
Proof.
  intros H. rewrite to_Q_finite. cbn [scaled].
  assert (C : cond_Zopp s (Zpos m * 2 ^ (e - e')) = cond_Zopp s (Zpos m) * 2 ^ (e - e'))
    by (destruct s; cbn [cond_Zopp]; lia).
  rewrite C, inject_Z_mult, (Zpower_Qpower 2 (e - e')) by lia.
  replace e with ((e - e') + e') at 1 by lia.
  rewrite Qpower_plus by discriminate. change (inject_Z 2) with (2 # 1). ring.
Qed.

Lemma pow2_pos (e : Z) : (0 < (2 # 1) ^ e)%Q.
Proof. now apply Qpower_0_lt. Qed.

(** The order of two finite numbers is the order of their significands at a
    common exponent. *)
Lemma compare_scaled (x y : Q) (a b : Z) (e : Z) :
  (x == inject_Z a * (2 # 1) ^ e)%Q -> (y == inject_Z b * (2 # 1) ^ e)%Q ->
  ((x < y)%Q <-> a - b < 0) /\ ((x == y)%Q <-> a - b = 0).
Proof.
  intros Hx Hy. pose proof (pow2_pos e) as P. rewrite Hx, Hy. split.
  - split; intros H.
    + apply Qmult_lt_r in H; [|exact P]. rewrite <- Zlt_Qlt in H. lia.
    + apply Qmult_lt_r; [exact P|]. rewrite <- Zlt_Qlt. lia.
  - split; intros H.
    + apply (proj1 (Qmult_inj_r _ _ _ (fun E => Qlt_not_eq _ _ P (Qeq_sym _ _ E)))) in H.
      apply (proj1 (inject_Z_injective a b)) in H. lia.
    + replace a with b by lia. reflexivity.
Qed.

Lemma log2_bounds (m : positive) :
  2 ^ Z.log2 (Zpos m) <= Zpos m < 2 ^ (Z.log2 (Zpos m) + 1).
Proof. apply (Z.log2_spec (Zpos m)). lia. Qed.

(** The difference of two doubles: zero when they are equal, and otherwise
    a number with the sign of the exact difference that is not zero and is
    no more than 53 orders of magnitude below the second. *)
Lemma fsub_finite (sc sp : bool) (mc mp : positive) (ec ep : Z) :
  valid_binary 53 1024 (S754_finite sc mc ec) = true ->
  valid_binary 53 1024 (S754_finite sp mp ep) = true ->
  let c := S754_finite sc mc ec in
  let p := S754_finite sp mp ep in
  let z := scaled c (Z.min ec ep) - scaled p (Z.min ec ep) in
  (z = 0 /\ fsub c p = S754_zero false) \/
  (z <> 0 /\
   ((exists m' e',
       fsub c p = S754_finite (z <? 0) m' e' /\
       Z.log2 (Zpos mp) + ep - 53 <= Z.log2 (Zpos m') + e') \/
    fsub c p = S754_infinity (z <? 0))).
Proof.
  intros Vc Vp c p z.
  destruct (valid_finite _ _ _ Vc) as [Ec [Dc _]].
  destruct (valid_finite _ _ _ Vp) as [Ep [Dp Np]].
  pose proof (log2_bounds mc) as Bc. pose proof (log2_bounds mp) as Bp.
  pose proof (Z.log2_nonneg (Zpos mc)) as Lc. pose proof (Z.log2_nonneg (Zpos mp)) as Lp.
  set (ez := Z.min ec ep) in *.
  destruct (shl_align_le mc ec ez) as [Ha _]; [unfold ez; lia|].
  destruct (shl_align_le mp ep ez) as [Hb _]; [unfold ez; lia|].
  assert (F : fsub c p = binary_normalize 53 1024 z ez false).
  { unfold fsub, c, p, z. cbn [SFsub scaled]. fold ez. rewrite Ha, Hb. reflexivity. }
  rewrite F.
  assert (Big : forall m : positive, Z.abs z = Zpos m ->
                Z.log2 (Zpos mp) + ep - 53 <= Z.log2 (Zpos m) + ez).
  { intros m Hm. pose proof (Z.log2_nonneg (Zpos m)) as Lm.
    destruct (Z.le_gt_cases ep ec) as [Hle|Hgt].
    - assert (ez = ep) by (unfold ez; lia). lia.
    - assert (Ez : ez = ec) by (unfold ez; lia).
      assert (D52 : Z.log2 (Zpos mp) = 52) by lia.
      assert (K : 0 <= ep - ec - 1) by lia.
      assert (Pk : 0 < 2 ^ (ep - ec - 1)) by (apply Z.pow_pos_nonneg; lia).
      assert (E2 : 2 ^ (ep - ec) = 2 * 2 ^ (ep - ec - 1)).
      { replace (ep - ec) with (Z.succ (ep - ec - 1)) at 1 by lia.
        now rewrite Z.pow_succ_r. }
      assert (C53 : Zpos mc < 2 ^ 53).
      { apply Z.lt_le_trans with (2 ^ (Z.log2 (Zpos mc) + 1)); [lia|].
        apply Z.pow_le_mono_r; lia. }
      assert (P52 : 2 ^ 52 <= Zpos mp) by (rewrite <- D52; lia).
      change (2 ^ 53) with 9007199254740992 in C53.
      change (2 ^ 52) with 4503599627370496 in P52.
      assert (A : 2 ^ (ep - ec - 1) <= Zpos m).
      { rewrite <- Hm. unfold z, c, p. cbn [scaled]. rewrite Ez.
        replace (ec - ec) with 0 by lia. rewrite Z.mul_1_r, E2.
        destruct sc, sp; cbn [cond_Zopp]; nia. }
      apply Z.log2_le_pow2 in A; lia. }
  assert (Hez : -1074 <= ez) by (unfold ez; lia).
  destruct z as [|m|m] eqn:Ez.
  - left. split; reflexivity.
  - right. split; [discriminate|]. cbn [binary_normalize Z.ltb Z.compare].
    pose proof (Z.log2_nonneg (Zpos m)) as Lm.
    destruct (binary_round_not_zero false m ez) as [[m' [e' [E B]]]|E]; [lia | left | now right].
    exists m', e'. split; [exact E|]. specialize (Big m eq_refl). lia.
  - right. split; [discriminate|]. cbn [binary_normalize Z.ltb Z.compare].
    pose proof (Z.log2_nonneg (Zpos m)) as Lm.
    destruct (binary_round_not_zero true m ez) as [[m' [e' [E B]]]|E]; [lia | left | now right].
    exists m', e'. split; [exact E|]. specialize (Big m eq_refl). lia.
Qed.

(** The quotient of two finite numbers, the first no more than 53 orders of
    magnitude below the second, is not zero. *)
Lemma fdiv_not_zero (sx sp : bool) (mx mp : positive) (ex ep : Z) :
  Z.log2 (Zpos mp) + ep - 53 <= Z.log2 (Zpos mx) + ex ->
  (exists m' e',
     fdiv (S754_finite sx mx ex) (S754_finite sp mp ep) = S754_finite (xorb sx sp) m' e' /\
     -1074 < Z.log2 (Zpos m') + 1 + e') \/
  fdiv (S754_finite sx mx ex) (S754_finite sp mp ep) = S754_infinity (xorb sx sp).
Proof.
  intros Hrel. unfold fdiv. cbn [SFdiv]. unfold SFdiv_core_binary.
  cbn [Zdigits2]. rewrite !digits2_log2, fexp_double.
  pose proof (log2_bounds mx) as Bx. pose proof (log2_bounds mp) as Bp.
  pose proof (Z.log2_nonneg (Zpos mx)) as Lx. pose proof (Z.log2_nonneg (Zpos mp)) as Lp.
  set (lx := Z.log2 (Zpos mx)) in *. set (lp := Z.log2 (Zpos mp)) in *.
  set (e' := Z.min (Z.max (lx + 1 + ex - (lp + 1 + ep) - 53) (-1074)) (ex - ep)).
  set (s := ex - ep - e').
  assert (Hs : 53 - lx + lp <= s) by (unfold s, e'; lia).
  assert (Hs0 : 0 <= s) by (unfold s, e'; lia).
  set (m' := match s with Zpos _ => Z.shiftl (Zpos mx) s | 0 => Zpos mx | Zneg _ => 0 end).
  assert (Hm' : m' = Zpos mx * 2 ^ s).
  { unfold m'. destruct s as [|q|q] eqn:Es; try lia.
    now rewrite Z.shiftl_mul_pow2. }
  set (k := lx + s - (lp + 1)).
  assert (Hk : 0 <= k) by (unfold k; lia).
  assert (Hq : 2 ^ k <= m' / Zpos mp).
  { apply Z.div_le_lower_bound; [lia|].
    rewrite Hm'.
    assert (E : 2 ^ lx * 2 ^ s = 2 ^ k * 2 ^ (lp + 1)).
    { rewrite <- !Z.pow_add_r by lia. f_equal. unfold k. lia. }
    assert (P1 : 0 < 2 ^ s) by (apply Z.pow_pos_nonneg; lia).
    assert (P2 : 0 < 2 ^ k) by (apply Z.pow_pos_nonneg; lia).
    nia. }
  assert (Pk : 0 < 2 ^ k) by (apply Z.pow_pos_nonneg; lia).
  unfold Z.div in Hq.
  destruct (Z.div_eucl m' (Zpos mp)) as [q r]. cbn [fst] in Hq.
  assert (Lq : k <= Z.log2 q) by (apply Z.log2_le_pow2; lia).
  destruct (binary_round_aux_not_zero (xorb sx sp) q e' (new_location (Zpos mp) r))
    as [[m'' [e'' [E B]]]|E]; [lia | unfold k, s in Lq; lia | left | now right].
  exists m'', e''. split; [exact E|]. unfold k, s in Lq. lia.
Qed.

Lemma of_Z_100 : of_Z 100 = S754_finite false 7036874417766400 (-46).
Proof. vm_compute. reflexivity. Qed.

(** A hundred times a finite number that is not zero is not zero. *)
Lemma fmul_100_not_zero (s : bool) (m : positive) (e : Z) :
  -1074 < Z.log2 (Zpos m) + 1 + e ->
  (exists m' e', fmul (S754_finite s m e) (of_Z 100) = S754_finite s m' e') \/
  fmul (S754_finite s m e) (of_Z 100) = S754_infinity s.
Proof.
  intros H. rewrite of_Z_100. unfold fmul. cbn [SFmul]. rewrite xorb_false_r.
  assert (L : Z.log2 (Zpos m) + 52 <= Z.log2 (Zpos (m * 7036874417766400))).
  { rewrite Pos2Z.inj_mul.
    change 52 with (Z.log2 (Zpos 7036874417766400)).
    apply Z.log2_mul_below; lia. }
  destruct (binary_round_aux_not_zero s (Zpos (m * 7036874417766400)) (e + -46) loc_Exact)
    as [[m' [e' [E _]]]|E]; [lia | lia | left | now right].
  now exists m', e'.
Qed.

Lemma Qmult_pos_sign (x y : Q) : (0 < y)%Q -> (0 <= x * y)%Q <-> (0 <= x)%Q.
Proof.
  intros Hy. split.
  - intros H. destruct (Qlt_le_dec x 0) as [Hx|Hx]; [|exact Hx].
    exfalso. apply (Qlt_not_le (x * y) 0); [|exact H].
    rewrite <- (Qmult_0_l y). now apply Qmult_lt_compat_r.
  - intros Hx. apply Qmult_le_0_compat; [exact Hx | now apply Qlt_le_weak].
Qed.

Lemma Qmult_neg_sign (x y : Q) : (y < 0)%Q -> (0 <= x * y)%Q <-> (x <= 0)%Q.
Proof.
  intros Hy.
  assert (Hy' : (0 < - y)%Q) by (apply (Qopp_lt_compat y 0) in Hy; exact Hy).
  assert (E : (x * y == (- x) * (- y))%Q) by ring.
  rewrite E, (Qmult_pos_sign (- x) (- y) Hy'). split; intros H.
  - apply Qopp_le_compat in H. now rewrite Qopp_involutive in H.
  - apply Qopp_le_compat in H. exact H.
Qed.

Lemma diff_sign_pos (current prev : Q) :
  (0 < prev)%Q -> (0 <= (current - prev) / prev * 100)%Q <-> (prev <= current)%Q.
Proof.
  intros Hp. unfold Qdiv.
  rewrite (Qmult_pos_sign _ 100) by reflexivity.
  rewrite (Qmult_pos_sign _ (/ prev)) by now apply Qinv_lt_0_compat.
  rewrite (Qle_minus_iff prev current). reflexivity.
Qed.

Lemma diff_sign_neg (current prev : Q) :
  (prev < 0)%Q -> (0 <= (current - prev) / prev * 100)%Q <-> (current <= prev)%Q.
Proof.
  intros Hp. unfold Qdiv.
  rewrite (Qmult_pos_sign _ 100) by reflexivity.
  assert (Hi : (/ prev < 0)%Q).
  { destruct prev as [[|n|n] d]; try discriminate Hp. reflexivity. }
  rewrite (Qmult_neg_sign _ (/ prev) Hi).
  rewrite (Qle_minus_iff current prev).
  split; intros H.
  - apply Qopp_le_compat in H. setoid_replace (- (current - prev))%Q with (prev + - current)%Q
      in H by ring. exact H.
  - apply Qopp_le_compat in H. setoid_replace (- (prev + - current))%Q with (current - prev)%Q
      in H by ring. exact H.
Qed.


Lemma to_Q_positive (m : positive) (e : Z) : (0 < to_Q (S754_finite false m e))%Q.
Proof.
  unfold to_Q. destruct e as [|p|p].
  - reflexivity.
  - unfold Qlt, inject_Z. cbn [Qnum Qden].
    assert (0 < 2 ^ Zpos p) by (apply Z.pow_pos_nonneg; lia). nia.
  - reflexivity.
Qed.

Lemma Qlt_bool_not (x y : Q) : (y <= x)%Q -> Qlt_bool x y = false.
Proof.
  intros H. destruct (Qlt_bool x y) eqn:B; [|reflexivity].
  apply Qlt_bool_iff in B. exfalso. now apply (Qlt_not_le x y).
Qed.

(** The percentage of a trend, computed in doubles from two doubles of which
    the second is not zero: a zero when the two are equal, and otherwise a
    finite number that is not zero, or an infinity, with the sign of the
    exact quotient. *)
Lemma percentage_sign (c : number) (sp : bool) (mp : positive) (ep : Z) :
  valid_binary 53 1024 c = true ->
  valid_binary 53 1024 (S754_finite sp mp ep) = true ->
  is_finite c = true ->
  let p := S754_finite sp mp ep in
  let D := fmul (fdiv (fsub c p) p) (of_Z 100) in
  ((to_Q c == to_Q p)%Q -> exists s, D = S754_zero s) /\
  (~ (to_Q c == to_Q p)%Q ->
   let s := xorb (Qlt_bool (to_Q c) (to_Q p)) sp in
   (exists m e, D = S754_finite s m e) \/ D = S754_infinity s).
Proof.
  intros Vc Vp Fc p D.
  assert (Tail : forall (sx : bool) (mx : positive) (ex : Z),
            Z.log2 (Zpos mp) + ep - 53 <= Z.log2 (Zpos mx) + ex ->
            (exists m e,
               fmul (fdiv (S754_finite sx mx ex) p) (of_Z 100) = S754_finite (xorb sx sp) m e) \/
            fmul (fdiv (S754_finite sx mx ex) p) (of_Z 100) = S754_infinity (xorb sx sp)).
  { intros sx mx ex Hrel.
    destruct (fdiv_not_zero sx sp mx mp ex ep Hrel) as [[m' [e' [E B]]]|E]; unfold p; rewrite E.
    - apply fmul_100_not_zero. exact B.
    - right. rewrite of_Z_100. cbn. now rewrite xorb_false_r. }
  assert (TailInf : forall sx : bool,
            fmul (fdiv (S754_infinity sx) p) (of_Z 100) = S754_infinity (xorb sx sp)).
  { intros sx. rewrite of_Z_100. cbn. now rewrite xorb_false_r. }
  destruct c as [sc|sc| |sc mc ec]; try discriminate Fc.
  - (* current is a zero *)
    assert (E : fsub (S754_zero sc) p = S754_finite (negb sp) mp ep) by reflexivity.
    assert (L : Qlt_bool (to_Q (S754_zero sc)) (to_Q p) = negb sp).
    { unfold p. destruct sp; cbn [negb].
      - apply Qlt_bool_not, Qlt_le_weak, to_Q_negative.
      - apply Qlt_bool_iff, to_Q_positive. }
    split.
    + intros H. exfalso. cbn [to_Q] in H. unfold p in H. destruct sp.
      * pose proof (to_Q_negative mp ep) as N. rewrite <- H in N. discriminate N.
      * pose proof (to_Q_positive mp ep) as N. rewrite <- H in N. discriminate N.
    + intros _. cbv zeta. subst D. rewrite E, L. apply Tail. lia.
  - (* current is finite and not zero *)
    pose proof (fsub_finite sc sp mc mp ec ep Vc Vp) as F. cbv zeta in F.
    fold p in F. destruct F as [[Z0 E]|[Zn E]].
    + split.
      * intros _. subst D. rewrite E, of_Z_100. cbn. eexists. reflexivity.
      * intros H. exfalso. apply H.
        apply (compare_scaled _ _ _ _ (Z.min ec ep)
                 (to_Q_scaled sc mc ec _ (Z.le_min_l ec ep))
                 (to_Q_scaled sp mp ep _ (Z.le_min_r ec ep))).
        exact Z0.
    + pose proof (compare_scaled _ _ _ _ (Z.min ec ep)
                    (to_Q_scaled sc mc ec _ (Z.le_min_l ec ep))
                    (to_Q_scaled sp mp ep _ (Z.le_min_r ec ep))) as [Lt Eq].
      split.
      * intros H. exfalso. apply Zn. now apply Eq.
      * intros _. cbv zeta.
        assert (S : Qlt_bool (to_Q (S754_finite sc mc ec)) (to_Q p) =
                    (scaled (S754_finite sc mc ec) (Z.min ec ep) -
                     scaled (S754_finite sp mp ep) (Z.min ec ep) <? 0)).
        { destruct (Z.ltb_spec (scaled (S754_finite sc mc ec) (Z.min ec ep) -
                                  scaled (S754_finite sp mp ep) (Z.min ec ep)) 0) as [B|B].
          - apply Qlt_bool_iff. apply (proj2 Lt). exact B.
          - apply Qlt_bool_not. apply Qnot_lt_le. intros Q.
            apply (proj1 Lt) in Q. lia. }
        rewrite S. subst D.
        destruct E as [[m' [e' [E B]]]|E]; rewrite E.
        -- now apply Tail.
        -- right. apply TailInf.
Qed.

Lemma first_char_plus (s : string) : first_char ("+" ++ s) = Some "+"%char.
Proof. reflexivity. Qed.

Lemma fixed1_negative (x : Q) : (x < 0)%Q -> first_char (fixed1 x) = Some "-"%char.
Proof.
  intros H. unfold fixed1. apply Qlt_bool_iff in H. rewrite H.
  destruct (Qle_bool (inject_Z (10 ^ 21)) (Qabs x)); reflexivity.
Qed.

(** The first character of a trend, by the percentage it is printed from. *)
Lemma calculateTrend_first_char (current prev : number) :
  truthy prev = true ->
  let D := fmul (fdiv (fsub current prev) prev) (of_Z 100) in
  (forall s, D = S754_zero s -> first_char (calculateTrend current prev) = Some "+"%char) /\
  (forall s, (exists m e, D = S754_finite s m e) \/ D = S754_infinity s ->
     first_char (calculateTrend current prev) = Some (if s then "-" else "+")%char).
Proof.
  intros T D. unfold calculateTrend. rewrite (truthy_not_zero prev T). fold D.
  split.
  - intros s ->. reflexivity.
  - intros s [[m [e ->]]| ->].
    + destruct s; [|reflexivity].
      change (not_negative (S754_finite true m e)) with false. cbv iota.
      change (toFixed1 (S754_finite true m e)) with (fixed1 (to_Q (S754_finite true m e))).
      pose proof (fixed1_negative _ (to_Q_negative m e)) as F.
      destruct (fixed1 (to_Q (S754_finite true m e))); [discriminate F | exact F].
    + now destruct s.
Qed.

(** X9: for two doubles, the previous total not zero, a trend starts with
    "+" when the exact percentage is zero or more and with "-" when it is
    negative, whatever its size.  Over a positive previous total that is "+"
    exactly when the current total has not fallen below it; over a negative
    previous total the sign is the other way round: "+" exactly when the
    current total is not above it. *)
Theorem calculateTrend_sign (current prev : number) :
  valid_binary 53 1024 current = true -> valid_binary 53 1024 prev = true ->
  is_finite current = true -> is_finite prev = true -> truthy prev = true ->
  let diff := ((to_Q current - to_Q prev) / to_Q prev * 100)%Q in
  ((0 <= diff)%Q -> first_char (calculateTrend current prev) = Some "+"%char) /\
  ((diff < 0)%Q -> first_char (calculateTrend current prev) = Some "-"%char) /\
  ((0 < to_Q prev)%Q ->
   (first_char (calculateTrend current prev) = Some "+"%char <->
    (to_Q prev <= to_Q current)%Q)) /\
  ((to_Q prev < 0)%Q ->
   (first_char (calculateTrend current prev) = Some "+"%char <->
    (to_Q current <= to_Q prev)%Q)).
Proof.
  intros Vc Vp Fc Fp T diff.
  destruct prev as [sp|sp| |sp mp ep]; try discriminate Fp; try discriminate T.
  destruct (percentage_sign current sp mp ep Vc Vp Fc) as [Zero Signed].
  destruct (calculateTrend_first_char current (S754_finite sp mp ep) T) as [CZ CS].
  cbv zeta in Zero, Signed, CZ, CS.
  set (x := to_Q current) in *. set (y := to_Q (S754_finite sp mp ep)) in *.
  assert (Sy : if sp then (y < 0)%Q else (0 < y)%Q)
    by (destruct sp; [apply to_Q_negative | apply to_Q_positive]).
  (* the sign of the exact percentage *)
  assert (Dsign : (0 <= diff)%Q <-> (if sp then (x <= y)%Q else (y <= x)%Q)).
  { unfold diff. destruct sp; [now apply diff_sign_neg | now apply diff_sign_pos]. }
  assert (Plus : (0 <= diff)%Q -> first_char (calculateTrend current (S754_finite sp mp ep))
                                  = Some "+"%char).
  { intros H. apply Dsign in H.
    destruct (Qeq_dec x y) as [E|N].
    - destruct (Zero E) as [s Ds]. now apply (CZ s).
    - specialize (Signed N). rewrite (CS _ Signed).
      destruct sp.
      + assert (L : Qlt_bool x y = true).
        { apply Qlt_bool_iff. apply Qle_lt_or_eq in H. destruct H; [assumption | contradiction]. }
        now rewrite L.
      + assert (L : Qlt_bool x y = false).
        { destruct (Qlt_bool x y) eqn:B; [|reflexivity].
          apply Qlt_bool_iff in B. exfalso. now apply (Qlt_not_le x y). }
        now rewrite L. }
  assert (Minus : (diff < 0)%Q -> first_char (calculateTrend current (S754_finite sp mp ep))
                                  = Some "-"%char).
  { intros H.
    assert (NotLe : ~ (if sp then (x <= y)%Q else (y <= x)%Q)).
    { intros G. apply Dsign in G. now apply (Qlt_not_le diff 0). }
    assert (N : ~ (x == y)%Q).
    { intros E. apply NotLe. destruct sp; rewrite E; apply Qle_refl. }
    specialize (Signed N). rewrite (CS _ Signed).
    destruct sp.
    + assert (L : Qlt_bool x y = false).
      { destruct (Qlt_bool x y) eqn:B; [|reflexivity].
        apply Qlt_bool_iff in B. exfalso. apply NotLe. now apply Qlt_le_weak. }
      now rewrite L.
    + assert (L : Qlt_bool x y = true).
      { apply Qlt_bool_iff. apply Qnot_le_lt. exact NotLe. }
      now rewrite L. }
  assert (Iff : first_char (calculateTrend current (S754_finite sp mp ep)) = Some "+"%char
                <-> (0 <= diff)%Q).
  { split; [|exact Plus]. intros H.
    destruct (Qlt_le_dec diff 0) as [L|L]; [|exact L].
    rewrite (Minus L) in H. discriminate H. }
  split; [exact Plus|]. split; [exact Minus|]. split.
  - intros H. rewrite Iff, Dsign. destruct sp; [|reflexivity].
    exfalso. apply (Qlt_irrefl 0). now apply Qlt_trans with y.
  - intros H. rewrite Iff, Dsign. destruct sp; [reflexivity|].
    exfalso. apply (Qlt_irrefl 0). now apply Qlt_trans with y.
Qed.

End Engine.

(** C10 as written fails: a client whose only service row has the empty
    string as service_type is listed with [services = []], although it has a
    service row.  The state is the one POST /api/clients leaves on a fresh
    database for services [""]. *)
Lemma get_api_clients_services_counterexample :
  let db := snd (post_api_clients "2024-05-01 10:00:00"
                   (PostClients.mk (Some "Ann"%string) None None None
                      (Some [Some ""%string])
                      (of_Z 0) (of_Z 0) None None)
                   new_database) in
  exists r,
    In r (get_api_clients db) /\
    ClientRow.services r = [] /\
    service_types_of db (Client.id (ClientRow.client r)) = [""%string] /\
    ~ (ClientRow.services r = [] <->
       service_types_of db (Client.id (ClientRow.client r)) = []).
Proof.
  cbv zeta. eexists. split; [left; reflexivity|].
  split; [reflexivity|]. split; [reflexivity|].
  intros [H _]. specialize (H eq_refl). vm_compute in H. discriminate H.
Qed.

Lemma get_api_clients_services_witness :
  let db := snd (post_api_clients "2024-05-01 10:00:00"
                   (PostClients.mk (Some "Ann"%string) None None None
                      (Some [Some "seo"%string; Some "ads, print"%string])
                      (of_Z 1000) (of_Z 400) None None)
                   new_database) in
  exists r,
    In r (get_api_clients db) /\
    ClientRow.services r = ["seo"; "ads"; " print"]%string /\
    List.length (ClientRow.services r) = 3%nat.
Proof.
  cbv zeta.
  eexists. split; [left; reflexivity|]. split; [reflexivity|].
  match goal with
  | |- List.length (ClientRow.services ?r) = _ =>
      assert (Hin : In r (get_api_clients
                (snd (post_api_clients "2024-05-01 10:00:00"
                   (PostClients.mk (Some "Ann"%string) None None None
                      (Some [Some "seo"%string; Some "ads, print"%string])
                      (of_Z 1000) (of_Z 400) None None)
                   new_database)))) by (left; reflexivity);
      destruct (get_api_clients_services _ r Hin) as [_ [_ [Hlen _]]]
  end.
  rewrite Hlen; [reflexivity | discriminate].
Defined.

Example calculateTrend_up : calculateTrend (of_Z 1500) (of_Z 1000) = "+50.0%"%string.
Proof. reflexivity. Qed.

Example calculateTrend_down : calculateTrend (of_Z 500) (of_Z 1000) = "-50.0%"%string.
Proof. reflexivity. Qed.

Example calculateTrend_rounds : calculateTrend (of_Z 1004) (of_Z 3000) = "-66.5%"%string.
Proof. reflexivity. Qed.

Example calculateTrend_no_previous : calculateTrend (of_Z 500) (of_Z 0) = "+100%"%string.
Proof. reflexivity. Qed.

(** The percentage is the double the three operations give, not the exact
    quotient: for 10015 over 10000 it is just below 0.15 and is printed as
    0.1, and an overflow is printed as an infinity. *)
Example calculateTrend_double : calculateTrend (of_Z 10015) (of_Z 10000) = "+0.1%"%string.
Proof. vm_compute. reflexivity. Qed.

Example calculateTrend_overflow :
  calculateTrend (of_Z (2 ^ 1023)) (of_Z (- 2 ^ 1023)) = "-Infinity%"%string.
Proof. vm_compute. reflexivity. Qed.

(** * Examples, witnesses and counterexamples *)

(** ** PATCH /api/payments/:clientId *)

Lemma patch_api_payments_updates_witness :
  let db := snd (post_api_clients "2024-05-01 10:00:00"
                   (PostClients.mk (Some "Ann"%string) None None None (Some [])
                      (of_Z 1000) (of_Z 0) None None)
                   new_database) in
  let payment := Payment.mk 1 (Some 1) (Some (of_Z 1000)) (Some zero) (Some (of_Z 1000))
                   (Some (Text "2024-05-01 10:00:00")) in
  let b := PatchPayments.mk (of_Z 400) (Some (of_Z 400)) in
  let res := patch_api_payments "2024-05-02 11:00:00" 1 b db in
  payments_of db 1 = [payment] /\
  referential_integrity db /\
  fst res = Json 200 success_true /\
  payments_of (snd res) 1 =
    [Payment.mk 1 (Some 1) (Some (of_Z 1000)) (Some (of_Z 400)) (Some (of_Z 600))
       (Some (Text "2024-05-02 11:00:00"))] /\
  List.length (rows (transactions (snd res))) = 1%nat.
Proof.
  cbv zeta.
  assert (RI : referential_integrity
                 (snd (post_api_clients "2024-05-01 10:00:00"
                   (PostClients.mk (Some "Ann"%string) None None None (Some [])
                      (of_Z 1000) (of_Z 0) None None)
                   new_database)))
    by (intros _; repeat split; repeat constructor).
  destruct (patch_api_payments_updates "2024-05-02 11:00:00" 1
              (PatchPayments.mk (of_Z 400) (Some (of_Z 400)))
              (snd (post_api_clients "2024-05-01 10:00:00"
                   (PostClients.mk (Some "Ann"%string) None None None (Some [])
                      (of_Z 1000) (of_Z 0) None None)
                   new_database))
              (Payment.mk 1 (Some 1) (Some (of_Z 1000)) (Some zero) (Some (of_Z 1000))
                 (Some (Text "2024-05-01 10:00:00")))
              [] eq_refl) as [Hok [Hdone _]].
  specialize (Hok RI). destruct (Hdone Hok) as [_ Hrows].
  split; [reflexivity|]. split; [exact RI|].
  split; [exact Hok|]. split; [rewrite Hrows; reflexivity | reflexivity].
Defined.

(** C1 as written fails for a client with two payment rows, which a restore
    can leave: the lookup reads the first of them, and the balance written
    on every payment row of the client is the total of that first row less
    the advance.  Here the rows have the totals 100 and 250; after a PATCH
    with advance_paid = 40 the second row has the balance 60, not 210. *)
Lemma patch_api_payments_second_row_counterexample :
  let c := Client.mk 1 "Ann" None None None None None (Some "active"%string)
             (Some (Text "2024-05-01 10:00:00")) in
  let p i t := Payment.mk i (Some 1) (Some (of_Z t)) (Some zero) (Some (of_Z t)) None in
  let bk := Backup.mk [c] [] [p 1 100; p 2 250] [] "" "1.0" in
  let db := snd (post_api_restore example_affinity bk new_database) in
  let res := patch_api_payments "2024-05-02 11:00:00" 1 (PatchPayments.mk (of_Z 40) None) db in
  fst (post_api_restore example_affinity bk new_database) = Json 200 success_true /\
  fst res = Json 200 success_true /\
  map (fun q => (Payment.id q, Payment.total_amount q, Payment.remaining_balance q))
    (rows (payments (snd res)))
  = [(1, Some (of_Z 100), Some (of_Z 60)); (2, Some (of_Z 250), Some (of_Z 60))] /\
  fsub (of_Z 250) (of_Z 40) = of_Z 210 /\
  of_Z 60 <> of_Z 210.
Proof.
  cbv zeta. split; [reflexivity|]. split; [reflexivity|]. split; [reflexivity|].
  split; [reflexivity|]. intros H. vm_compute in H. discriminate H.
Qed.

(** The example of the specification: with amount_added = 0 no transaction
    row is appended. *)
Example patch_api_payments_amount_zero :
  let db := snd (post_api_clients "2024-05-01 10:00:00"
                   (PostClients.mk (Some "Ann"%string) None None None (Some [])
                      (of_Z 1000) (of_Z 0) None None)
                   new_database) in
  let res := patch_api_payments "2024-05-02 11:00:00" 1
               (PatchPayments.mk (of_Z 400) (Some (of_Z 0))) db in
  fst res = Json 200 success_true /\ rows (transactions (snd res)) = [].
Proof. split; reflexivity. Qed.

(** The balance is the difference of two doubles: for the doubles nearest to
    1000.1 and 100.3 it is not the double nearest to 899.8. *)
Example remaining_balance_double :
  let T := fdiv (of_Z 10001) (of_Z 10) in
  let A := fdiv (of_Z 1003) (of_Z 10) in
  fsub T A = S754_finite false 7914724501382759 (-43) /\
  fdiv (of_Z 8998) (of_Z 10) = S754_finite false 7914724501382758 (-43).
Proof. split; vm_compute; reflexivity. Qed.

Lemma patch_api_payments_not_found_witness :
  let db := snd (post_api_clients "2024-05-01 10:00:00"
                   (PostClients.mk (Some "Ann"%string) None None None (Some [])
                      (of_Z 1000) (of_Z 0) None None)
                   new_database) in
  let b := PatchPayments.mk (of_Z 400) (Some (of_Z 400)) in
  referential_integrity db /\
  fst (patch_api_payments "2024-05-02 11:00:00" 7 b db)
    = NotFound "Payment record not found" /\
  snd (patch_api_payments "2024-05-02 11:00:00" 7 b db) = db /\
  fst (patch_api_payments "2024-05-02 11:00:00" 1 b db) = Json 200 success_true.
Proof.
  cbv zeta.
  assert (RI : referential_integrity
                 (snd (post_api_clients "2024-05-01 10:00:00"
                   (PostClients.mk (Some "Ann"%string) None None None (Some [])
                      (of_Z 1000) (of_Z 0) None None)
                   new_database)))
    by (intros _; repeat split; repeat constructor).
  split; [exact RI|]. split; [reflexivity|].
  split.
  - apply (patch_api_payments_not_found "2024-05-02 11:00:00" 7
             (PatchPayments.mk (of_Z 400) (Some (of_Z 400))) _ RI).
    intros p [<-|[]]. discriminate.
  - apply (patch_api_payments_not_found "2024-05-02 11:00:00" 1
             (PatchPayments.mk (of_Z 400) (Some (of_Z 400))) _ RI).
    intros H. apply (H (Payment.mk 1 (Some 1) (Some (of_Z 1000)) (Some zero)
                          (Some (of_Z 1000)) (Some (Text "2024-05-01 10:00:00"))));
      [left|]; reflexivity.
Defined.

(** ** POST /api/clients *)

(** POST /api/clients with a null among the service types: the client row
    was inserted before the failing INSERT, and is gone after the rollback. *)
Example post_api_clients_rollback :
  post_api_clients "2024-05-01 10:00:00"
    (PostClients.mk (Some "Ann"%string) None None None (Some [Some "seo"%string; None])
       (of_Z 1000) (of_Z 400) None None)
    new_database
  = (ServerError NotNullConstraint, new_database).
Proof. reflexivity. Qed.

Example post_api_clients_example :
  let res := post_api_clients "2024-05-01 10:00:00"
               (PostClients.mk (Some "Ann"%string) None None None
                  (Some [Some "seo"%string; Some "ads"%string]) (of_Z 1000) (of_Z 400)
                  None None)
               new_database in
  fst res = Json 201 1 /\
  List.length (rows (clients (snd res))) = 1%nat /\
  service_types_of (snd res) 1 = ["seo"; "ads"]%string /\
  map Payment.remaining_balance (payments_of (snd res) 1) = [Some (of_Z 600)].
Proof. repeat split. Qed.

(** ** PATCH /api/clients/:id *)



(** The example of the specification: whatever the services were, after a
    PATCH with services = [x, y] they are x and y. *)
Example patch_api_clients_services_example :
  let db := snd (post_api_clients "2024-05-01 10:00:00"
                   (PostClients.mk (Some "Ann"%string) None None None
                      (Some [Some "seo"%string; Some "ads"%string; Some "print"%string])
                      (of_Z 1000) (of_Z 400) None None)
                   new_database) in
  let b := PatchClients.mk (Some "Ann"%string) None None None None
             (Some [Some "x"%string; Some "y"%string]) None in
  fst (patch_api_clients 1 b db) = Json 200 success_true /\
  service_types_of (snd (patch_api_clients 1 b db)) 1 = ["x"; "y"]%string.
Proof. split; reflexivity. Qed.

(** What GET /api/clients shows after the PATCH is the list joined by commas
    and split again: a type with a comma comes back as two entries, and the
    one empty type as no entry. *)
Example patch_api_clients_services_listed :
  let db := snd (post_api_clients "2024-05-01 10:00:00"
                   (PostClients.mk (Some "Ann"%string) None None None (Some [])
                      (of_Z 1000) (of_Z 400) None None)
                   new_database) in
  let b l := PatchClients.mk (Some "Ann"%string) None None None None (Some l) None in
  map ClientRow.services
    (get_api_clients (snd (patch_api_clients 1 (b [Some "web, print"; Some "ads"]%string) db)))
  = [["web"; " print"; "ads"]%string] /\
  map ClientRow.services
    (get_api_clients (snd (patch_api_clients 1 (b [Some ""%string]) db)))
  = [[]].
Proof. split; reflexivity. Qed.
(** ** POST /api/restore *)

(** C5 as written fails: the connection enforces the foreign keys, so the
    DELETE FROM clients of the restore cascades into the transactions table.
    The state is the one left by a POST /api/clients and a PATCH
    /api/payments/1 with amount_added = 400; restoring its own backup
    answers success and the ledger row is gone. *)
Lemma post_api_restore_ledger_counterexample :
  let db1 := snd (post_api_clients "2024-05-01 10:00:00"
                    (PostClients.mk (Some "Ann"%string) None None None
                       (Some [Some "seo"%string]) (of_Z 1000) (of_Z 0) None None)
                    new_database) in
  let db := snd (patch_api_payments "2024-05-02 11:00:00" 1
                   (PatchPayments.mk (of_Z 400) (Some (of_Z 400))) db1) in
  exists bk,
    get_api_backup "2024-05-03T12:00:00.000Z" db = Json 200 bk /\
    fst (post_api_restore example_affinity bk db) = Json 200 success_true /\
    rows (transactions db) =
      [Transaction.mk 1 (Some 1) (of_Z 400) (Some "payment"%string)
         (Some "2024-05-02 11:00:00"%string)] /\
    rows (transactions (snd (post_api_restore example_affinity bk db))) = [] /\
    transactions (snd (post_api_restore example_affinity bk db)) <> transactions db.
Proof.
  cbv zeta. eexists. split; [reflexivity|].
  split; [reflexivity|]. split; [reflexivity|]. split; [reflexivity|].
  intros H. apply (f_equal rows) in H. vm_compute in H. discriminate H.
Qed.

(** A snapshot with an id that is no rowid is refused, and so is one with a
    service of an unknown client; the database stays as it is. *)
Example post_api_restore_refused :
  let c i := Client.mk i "Ann" None None None None None (Some "active"%string) None in
  post_api_restore example_affinity (Backup.mk [c (2 ^ 63)] [] [] [] "" "1.0") new_database
  = (ServerError DatatypeMismatch, new_database) /\
  post_api_restore example_affinity
    (Backup.mk [c 1] [Service.mk 1 (Some 2) "seo" None] [] [] "" "1.0") new_database
  = (ServerError ForeignKeyConstraint, new_database).
Proof. split; reflexivity. Qed.

(** The DATE and DATETIME columns store a text that is a numeric literal as
    the number. *)
Example post_api_restore_affinity :
  let c := Client.mk 1 "Ann" None None None None None (Some "active"%string)
             (Some (Text "20261102")) in
  map Client.created_at
    (rows (clients (snd (post_api_restore example_affinity
                           (Backup.mk [c] [] [] [] "" "1.0") new_database))))
  = [Some (Integer 20261102)].
Proof. reflexivity. Qed.
(** ** GET /api/backup, then POST /api/restore *)



(** An id beyond 2^53 is not carried by the document either: the restore of
    the backup of a table with the ids 2^53 and 2^53 + 1 is refused, both
    being written as 2^53. *)
Example backup_restore_large_id :
  let c i := Client.mk i "Ann" None None None None None (Some "active"%string) None in
  let db := snd (post_api_restore example_affinity
                   (Backup.mk [c (2 ^ 53)] [] [] [] "" "1.0") new_database) in
  let db' := snd (post_api_clients "2024-05-02 10:00:00"
                    (PostClients.mk (Some "Bob"%string) None None None (Some [])
                       (of_Z 0) (of_Z 0) None None) db) in
  exists bk,
    get_api_backup "2024-05-03T12:00:00.000Z" db' = Json 200 bk /\
    map Client.id (rows (clients db')) = [2 ^ 53; 2 ^ 53 + 1] /\
    map Client.id (Backup.clients bk) = [2 ^ 53; 2 ^ 53] /\
    post_api_restore example_affinity bk db' = (ServerError PrimaryKeyConstraint, db').
Proof. cbv zeta. eexists. repeat split; vm_compute; reflexivity. Qed.
(** ** GET /api/tasks *)

(** C8 as written fails: SQLite sorts NULL before every value in an
    ascending ORDER BY, so a task without a due date is listed first.  The
    state is the one left by a POST /api/clients and two POST /api/tasks,
    the first with a due date and the second without. *)
Lemma get_api_tasks_null_counterexample :
  let db1 := snd (post_api_clients "2024-05-01 10:00:00"
                    (PostClients.mk (Some "Ann"%string) None None None (Some [])
                       (of_Z 1000) (of_Z 0) None None)
                    new_database) in
  let db2 := snd (post_api_tasks example_affinity "2024-05-02 10:00:00"
                    (PostTasks.mk (Some 1) (Some "send invoice"%string) None
                       (Some "2024-06-01"%string))
                    db1) in
  let db := snd (post_api_tasks example_affinity "2024-05-03 10:00:00"
                   (PostTasks.mk (Some 1) (Some "call back"%string) None None)
                   db2) in
  map (fun r => (Task.id (TaskRow.task r), Task.due_date (TaskRow.task r)))
    (get_api_tasks (Some 1) db)
  = [(2, None); (1, Some (Text "2024-06-01"))] /\
  ~ StronglySorted due_order_nulls_last (get_api_tasks (Some 1) db).
Proof.
  cbv zeta.
  match goal with
  | |- _ /\ ~ StronglySorted _ ?out =>
      assert (E : out =
                  [TaskRow.mk (Task.mk 2 (Some 1) "call back" None None (Some "pending"%string)
                                 (Some (Text "2024-05-03 10:00:00"))) "Ann";
                   TaskRow.mk (Task.mk 1 (Some 1) "send invoice" None
                                 (Some (Text "2024-06-01")) (Some "pending"%string)
                                 (Some (Text "2024-05-02 10:00:00"))) "Ann"])
        by (vm_compute; reflexivity);
      rewrite E
  end.
  split; [reflexivity|].
  intros H.
  inversion H as [|a l _ Hall]; subst.
  inversion Hall as [|b l' Hab _]; subst.
  exact Hab.
Qed.

(** Tasks of two clients, with and without due dates: the list of client 1. *)
Example get_api_tasks_example :
  let db1 := snd (post_api_clients "2024-05-01 10:00:00"
                    (PostClients.mk (Some "Ann"%string) None None None (Some [])
                       (of_Z 1000) (of_Z 0) None None)
                    new_database) in
  let db2 := snd (post_api_clients "2024-05-01 11:00:00"
                    (PostClients.mk (Some "Bob"%string) None None None (Some [])
                       (of_Z 10) (of_Z 0) None None)
                    db1) in
  let task (c : Z) (title : string) (due : option string) :=
    PostTasks.mk (Some c) (Some title) None due in
  let post (now : string) (b : PostTasks.body) (d : Db) :=
    snd (post_api_tasks example_affinity now b d) in
  let db3 := post "2024-05-02 10:00:00"%string (task 1 "a" (Some "2024-06-01"))%string db2 in
  let db4 := post "2024-05-02 11:00:00"%string (task 2 "b" (Some "2024-05-20"))%string db3 in
  let db5 := post "2024-05-02 12:00:00"%string (task 1 "c" (Some "2024-05-25"))%string db4 in
  let db6 := post "2024-05-02 13:00:00"%string (task 1 "d" (Some "2024-06-01"))%string db5 in
  let db := post "2024-05-02 14:00:00"%string (task 1 "e" None)%string db6 in
  map (fun r => Task.title (TaskRow.task r)) (get_api_tasks (Some 1) db)
  = ["e"; "c"; "d"; "a"]%string.
Proof. reflexivity. Qed.

(** A due date sent as digits only is stored as an integer, and the integers
    come before every text: '9' before '20240515' before '2024-06-01'. *)
Example get_api_tasks_numeric_due_dates :
  let db1 := snd (post_api_clients "2024-05-01 10:00:00"
                    (PostClients.mk (Some "Ann"%string) None None None (Some [])
                       (of_Z 1000) (of_Z 0) None None)
                    new_database) in
  let task (title due : string) := PostTasks.mk (Some 1) (Some title) None (Some due) in
  let post (now : string) (b : PostTasks.body) (d : Db) :=
    snd (post_api_tasks example_affinity now b d) in
  let db2 := post "2024-05-02 10:00:00"%string (task "a" "2024-06-01")%string db1 in
  let db3 := post "2024-05-02 11:00:00"%string (task "b" "20240515")%string db2 in
  let db := post "2024-05-02 12:00:00"%string (task "c" "9")%string db3 in
  map (fun r => Task.due_date (TaskRow.task r)) (get_api_tasks (Some 1) db)
  = [Some (Integer 9); Some (Integer 20240515); Some (Text "2024-06-01")].
Proof. reflexivity. Qed.
(** ** The reachable states *)

Lemma reachable_consistent_witness :
  let db :=
    handle example_affinity (DeleteClients 1)
      (handle example_affinity (PostClients "2024-05-01 10:00:00"
                 (PostClients.mk (Some "Ann"%string) None None None (Some [Some "seo"%string])
                      (of_Z 1000) (of_Z 400) None None))
         new_database) in
  reachable example_affinity db /\ consistent db.
Proof.
  cbv zeta.
  assert (R : reachable example_affinity
                (handle example_affinity (DeleteClients 1)
                   (handle example_affinity (PostClients "2024-05-01 10:00:00"
                              (PostClients.mk (Some "Ann"%string) None None None
                                 (Some [Some "seo"%string])
                      (of_Z 1000) (of_Z 400) None None))
                      new_database)))
    by (do 2 apply reachable_step; apply reachable_new).
  split; [exact R | exact (reachable_consistent example_affinity _ R)].
Defined.

Example post_api_tasks_unknown_client :
  post_api_tasks example_affinity "2024-05-02 10:00:00"
    (PostTasks.mk (Some 7) (Some "call"%string) None None) new_database
  = (ServerError ForeignKeyConstraint, new_database).
Proof. reflexivity. Qed.

(** A task without a client is stored and never listed. *)
Example get_api_tasks_orphan :
  let db1 := snd (post_api_clients "2024-05-01 10:00:00"
                    (PostClients.mk (Some "Ann"%string) None None None (Some [])
                      (of_Z 1000) (of_Z 0) None None)
                    new_database) in
  let db2 := snd (post_api_tasks example_affinity "2024-05-02 10:00:00"
                    (PostTasks.mk None (Some "no client"%string) None None) db1) in
  let db := snd (post_api_tasks example_affinity "2024-05-02 11:00:00"
                   (PostTasks.mk (Some 1) (Some "call"%string) None None) db2) in
  map Task.title (rows (tasks db)) = ["no client"; "call"]%string /\
  map (fun r => (Task.title (TaskRow.task r), TaskRow.client_name r)) (get_api_tasks None db)
  = [("call", "Ann")]%string.
Proof. split; reflexivity. Qed.
(** ** GET /api/clients *)

(** Two payment rows for one client, as a restore can leave them: the client
    is listed twice. *)
Example get_api_clients_listed_twice :
  let c := Client.mk 1 "Ann" None None None None None (Some "active"%string)
             (Some (Text "2024-05-01 10:00:00")) in
  let p i t := Payment.mk i (Some 1) (Some t) (Some zero) (Some t) None in
  let bk := Backup.mk [c] [] [p 1 (of_Z 100); p 2 (of_Z 250)] [] "" "1.0" in
  let db := snd (post_api_restore example_affinity bk new_database) in
  fst (post_api_restore example_affinity bk new_database) = Json 200 success_true /\
  map (fun r => (Client.id (ClientRow.client r), ClientRow.total_amount r))
    (get_api_clients db)
  = [(1, Some (of_Z 100)); (1, Some (of_Z 250))].
Proof. split; reflexivity. Qed.

(** The list is in the descending order of the stored created_at: a
    created_at that a restore stored as a number comes after every text. *)
Example get_api_clients_numeric_created_at :
  let c i (n : string) (t : string) :=
    Client.mk i n None None None None None (Some "active"%string) (Some (Text t)) in
  let bk := Backup.mk [c 1 "Ann"%string "20261102"%string;
                       c 2 "Bob"%string "2024-05-01 10:00:00"%string]
              [] [] [] "" "1.0" in
  let db := snd (post_api_restore example_affinity bk new_database) in
  map (fun r => (Client.name (ClientRow.client r), Client.created_at (ClientRow.client r)))
    (get_api_clients db)
  = [("Bob"%string, Some (Text "2024-05-01 10:00:00"));
     ("Ann"%string, Some (Integer 20261102))].
Proof. reflexivity. Qed.
(** ** The pending_tasks column *)

Lemma post_api_tasks_pending_witness :
  let db := snd (post_api_clients "2024-05-01 10:00:00"
                   (PostClients.mk (Some "Ann"%string) None None None (Some [])
                      (of_Z 1000) (of_Z 0) None None)
                   new_database) in
  let b := PostTasks.mk (Some 1) (Some "call"%string) None None in
  fst (post_api_tasks example_affinity "2024-05-02 10:00:00" b db) = Json 201 1 /\
  pending_tasks_of (snd (post_api_tasks example_affinity "2024-05-02 10:00:00" b db)) 1 = 1.
Proof.
  cbv zeta. split; [reflexivity|].
  destruct (post_api_tasks_pending example_affinity "2024-05-02 10:00:00"
              (PostTasks.mk (Some 1) (Some "call"%string) None None)
              (snd (post_api_clients "2024-05-01 10:00:00"
                   (PostClients.mk (Some "Ann"%string) None None None (Some [])
                      (of_Z 1000) (of_Z 0) None None)
                   new_database))
              1 eq_refl) as [P _].
  rewrite P. reflexivity.
Defined.

Lemma patch_api_tasks_pending_witness :
  let db1 := snd (post_api_clients "2024-05-01 10:00:00"
                    (PostClients.mk (Some "Ann"%string) None None None (Some [])
                      (of_Z 1000) (of_Z 0) None None)
                    new_database) in
  let db := snd (post_api_tasks example_affinity "2024-05-02 10:00:00"
                   (PostTasks.mk (Some 1) (Some "call"%string) None None) db1) in
  pending_tasks_of db 1 = 1 /\
  pending_tasks_of (snd (patch_api_tasks 1 (Some "done"%string) db)) 1 = 0.
Proof.
  cbv zeta. split; [reflexivity|].
  rewrite (patch_api_tasks_pending 1 (Some "done"%string) _
             (Task.mk 1 (Some 1) "call" None None (Some "pending"%string)
                (Some (Text "2024-05-02 10:00:00"))) 1).
  - reflexivity.
  - repeat constructor.
  - left. reflexivity.
  - reflexivity.
  - reflexivity.
  - reflexivity.
  - discriminate.
Defined.
(** ** GET /api/stats *)

Lemma get_api_stats_first_month_witness :
  let db := snd (post_api_clients "2024-05-02 09:00:00"
                   (PostClients.mk (Some "Ann"%string) None None None (Some [])
                      (of_Z 1000) (of_Z 400) None None)
                   new_database) in
  example_sum [] = None /\
  (forall c, In c (rows (clients db)) ->
     match Client.created_at c with
     | None => True
     | Some (Text t) => (t <? "2024-05-01T00:00:00.000Z")%string = false
     | Some _ => False
     end) /\
  exists st,
    get_api_stats example_sum "2024-05-01T00:00:00.000Z" db = Json 200 st /\
    Stats.revenue_value st = of_Z 1000 /\
    Stats.revenue_trend st = "+100%"%string.
Proof.
  cbv zeta.
  assert (H : forall c,
            In c (rows (clients
                    (snd (post_api_clients "2024-05-02 09:00:00"
                       (PostClients.mk (Some "Ann"%string) None None None (Some [])
                          (of_Z 1000) (of_Z 400) None None)
                       new_database)))) ->
            match Client.created_at c with
            | None => True
            | Some (Text t) => (t <? "2024-05-01T00:00:00.000Z")%string = false
            | Some _ => False
            end)
    by (intros c [<-|[]]; reflexivity).
  split; [reflexivity|]. split; [exact H|].
  destruct (get_api_stats_first_month example_sum "2024-05-01T00:00:00.000Z" _ eq_refl H)
    as [[st [E [R _]]] _].
  exists st. split; [exact E|]. split; [|exact R].
  injection E as <-. reflexivity.
Defined.

(** A client created on the first day of the month counts into the previous
    totals: its created_at compares below the bound as a text. *)
Example get_api_stats_first_day :
  let db := snd (post_api_clients "2024-05-01 09:00:00"
                   (PostClients.mk (Some "Ann"%string) None None None (Some [])
                      (of_Z 1000) (of_Z 400) None None)
                   new_database) in
  exists st,
    get_api_stats example_sum "2024-05-01T00:00:00.000Z" db = Json 200 st /\
    Stats.revenue_trend st = "+0.0%"%string.
Proof. cbv zeta. eexists. split; [reflexivity|]. vm_compute. reflexivity. Qed.
(** ** GET /api/transactions *)

Lemma patch_api_payments_listed_witness :
  let db := snd (post_api_clients "2024-05-01 10:00:00"
                   (PostClients.mk (Some "Ann"%string) None None (Some "Acme"%string)
                      (Some [])
                      (of_Z 1000) (of_Z 0) None None)
                   new_database) in
  let b := PatchPayments.mk (of_Z 400) (Some (of_Z 400)) in
  foreign_keys db = true /\
  above_zero (of_Z 400) = true /\
  fst (patch_api_payments "2024-05-02 11:00:00" 1 b db) = Json 200 success_true /\
  exists out,
    get_api_transactions (snd (patch_api_payments "2024-05-02 11:00:00" 1 b db))
      = Json 200 out /\
    List.length out = 1%nat.
Proof.
  cbv zeta. split; [reflexivity|]. split; [reflexivity|]. split; [reflexivity|].
  destruct (patch_api_payments_listed "2024-05-02 11:00:00" 1
              (PatchPayments.mk (of_Z 400) (Some (of_Z 400)))
              (snd (post_api_clients "2024-05-01 10:00:00"
                   (PostClients.mk (Some "Ann"%string) None None (Some "Acme"%string)
                      (Some [])
                      (of_Z 1000) (of_Z 0) None None)
                   new_database))
              (of_Z 400) eq_refl eq_refl eq_refl eq_refl) as [out [c [E _]]].
  exists out. split; [exact E|].
  injection E as <-. reflexivity.
Defined.
(** ** Requests that name no client *)

Lemma patch_api_clients_unknown_witness :
  has_rowid Client.id 7 (rows (clients new_database)) = false /\
  patch_api_clients 7 (PatchClients.mk None None None None None None None) new_database
  = (Json 200 success_true, new_database) /\
  exists e,
    patch_api_clients 7
      (PatchClients.mk (Some "Ann"%string) None None None None (Some [Some "seo"%string]) None)
      new_database
    = (ServerError e, new_database).
Proof.
  split; [reflexivity|].
  split.
  - apply (patch_api_clients_unknown 7
             (PatchClients.mk None None None None None None None) new_database eq_refl).
    reflexivity.
  - apply (patch_api_clients_unknown 7
             (PatchClients.mk (Some "Ann"%string) None None None None
                (Some [Some "seo"%string]) None)
             new_database eq_refl) with (s := Some "seo"%string) (l := []); reflexivity.
Defined.
(** ** AUTOINCREMENT *)

Lemma client_ids_not_reused_witness :
  let body (n : string) :=
    PostClients.mk (Some n) None None None (Some []) (of_Z 0) (of_Z 0) None None in
  let db := handle example_affinity (PostClients "2024-05-01 10:00:00" (body "Ann"%string))
              new_database in
  let c := Client.mk 1 "Ann" None None None None None (Some "active"%string)
             (Some (Text "2024-05-01 10:00:00")) in
  let after := run example_affinity [DeleteClients 1] db in
  reachable example_affinity db /\ In c (rows (clients db)) /\
  fst (post_api_clients "2024-05-03 10:00:00" (body "Bob"%string) after) = Json 201 2 /\
  exists c',
    rows (clients (snd (post_api_clients "2024-05-03 10:00:00" (body "Bob"%string) after)))
    = rows (clients after) ++ [c'] /\
    1 < Client.id c'.
Proof.
  cbv zeta.
  assert (R : reachable example_affinity
                (handle example_affinity
                   (PostClients "2024-05-01 10:00:00"
                      (PostClients.mk (Some "Ann"%string) None None None (Some [])
                         (of_Z 0) (of_Z 0) None None))
                   new_database))
    by (apply reachable_step, reachable_new).
  split; [exact R|]. split; [left; reflexivity|]. split; [reflexivity|].
  destruct (client_ids_not_reused example_affinity _ _ [DeleteClients 1] "2024-05-03 10:00:00"
              (PostClients.mk (Some "Bob"%string) None None None (Some [])
                 (of_Z 0) (of_Z 0) None None)
              2 R (or_introl eq_refl) eq_refl) as [c' [Hrows [Hlt _]]].
  exists c'. split; [exact Hrows | exact Hlt].
Defined.

(** Beyond 2^53 the id in the answer is not the id of the new row: after a
    restore has planted the id 2^53, the next client is stored under
    2^53 + 1 and the answer names 2^53. *)
Example client_ids_beyond_53_bits :
  let old := Client.mk (2 ^ 53) "Old" None None None None None (Some "active"%string) None in
  let db := handle example_affinity (PostRestore (Backup.mk [old] [] [] [] "" "1.0"))
              new_database in
  let res := post_api_clients "2024-05-03 10:00:00"
               (PostClients.mk (Some "Bob"%string) None None None (Some [])
                  (of_Z 0) (of_Z 0) None None) db in
  fst res = Json 201 (2 ^ 53) /\
  map Client.id (rows (clients (snd res))) = [2 ^ 53; 2 ^ 53 + 1].
Proof. cbv zeta. split; vm_compute; reflexivity. Qed.
(** ** POST /api/restore: what the result depends on *)

Lemma post_api_restore_forgets_witness :
  let b := Backup.mk
             [Client.mk 7 "Ann" None None None None None (Some "active"%string)
                (Some (Text "2024-05-01 10:00:00"))]
             [Service.mk 3 (Some 7) "seo" (Some zero)] [] [] "2024-05-03T12:00:00.000Z" "1.0" in
  let db := new_database in
  let db' := snd (post_api_clients "2024-05-02 10:00:00"
                    (PostClients.mk (Some "Bob"%string) None None None
                       (Some [Some "print"%string])
                      (of_Z 500) (of_Z 500) None None)
                    new_database) in
  foreign_keys db' = foreign_keys db /\
  fst (post_api_restore example_affinity b db) = Json 200 success_true /\
  fst (post_api_restore example_affinity b db') = Json 200 success_true /\
  rows (clients (snd (post_api_restore example_affinity b db'))) = rows (clients (snd (post_api_restore example_affinity b db))) /\
  rows (services (snd (post_api_restore example_affinity b db'))) = rows (services (snd (post_api_restore example_affinity b db))) /\
  rows (payments (snd (post_api_restore example_affinity b db'))) = rows (payments (snd (post_api_restore example_affinity b db))) /\
  rows (tasks (snd (post_api_restore example_affinity b db'))) = rows (tasks (snd (post_api_restore example_affinity b db))).
Proof.
  cbv zeta. split; [reflexivity|]. split; [reflexivity|].
  apply (post_api_restore_forgets example_affinity); reflexivity.
Defined.
(** ** POST /api/clients, then GET /api/clients *)

Lemma post_api_clients_listed_witness :
  let b := PostClients.mk (Some "Ann"%string) (Some "ann@example.com"%string) None None
             (Some [Some "seo"%string; Some "ads"%string]) (of_Z 1000) (of_Z 400) None None in
  references_ok new_database /\
  next_rowid Client.id (clients new_database) <= 2 ^ 53 /\
  fst (post_api_clients "2024-05-01 10:00:00" b new_database) = Json 201 1 /\
  filter (fun r => Client.id (ClientRow.client r) =? 1)
    (get_api_clients (snd (post_api_clients "2024-05-01 10:00:00" b new_database)))
  = [ClientRow.mk
       (Client.mk 1 "Ann" (Some "ann@example.com"%string) None None None None
          (Some "active"%string) (Some (Text "2024-05-01 10:00:00")))
       ["seo"; "ads"]%string
       (Some (of_Z 1000)) (Some (of_Z 400)) (Some (of_Z 600)) 0].
Proof.
  cbv zeta.
  assert (R : references_ok new_database) by (repeat split; constructor).
  assert (L : next_rowid Client.id (clients new_database) <= 2 ^ 53) by discriminate.
  split; [exact R|]. split; [exact L|]. split; [reflexivity|].
  destruct (post_api_clients_listed "2024-05-01 10:00:00"
              (PostClients.mk (Some "Ann"%string) (Some "ann@example.com"%string) None None
                 (Some [Some "seo"%string; Some "ads"%string]) (of_Z 1000) (of_Z 400)
                 None None)
              new_database 1 R L eq_refl) as [n [types [En [Et E]]]].
  rewrite E. injection En as <-. injection Et as Et.
  assert (T : types = ["seo"; "ads"]%string).
  { destruct types as [|x [|y [|z types]]]; try discriminate Et.
    now injection Et as <- <-. }
  subst types. reflexivity.
Defined.

(** A total that fell from -100 to -50, that is rose: the percentage is
    negative and the trend starts with "-". *)
Lemma calculateTrend_sign_witness :
  valid_binary 53 1024 (of_Z (-50)) = true /\
  valid_binary 53 1024 (of_Z (-100)) = true /\
  is_finite (of_Z (-50)) = true /\ is_finite (of_Z (-100)) = true /\
  truthy (of_Z (-100)) = true /\
  ((to_Q (of_Z (-50)) - to_Q (of_Z (-100))) / to_Q (of_Z (-100)) * 100 < 0)%Q /\
  (to_Q (of_Z (-100)) < 0)%Q /\
  first_char (calculateTrend (of_Z (-50)) (of_Z (-100))) = Some "-"%char /\
  ~ (to_Q (of_Z (-50)) <= to_Q (of_Z (-100)))%Q.
Proof.
  pose proof (calculateTrend_sign (of_Z (-50)) (of_Z (-100))
                eq_refl eq_refl eq_refl eq_refl eq_refl) as [_ [Minus [_ Neg]]].
  assert (D : ((to_Q (of_Z (-50)) - to_Q (of_Z (-100))) / to_Q (of_Z (-100)) * 100 < 0)%Q)
    by (vm_compute; reflexivity).
  assert (P : (to_Q (of_Z (-100)) < 0)%Q) by (vm_compute; reflexivity).
  split; [reflexivity|]. split; [reflexivity|]. split; [reflexivity|].
  split; [reflexivity|]. split; [reflexivity|]. split; [exact D|].
  split; [exact P|]. split; [exact (Minus D)|].
  intros H. apply (proj2 (Neg P)) in H. rewrite (Minus D) in H. discriminate H.
Defined.

Example calculateTrend_negative_previous :
  calculateTrend (of_Z (-50)) (of_Z (-100)) = "-50.0%"%string.
Proof. vm_compute. reflexivity. Qed.
